(** * Real-time room/session coordination of the chat server

    A shallow embedding of [server/socket/socketHandler.js] together with
    the parts of [server/models/Message.js], [server/models/Room.js],
    [server/database/connection.js] and [server/utils/jwt.js] it calls,
    and of what surrounds it: the start-up of the store
    ([server/database/index.js]), the username rule of
    [server/models/User.js], and the REST controller of the rooms
    ([server/controllers/room.controller.js]), which creates, lists and
    deletes the rooms the sockets join.

    Conventions of the model.
    - A JavaScript string is a [string]; one [ascii] stands for one code
      unit, so the model covers Latin-1 text.  A payload field that may be
      absent is an [option string]; the empty string and the absent field
      are the falsy values.
    - A [Map] is a [gmap], a [Set] a [gset].  The iteration order of a
      [Set] (insertion order) is abstracted to the order of [elements].
    - socket.io is an external collaborator.  Its state is the map of
      connected sockets and the adapter's room -> socket-ids map; emitting
      appends (recipient socket id, event) pairs to a log.  An emission
      addressed to a socket that has already closed is logged as well,
      although socket.io drops it.
    - Every handler is [async].  [handleJoinRoom], [leaveRoom] and the
      other handlers below are the handlers run to completion: what an
      event does when its handler has settled before the next event is
      handled.  A state is what the server holds between two such events,
      and the runs ([step], [reachable]) are sequences of events handled
      one at a time.  Events of one socket that arrive together are not
      handled so: their handlers interleave at the awaits.  The section on
      suspended handlers has join-room and leave-room with their awaits;
      it shows that a handler that is not interrupted does what the
      handler run to completion does, and that two joins that arrive
      together break what holds of the runs.
    - [uuidv4()] is a counter and timestamps are left out.  Where an
      identifier is used as a key of the store, its text is a parameter
      [uuidText] of the development. *)

From Stdlib Require Import Ascii String.
From stdpp Require Import gmap strings list fin_maps fin_sets.
Open Scope string_scope.
Open Scope list_scope.
Open Scope nat_scope.
#[local] Set Warnings "-clear-no-such-hyp".
#[local] Set Warnings "-register-all".

(** ** JavaScript strings *)

Module JS.

(** Code units that [String.prototype.trim] strips (below 256). *)
Definition isWhiteSpace (c : ascii) : bool :=
  let n := nat_of_ascii c in
  (((9 <=? n) && (n <=? 13)) || (n =? 32) || (n =? 160))%nat.

Fixpoint trimStart (s : string) : string :=
  match s with
  | String c s' => if isWhiteSpace c then trimStart s' else s
  | EmptyString => EmptyString
  end.

Fixpoint trimEnd (s : string) : string :=
  match s with
  | EmptyString => EmptyString
  | String c s' =>
      match trimEnd s' with
      | EmptyString => if isWhiteSpace c then EmptyString else String c EmptyString
      | t => String c t
      end
  end.

Definition trim (s : string) : string := trimEnd (trimStart s).

(** Nothing but white space. *)
Fixpoint isBlank (s : string) : bool :=
  match s with
  | EmptyString => true
  | String c s' => isWhiteSpace c && isBlank s'
  end.

(** [!s] for a string. *)
Definition isEmpty (s : string) : bool :=
  match s with EmptyString => true | String _ _ => false end.

(** The value of a possibly absent string field when it is truthy. *)
Definition truthy (v : option string) : option string :=
  match v with
  | Some (String c s) => Some (String c s)
  | _ => None
  end.

(** [a || b] on possibly absent strings. *)
Definition or (a b : option string) : option string :=
  match truthy a with Some s => Some s | None => b end.

Fixpoint repeat (c : ascii) (n : nat) : string :=
  match n with O => EmptyString | S n' => String c (repeat c n') end.

End JS.

(** ** Data *)

Inductive MessageType := TMessage | TNotification.

(** A stored message record ([messageRecord] of [Message.create]). *)
Record Message := {
  msgId : nat;
  roomId : string;
  senderId : string;
  senderUsername : string;
  content : string;
  messageType : MessageType
}.

(** The argument of [Message.create]. *)
Record MessageData := {
  dRoomId : string;
  dSenderId : string;
  dSenderUsername : string;
  dContent : string;
  dMessageType : option MessageType
}.

(** [Message.prototype.toClient]. *)
Record ClientMessage := {
  cId : nat;
  cSender : string;
  cMessage : string;
  cType : MessageType
}.

Definition toClient (m : Message) : ClientMessage :=
  {| cId := msgId m; cSender := senderUsername m;
     cMessage := content m; cType := messageType m |}.

(** A stored room record; the key of the collection is its id. *)
Record RoomRecord := {
  name : string;
  createdBy : string;
  participants : list string;
  isActive : bool
}.

Record UserRecord := { uUsername : string }.

(** [InMemoryDatabase]: the three collections and the [connected] flag. *)
Record Database := {
  connected : bool;
  users : gmap string UserRecord;
  rooms : gmap string RoomRecord;
  messages : list Message
}.

(** An authenticated socket: its id and what the middleware attached. *)
Record Socket := { id : string; userId : string; username : string }.

(** A value of [connectedUsers]. *)
Record UserInfo := {
  socketId : string;
  infoUsername : string;
  currentRoom : option string
}.

(** An entry of a participant list. *)
Record Participant := {
  pUserId : string;
  pUsername : string;
  isOnline : bool
}.

Inductive Event :=
| connected_ev (u n : string)
| error_ev (message : string) (details : option (list string))
| user_joined (u n : string) (m : ClientMessage)
| user_left (u n : string) (m : ClientMessage)
| participants_update (r : string) (ps : list Participant)
| room_joined (r rname : string) (ps : list Participant)
| room_left (r : string)
| new_message (m : ClientMessage)
| room_participants (r : string) (ps : list Participant).

#[global] Instance MessageType_eq_dec : EqDecision MessageType.
Proof. solve_decision. Defined.
#[global] Instance ClientMessage_eq_dec : EqDecision ClientMessage.
Proof. solve_decision. Defined.
#[global] Instance Participant_eq_dec : EqDecision Participant.
Proof. solve_decision. Defined.
#[global] Instance Event_eq_dec : EqDecision Event.
Proof. solve_decision. Defined.
#[global] Instance Socket_eq_dec : EqDecision Socket.
Proof. solve_decision. Defined.

(** The state of the server process. *)
Record Server := {
  connectedUsers : gmap string UserInfo;
  roomParticipants : gmap string (gset string);
  ioSockets : gmap string Socket;
  ioRooms : gmap string (gset string);
  database : Database;
  uuidCounter : nat;
  emitted : list (string * Event)
}.

(** ** Control flow: state and exceptions *)

(** What a JavaScript [Error] carries for the handlers: a validation error
    has [code = 'VALIDATION_ERROR'] and [details]; any other has a message. *)
Inductive Exn :=
| VALIDATION_ERROR (details : list string)
| Error (message : string).

Inductive Completion (A : Type) :=
| Return (a : A)
| Throw (e : Exn).
Arguments Return {A} a.
Arguments Throw {A} e.

(** A computation over the server state that returns or throws; what it
    wrote before throwing stays written. *)
Definition M (A : Type) : Type := Server → Completion A * Server.

Definition ret {A} (a : A) : M A := λ σ, (Return a, σ).
Definition throw {A} (e : Exn) : M A := λ σ, (Throw e, σ).
Definition bind {A B} (m : M A) (k : A → M B) : M B :=
  λ σ, match m σ with
       | (Return a, σ') => k a σ'
       | (Throw e, σ') => (Throw e, σ')
       end.
Definition try_catch {A} (m : M A) (h : Exn → M A) : M A :=
  λ σ, match m σ with
       | (Return a, σ') => (Return a, σ')
       | (Throw e, σ') => h e σ'
       end.
Definition gets {A} (f : Server → A) : M A := λ σ, (Return (f σ), σ).
Definition modify (f : Server → Server) : M unit := λ σ, (Return tt, f σ).

Declare Scope M_scope.
Delimit Scope M_scope with M.
Bind Scope M_scope with M.
Notation "x <- m ;; k" := (bind m (λ x, k))
  (at level 100, m at next level, right associativity) : M_scope.
Notation "m ;; k" := (bind m (λ _, k))
  (at level 100, right associativity) : M_scope.

(** The state a computation leaves behind. *)
Definition exec {A} (m : M A) (σ : Server) : Server := (m σ).2.

(** Field updates. *)
Definition setConnectedUsers (f : gmap string UserInfo → gmap string UserInfo)
    (σ : Server) : Server :=
  {| connectedUsers := f (connectedUsers σ);
     roomParticipants := roomParticipants σ;
     ioSockets := ioSockets σ; ioRooms := ioRooms σ;
     database := database σ; uuidCounter := uuidCounter σ;
     emitted := emitted σ |}.

Definition setRoomParticipants
    (f : gmap string (gset string) → gmap string (gset string))
    (σ : Server) : Server :=
  {| connectedUsers := connectedUsers σ;
     roomParticipants := f (roomParticipants σ);
     ioSockets := ioSockets σ; ioRooms := ioRooms σ;
     database := database σ; uuidCounter := uuidCounter σ;
     emitted := emitted σ |}.

Definition setIoSockets (f : gmap string Socket → gmap string Socket)
    (σ : Server) : Server :=
  {| connectedUsers := connectedUsers σ;
     roomParticipants := roomParticipants σ;
     ioSockets := f (ioSockets σ); ioRooms := ioRooms σ;
     database := database σ; uuidCounter := uuidCounter σ;
     emitted := emitted σ |}.

Definition setIoRooms
    (f : gmap string (gset string) → gmap string (gset string))
    (σ : Server) : Server :=
  {| connectedUsers := connectedUsers σ;
     roomParticipants := roomParticipants σ;
     ioSockets := ioSockets σ; ioRooms := f (ioRooms σ);
     database := database σ; uuidCounter := uuidCounter σ;
     emitted := emitted σ |}.

Definition setDatabase (f : Database → Database) (σ : Server) : Server :=
  {| connectedUsers := connectedUsers σ;
     roomParticipants := roomParticipants σ;
     ioSockets := ioSockets σ; ioRooms := ioRooms σ;
     database := f (database σ); uuidCounter := uuidCounter σ;
     emitted := emitted σ |}.

Definition setUuidCounter (f : nat → nat) (σ : Server) : Server :=
  {| connectedUsers := connectedUsers σ;
     roomParticipants := roomParticipants σ;
     ioSockets := ioSockets σ; ioRooms := ioRooms σ;
     database := database σ; uuidCounter := f (uuidCounter σ);
     emitted := emitted σ |}.

Definition setEmitted (f : list (string * Event) → list (string * Event))
    (σ : Server) : Server :=
  {| connectedUsers := connectedUsers σ;
     roomParticipants := roomParticipants σ;
     ioSockets := ioSockets σ; ioRooms := ioRooms σ;
     database := database σ; uuidCounter := uuidCounter σ;
     emitted := f (emitted σ) |}.

Definition uuidv4 : M nat :=
  λ σ, (Return (uuidCounter σ), setUuidCounter S σ).

(** ** socket.io (external): rooms and emitting *)

(** [socket.join(room)]. *)
Definition socket_join (socket : Socket) (room : string) : M unit :=
  modify (setIoRooms (λ g, <[room := {[id socket]} ∪ g !!! room]> g)).

(** [socket.leave(room)]. *)
Definition socket_leave (socket : Socket) (room : string) : M unit :=
  modify (setIoRooms (alter (λ members, members ∖ {[id socket]}) room)).

(** [socket.emit(event)]: to this socket. *)
Definition socket_emit (socket : Socket) (ev : Event) : M unit :=
  modify (setEmitted (λ log, log ++ [(id socket, ev)])).

(** [socket.to(room).emit(event)]: to the sockets of the room but this one. *)
Definition socket_to_emit (socket : Socket) (room : string) (ev : Event) : M unit :=
  modify (λ σ, setEmitted (λ log,
    log ++ ((λ k, (k, ev)) <$> elements (ioRooms σ !!! room ∖ {[id socket]}))) σ).

(** [io.to(room).emit(event)]: to every socket of the room. *)
Definition io_to_emit (room : string) (ev : Event) : M unit :=
  modify (λ σ, setEmitted (λ log,
    log ++ ((λ k, (k, ev)) <$> elements (ioRooms σ !!! room))) σ).

(** A socket that passed the middleware is connected. *)
Definition io_accept (socket : Socket) : M unit :=
  modify (setIoSockets (<[id socket := socket]>)).

(** A closing socket leaves every room and the socket map before its
    ['disconnect'] listeners run. *)
Definition io_close (socket : Socket) : M unit :=
  modify (λ σ, setIoSockets (delete (id socket))
                 (setIoRooms (fmap (λ members, members ∖ {[id socket]})) σ)).

(** ** [InMemoryDatabase] and the models *)

(** Every operation starts with [if (!this.connected) throw ...]. *)
Definition requireConnected : M unit :=
  λ σ, if connected (database σ) then (Return tt, σ)
       else (Throw (Error "Database not connected"), σ).

Definition setRooms (f : gmap string RoomRecord → gmap string RoomRecord)
    (db : Database) : Database :=
  {| connected := connected db; users := users db;
     rooms := f (rooms db); messages := messages db |}.

Definition setMessages (f : list Message → list Message) (db : Database) : Database :=
  {| connected := connected db; users := users db;
     rooms := rooms db; messages := f (messages db) |}.

(** A [Room] instance.  Its [participants] array is the very array of the
    stored record (the database hands out references), so the instance
    reads the list through the store while the record exists;
    [rParticipants] is what it holds when the record is gone. *)
Record Room := {
  rId : string;
  rName : string;
  rCreatedBy : string;
  rParticipants : list string;
  rIsActive : bool
}.

(** [new Room(record)] for the record stored under [i]. *)
Definition newRoom (i : string) (rec : RoomRecord) : Room :=
  {| rId := i; rName := name rec; rCreatedBy := createdBy rec;
     rParticipants := participants rec; rIsActive := isActive rec |}.

Definition Room_findById (i : string) : M (option Room) :=
  (requireConnected ;;
   gets (λ σ, newRoom i <$> rooms (database σ) !! i))%M.

Definition Room_participants (room : Room) : M (list string) :=
  gets (λ σ, match rooms (database σ) !! rId room with
             | Some rec => participants rec
             | None => rParticipants room
             end).

(** [room.save()] with the participant list [ps]: [updateById] on a missing
    record changes nothing. *)
Definition Room_save (room : Room) (ps : list string) : M unit :=
  (requireConnected ;;
   modify (setDatabase (setRooms (alter (λ _,
     {| name := rName room; createdBy := rCreatedBy room;
        participants := ps; isActive := rIsActive room |}) (rId room)))))%M.

Definition Room_addParticipant (room : Room) (u : string) : M unit :=
  if JS.isEmpty u then throw (Error "Valid user ID is required")
  else (ps <- Room_participants room ;;
        if bool_decide (u ∈ ps) then ret tt
        else Room_save room (ps ++ [u]))%M.

(** [splice(indexOf(u), 1)]: drops the first occurrence. *)
Fixpoint removeFirst (u : string) (ps : list string) : list string :=
  match ps with
  | [] => []
  | p :: ps' => if bool_decide (p = u) then ps' else p :: removeFirst u ps'
  end.

Definition Room_removeParticipant (room : Room) (u : string) : M unit :=
  if JS.isEmpty u then throw (Error "Valid user ID is required")
  else (ps <- Room_participants room ;;
        if bool_decide (u ∈ ps) then Room_save room (removeFirst u ps)
        else ret tt)%M.

(** [Message.validateContent]. *)
Definition validateContent (c : string) : list string :=
  if JS.isEmpty c then ["Message content is required"]
  else (if (String.length (JS.trim c) <? 1)%nat
        then ["Message content cannot be empty"] else [])
       ++ (if (1000 <? String.length c)%nat
           then ["Message content must be no more than 1000 characters long"]
           else []).

(** [Message.validateMessageType]: both values of [MessageType] are valid. *)
Definition validateMessageType (t : MessageType) : list string := [].

(** [Message.validate]. *)
Definition validate (d : MessageData) : list string :=
  (if JS.isEmpty (dRoomId d) then ["Room ID is required"] else [])
  ++ (if JS.isEmpty (dSenderId d) then ["Sender ID is required"] else [])
  ++ (if JS.isEmpty (dSenderUsername d) then ["Sender username is required"] else [])
  ++ validateContent (dContent d)
  ++ match dMessageType d with Some t => validateMessageType t | None => [] end.

(** The record [Message.create] builds from its argument and a fresh id. *)
Definition messageRecord (d : MessageData) (i : nat) : Message :=
  {| msgId := i; roomId := dRoomId d; senderId := dSenderId d;
     senderUsername := dSenderUsername d;
     content := JS.trim (dContent d);
     messageType := default TMessage (dMessageType d) |}.

(** [Message.create]. *)
Definition Message_create (d : MessageData) : M Message :=
  match validate d with
  | (_ :: _) as errors => throw (VALIDATION_ERROR errors)
  | [] =>
      (i <- uuidv4 ;;
       requireConnected ;;
       modify (setDatabase (setMessages (λ ms, ms ++ [messageRecord d i]))) ;;
       ret (messageRecord d i))%M
  end.

Definition createNotification (r c : string) : M Message :=
  Message_create {| dRoomId := r; dSenderId := "system";
                    dSenderUsername := "System"; dContent := c;
                    dMessageType := Some TNotification |}.

Definition createUserJoinedNotification (r n : string) : M Message :=
  createNotification r (n +:+ " joined the room").

Definition createUserLeftNotification (r n : string) : M Message :=
  createNotification r (n +:+ " left the room").

(** ** [SocketHandler] *)

(** [getRoomParticipantsList]: reads only, so it is a function of the state. *)
Definition getRoomParticipantsList (σ : Server) (r : string) : list Participant :=
  omap (λ u, (λ info, {| pUserId := u; pUsername := infoUsername info;
                         isOnline := true |})
             <$> connectedUsers σ !! u)
       (elements (roomParticipants σ !!! r)).

(** [handleConnection]; the last-active bookkeeping touches timestamps only. *)
Definition handleConnection (socket : Socket) : M unit :=
  (modify (setConnectedUsers (<[userId socket :=
     {| socketId := id socket; infoUsername := username socket;
        currentRoom := None |}]>)) ;;
   socket_emit socket (connected_ev (userId socket) (username socket)))%M.

(** The in-memory updates of [leaveRoom] and [handleJoinRoom], statement by
    statement. *)

(** [if (userInfo.currentRoom === roomId) userInfo.currentRoom = null]. *)
Definition clearRoom (r : string) (info : UserInfo) : UserInfo :=
  if bool_decide (currentRoom info = Some r)
  then {| socketId := socketId info; infoUsername := infoUsername info;
          currentRoom := None |}
  else info.

(** [userInfo.currentRoom = roomId]. *)
Definition setRoom (r : string) (info : UserInfo) : UserInfo :=
  {| socketId := socketId info; infoUsername := infoUsername info;
     currentRoom := Some r |}.

(** [if (has(r)) { get(r).delete(u); if (get(r).size === 0) delete(r) }]. *)
Definition indexRemove (u r : string) (rp : gmap string (gset string))
    : gmap string (gset string) :=
  match rp !! r with
  | Some members =>
      let members' := members ∖ {[u]} in
      if bool_decide (size members' = 0) then delete r rp
      else <[r := members']> rp
  | None => rp
  end.

(** [if (!has(r)) set(r, new Set()); get(r).add(u)]. *)
Definition indexAdd (u r : string) (rp : gmap string (gset string))
    : gmap string (gset string) :=
  <[r := {[u]} ∪ rp !!! r]> rp.

(** [leaveRoom]. *)
Definition leaveRoom (socket : Socket) (roomId : option string) : M unit :=
  match JS.truthy roomId with
  | None => ret tt
  | Some r =>
      (socket_leave socket r ;;
       modify (setConnectedUsers (alter (clearRoom r) (userId socket))) ;;
       modify (setRoomParticipants (indexRemove (userId socket) r)) ;;
       room <- Room_findById r ;;
       match room with
       | Some room =>
           Room_removeParticipant room (userId socket) ;;
           leaveMessage <- createUserLeftNotification r (username socket) ;;
           socket_to_emit socket r
             (user_left (userId socket) (username socket) (toClient leaveMessage)) ;;
           ps <- gets (λ σ, getRoomParticipantsList σ r) ;;
           socket_to_emit socket r (participants_update r ps)
       | None => ret tt
       end ;;
       socket_emit socket (room_left r))%M
  end.

(** [handleLeaveRoom]. *)
Definition handleLeaveRoom (socket : Socket) (roomId : option string) : M unit :=
  try_catch (leaveRoom socket roomId)
    (λ _, socket_emit socket (error_ev "Failed to leave room" None)).

(** The statements of [handleJoinRoom] that follow the leave, from
    [socket.join(roomId)] to the [room-joined] reply, for the room instance
    and the registry entry read before the leave. *)
Definition joinStatements (socket : Socket) (r : string) (room : Room)
    (userInfo : option UserInfo) : M unit :=
  (socket_join socket r ;;
   match userInfo with
   | Some _ => modify (setConnectedUsers (alter (setRoom r) (userId socket)))
   | None => ret tt
   end ;;
   modify (setRoomParticipants (indexAdd (userId socket) r)) ;;
   Room_addParticipant room (userId socket) ;;
   joinMessage <- createUserJoinedNotification r (username socket) ;;
   socket_to_emit socket r
     (user_joined (userId socket) (username socket) (toClient joinMessage)) ;;
   ps <- gets (λ σ, getRoomParticipantsList σ r) ;;
   io_to_emit r (participants_update r ps) ;;
   socket_emit socket (room_joined r (rName room) ps))%M.

(** [handleJoinRoom]. *)
Definition handleJoinRoom (socket : Socket) (roomId : option string) : M unit :=
  try_catch
    (match JS.truthy roomId with
     | None => socket_emit socket (error_ev "Room ID is required" None)
     | Some r =>
         room <- Room_findById r ;;
         match room with
         | None => socket_emit socket (error_ev "Room not found" None)
         | Some room =>
             if negb (rIsActive room)
             then socket_emit socket (error_ev "Room is not active" None)
             else
               userInfo <- gets (λ σ, connectedUsers σ !! userId socket) ;;
               match userInfo with
               | Some info =>
                   match JS.truthy (currentRoom info) with
                   | Some _ => leaveRoom socket (currentRoom info)
                   | None => ret tt
                   end
               | None => ret tt
               end ;;
               joinStatements socket r room userInfo
         end
     end)%M
    (λ _, socket_emit socket (error_ev "Failed to join room" None)).

(** The argument [handleSendMessage] gives to [Message.create]. *)
Definition sendData (socket : Socket) (r c : string) : MessageData :=
  {| dRoomId := r; dSenderId := userId socket;
     dSenderUsername := username socket;
     dContent := JS.trim c; dMessageType := None |}.

(** [handleSendMessage]. *)
Definition handleSendMessage (socket : Socket) (roomId content : option string)
    : M unit :=
  try_catch
    (match JS.truthy roomId, JS.truthy content with
     | Some r, Some c =>
         userInfo <- gets (λ σ, connectedUsers σ !! userId socket) ;;
         if negb (bool_decide (currentRoom <$> userInfo = Some (Some r)))
         then socket_emit socket
                (error_ev "You must be in the room to send messages" None)
         else
           room <- Room_findById r ;;
           if match room with Some room => rIsActive room | None => false end
           then
             message <- Message_create (sendData socket r c) ;;
             io_to_emit r (new_message (toClient message))
           else socket_emit socket (error_ev "Room not found or inactive" None)
     | _, _ =>
         socket_emit socket
           (error_ev "Room ID and message content are required" None)
     end)%M
    (λ e, match e with
          | VALIDATION_ERROR details =>
              socket_emit socket
                (error_ev "Message validation failed" (Some details))
          | Error _ => socket_emit socket (error_ev "Failed to send message" None)
          end).

(** [handleGetRoomParticipants]. *)
Definition handleGetRoomParticipants (socket : Socket) (roomId : option string)
    : M unit :=
  try_catch
    (match JS.truthy roomId with
     | None => socket_emit socket (error_ev "Room ID is required" None)
     | Some r =>
         ps <- gets (λ σ, getRoomParticipantsList σ r) ;;
         socket_emit socket (room_participants r ps)
     end)%M
    (λ _, socket_emit socket (error_ev "Failed to get room participants" None)).

(** [handleDisconnect]: no [try]/[catch] here, an exception of [leaveRoom]
    escapes and the registry entry stays. *)
Definition handleDisconnect (socket : Socket) : M unit :=
  (userInfo <- gets (λ σ, connectedUsers σ !! userId socket) ;;
   match userInfo with
   | Some info =>
       match JS.truthy (currentRoom info) with
       | Some _ => leaveRoom socket (currentRoom info)
       | None => ret tt
       end
   | None => ret tt
   end ;;
   modify (setConnectedUsers (delete (userId socket))))%M.

(** ** Authentication middleware ([setupMiddleware]) *)

Record Handshake := { authToken : option string; queryToken : option string }.

(** What the middleware hands to [next]. *)
Inductive Next :=
| next_ok (socket : Socket)
| next_error (message : string).

Definition User_findById (u : string) : M (option UserRecord) :=
  (requireConnected ;; gets (λ σ, users (database σ) !! u))%M.

Section Auth.

(** The token blacklist of [jwtUtils] and the library's [jwt.verify], which
    yields the [userId] of the payload or throws. *)
Variable blacklistedTokens : gset string.
Variable jwt_verify : string → option string.

(** [jwtUtils.verifyToken]. *)
Definition verifyToken (token : string) : M string :=
  if JS.isEmpty token then throw (Error "Token is required")
  else if bool_decide (token ∈ blacklistedTokens)
       then throw (Error "Token has been invalidated")
       else match jwt_verify token with
            | Some u => ret u
            | None => throw (Error "Invalid token")
            end.

(** The function given to [io.use], for the socket with id [sid]. *)
Definition middleware (sid : string) (hs : Handshake) : M Next :=
  try_catch
    (match JS.truthy (JS.or (authToken hs) (queryToken hs)) with
     | None => ret (next_error "Authentication token required")
     | Some token =>
         u <- verifyToken token ;;
         user <- User_findById u ;;
         match user with
         | None => ret (next_error "User not found")
         | Some rec =>
             ret (next_ok {| id := sid; userId := u; username := uUsername rec |})
         end
     end)%M
    (λ _, ret (next_error "Authentication failed")).

(** An incoming connection: socket.io refuses it with the middleware's error,
    or connects the socket and fires ['connection'].  The result is the
    error sent to the client, if any. *)
Definition connection (sid : string) (hs : Handshake) : M (option string) :=
  (n <- middleware sid hs ;;
   match n with
   | next_error message => ret (Some message)
   | next_ok socket =>
       io_accept socket ;; handleConnection socket ;; ret None
   end)%M.

(** A handshake that passes the middleware in state [σ]: it carries a
    token, the token verifies, and the user it names is in the store. *)
Definition authenticates (σ : Server) (hs : Handshake) (u : string)
    (rec : UserRecord) : Prop :=
  ∃ token,
    JS.truthy (JS.or (authToken hs) (queryToken hs)) = Some token ∧
    (token ∉ blacklistedTokens) ∧ jwt_verify token = Some u ∧
    connected (database σ) = true ∧ users (database σ) !! u = Some rec.

End Auth.

(** ** [SocketHandler]: utilities *)

(** What [getStats] returns. *)
Record Stats := {
  statConnectedUsers : nat;
  statActiveRooms : nat;
  statTotalConnections : nat
}.

(** [getStats]. *)
Definition getStats (σ : Server) : Stats :=
  {| statConnectedUsers := size (connectedUsers σ);
     statActiveRooms := size (roomParticipants σ);
     statTotalConnections := length ((map_to_list (connectedUsers σ)).*2) |}.




(** ** [Message]: the messages of a room *)

(** [for]/[map] over a list of computations, in order. *)
Fixpoint mapM {A B} (f : A → M B) (l : list A) : M (list B) :=
  match l with
  | [] => ret []
  | a :: l' => (b <- f a ;; bs <- mapM f l' ;; ret (b :: bs))%M
  end.

(** [database.findMany('messages', { roomId })]: the records of the
    collection, in insertion order, that match. *)
Definition findMessagesByRoom (r : string) : M (list Message) :=
  (requireConnected ;;
   gets (λ σ, filter (λ m, roomId m = r) (messages (database σ))))%M.

(** [database.deleteById('messages', id)].  The collection is a [Map] keyed
    by id, so it holds at most one record per id. *)
Definition deleteMessageById (i : nat) : M (option Message) :=
  (requireConnected ;;
   record <- gets (λ σ, head (filter (λ m, msgId m = i) (messages (database σ)))) ;;
   match record with
   | Some m =>
       modify (setDatabase (setMessages (filter (λ m, msgId m ≠ i)))) ;;
       ret (Some m)
   | None => ret None
   end)%M.

(** [Message.countByRoom]. *)
Definition Message_countByRoom (r : string) : M nat :=
  (ms <- findMessagesByRoom r ;; ret (length ms))%M.

(** [Message.deleteByRoom]. *)
Definition Message_deleteByRoom (r : string) : M nat :=
  (ms <- findMessagesByRoom r ;;
   results <- mapM (λ m, deleteMessageById (msgId m)) ms ;;
   ret (length (filter (λ result, result ≠ None) results)))%M.

(** ** [Room] and [User]: names, creation, listing, deletion *)

(** [[a-zA-Z0-9]]. *)
Definition isAlphaNum (c : ascii) : bool :=
  let n := nat_of_ascii c in
  (((97 <=? n) && (n <=? 122)) || ((65 <=? n) && (n <=? 90))
   || ((48 <=? n) && (n <=? 57)))%nat.

(** [[a-zA-Z0-9_-]] and [[a-zA-Z0-9\s_-]]. *)
Definition isWordChar (c : ascii) : bool :=
  isAlphaNum c || Ascii.eqb c "_" || Ascii.eqb c "-".
Definition isRoomNameChar (c : ascii) : bool :=
  isAlphaNum c || JS.isWhiteSpace c || Ascii.eqb c "_" || Ascii.eqb c "-".

Fixpoint every (p : ascii → bool) (s : string) : bool :=
  match s with
  | EmptyString => true
  | String c s' => p c && every p s'
  end.

(** [/^[...]+$/.test(s)] for the character class [p]. *)
Definition matches (p : ascii → bool) (s : string) : bool :=
  negb (JS.isEmpty s) && every p s.

(** [User.validateUsername]. *)
Definition User_validateUsername (n : string) : list string :=
  if JS.isEmpty n then ["Username is required"]
  else (if (String.length n <? 3)%nat
        then ["Username must be at least 3 characters long"] else [])
       ++ (if (30 <? String.length n)%nat
           then ["Username must be no more than 30 characters long"] else [])
       ++ (if negb (matches isWordChar n)
           then ["Username can only contain letters, numbers, underscores, and hyphens"]
           else []).

(** [Room.validateName]. *)
Definition Room_validateName (n : string) : list string :=
  if JS.isEmpty n then ["Room name is required"]
  else (if (String.length (JS.trim n) <? 1)%nat
        then ["Room name cannot be empty"] else [])
       ++ (if (50 <? String.length n)%nat
           then ["Room name must be no more than 50 characters long"] else [])
       ++ (if negb (matches isRoomNameChar n)
           then ["Room name can only contain letters, numbers, spaces, underscores, and hyphens"]
           else []).

(** The argument of [Room.create]. *)
Record RoomData := {
  dName : string;
  dCreatedBy : string;
  dParticipants : option (list string);
  dIsActive : option bool
}.

(** [Room.validate]; a list of strings is what [participants] may be. *)
Definition Room_validate (d : RoomData) : list string :=
  Room_validateName (dName d)
  ++ (if JS.isEmpty (dCreatedBy d) then ["Room creator is required"] else []).

(** [Room.findByName]: [findOne] yields the first record of the collection
    whose name is the trimmed argument (the order of the [Map] is
    abstracted to that of [map_to_list]). *)
Definition Room_findByName (n : string) : M (option Room) :=
  (requireConnected ;;
   gets (λ σ, (λ p, newRoom p.1 p.2) <$>
                head (filter (λ p, name p.2 = JS.trim n)
                        (map_to_list (rooms (database σ))))))%M.

(** The record [Room.create] builds. *)
Definition roomRecord (d : RoomData) : RoomRecord :=
  {| name := JS.trim (dName d); createdBy := dCreatedBy d;
     participants := default [] (dParticipants d);
     isActive := default true (dIsActive d) |}.

Section RoomCreation.

(** The text of the identifier that [uuidv4()] generates at count [n]. *)
Variable uuidText : nat → string.

(** [Room.create]. *)
Definition Room_create (d : RoomData) : M Room :=
  match Room_validate d with
  | (_ :: _) as errors => throw (VALIDATION_ERROR errors)
  | [] =>
      (existingRoom <- Room_findByName (JS.trim (dName d)) ;;
       match existingRoom with
       | Some _ => throw (Error "Room name already exists")
       | None =>
           i <- uuidv4 ;;
           requireConnected ;;
           modify (setDatabase (setRooms (<[uuidText i := roomRecord d]>))) ;;
           ret (newRoom (uuidText i) (roomRecord d))
       end)%M
  end.

End RoomCreation.

(** [Room.findActive]: [findMany('rooms', { isActive: true })]. *)
Definition Room_findActive : M (list Room) :=
  (requireConnected ;;
   gets (λ σ, (λ p, newRoom p.1 p.2) <$>
                filter (λ p, isActive p.2 = true)
                  (map_to_list (rooms (database σ)))))%M.

(** [room.delete()]: [database.deleteById('rooms', this.id)]. *)
Definition Room_delete (room : Room) : M (option RoomRecord) :=
  (requireConnected ;;
   record <- gets (λ σ, rooms (database σ) !! rId room) ;;
   match record with
   | Some rec =>
       modify (setDatabase (setRooms (delete (rId room)))) ;; ret (Some rec)
   | None => ret None
   end)%M.

(** [room.updateName(newName)]; the instance it returns carries the new
    name. *)
Definition Room_updateName (room : Room) (newName : string) : M Room :=
  match Room_validateName newName with
  | (_ :: _) as nameErrors => throw (VALIDATION_ERROR nameErrors)
  | [] =>
      (existingRoom <- Room_findByName (JS.trim newName) ;;
       if match existingRoom with
          | Some existing => negb (bool_decide (rId existing = rId room))
          | None => false
          end
       then throw (Error "Room name already exists")
       else
         let renamed := {| rId := rId room; rName := JS.trim newName;
                           rCreatedBy := rCreatedBy room;
                           rParticipants := rParticipants room;
                           rIsActive := rIsActive room |} in
         ps <- Room_participants room ;;
         Room_save renamed ps ;;
         ret renamed)%M
  end.

(** [Room.prototype.toPublic]. *)
Record PublicRoom := {
  pubId : string;
  pubName : string;
  participantCount : nat;
  pubIsActive : bool
}.

Definition toPublic (room : Room) : PublicRoom :=
  {| pubId := rId room; pubName := rName room;
     participantCount := length (rParticipants room);
     pubIsActive := rIsActive room |}.

(** ** [RoomController] (REST) *)

(** What a controller answers:
    [res.status(status).json({ success: true, message, data: { room } })] or
    [res.status(status).json({ success: false, error: { code, message, details } })];
    the status is 200 where the controller sets none. *)
Inductive Response :=
| success (status : nat) (message : string) (data : option Room)
| failure (status : nat) (code message : string) (details : option (list string)).

(** What GET /api/rooms answers. *)
Inductive RoomsResponse :=
| rooms_listed (rooms : list PublicRoom) (total : nat)
| rooms_failed (status : nat) (code message : string).

Module RoomController.

(** [RoomController.getRooms]. *)
Definition getRooms : M RoomsResponse :=
  try_catch
    (rooms <- Room_findActive ;;
     let roomsData := toPublic <$> rooms in
     ret (rooms_listed roomsData (length roomsData)))%M
    (λ _, ret (rooms_failed 500 "ROOMS_FETCH_FAILED" "Failed to fetch rooms")).

Section Create.

Variable uuidText : nat → string.

(** [RoomController.createRoom] for [req.body.name] and [req.user.id]. *)
Definition createRoom (name : option string) (userId : string) : M Response :=
  try_catch
    (match JS.truthy name with
     | None => ret (failure 400 "MISSING_ROOM_NAME" "Room name is required" None)
     | Some n =>
         room <- Room_create uuidText
                   {| dName := JS.trim n; dCreatedBy := userId;
                      dParticipants := None; dIsActive := None |} ;;
         ret (success 201 "Room created successfully" (Some room))
     end)%M
    (λ error,
       match error with
       | VALIDATION_ERROR details =>
           ret (failure 400 "VALIDATION_ERROR" "Room validation failed" (Some details))
       | Error "Room name already exists" =>
           ret (failure 409 "ROOM_NAME_EXISTS" "Room name already exists" None)
       | Error _ =>
           ret (failure 500 "ROOM_CREATION_FAILED" "Failed to create room" None)
       end).

End Create.

(** [RoomController.updateRoom] for [req.params.id], [req.body.name] and
    [req.user.id]. *)
Definition updateRoom (id name : option string) (userId : string) : M Response :=
  try_catch
    (match JS.truthy id with
     | None => ret (failure 400 "MISSING_ROOM_ID" "Room ID is required" None)
     | Some i =>
         match JS.truthy name with
         | None => ret (failure 400 "MISSING_ROOM_NAME" "Room name is required" None)
         | Some n =>
             room <- Room_findById i ;;
             match room with
             | None => ret (failure 404 "ROOM_NOT_FOUND" "Room not found" None)
             | Some room =>
                 if negb (bool_decide (rCreatedBy room = userId))
                 then ret (failure 403 "INSUFFICIENT_PERMISSIONS"
                             "Only the room creator can update room details" None)
                 else
                   room' <- Room_updateName room (JS.trim n) ;;
                   ret (success 200 "Room updated successfully" (Some room'))
             end
         end
     end)%M
    (λ error,
       match error with
       | VALIDATION_ERROR details =>
           ret (failure 400 "VALIDATION_ERROR" "Room validation failed" (Some details))
       | Error "Room name already exists" =>
           ret (failure 409 "ROOM_NAME_EXISTS" "Room name already exists" None)
       | Error _ =>
           ret (failure 500 "ROOM_UPDATE_FAILED" "Failed to update room" None)
       end).

(** [RoomController.deleteRoom] for [req.params.id] and [req.user.id]. *)
Definition deleteRoom (id : option string) (userId : string) : M Response :=
  try_catch
    (match JS.truthy id with
     | None => ret (failure 400 "MISSING_ROOM_ID" "Room ID is required" None)
     | Some i =>
         room <- Room_findById i ;;
         match room with
         | None => ret (failure 404 "ROOM_NOT_FOUND" "Room not found" None)
         | Some room =>
             if negb (bool_decide (rCreatedBy room = userId))
             then ret (failure 403 "INSUFFICIENT_PERMISSIONS"
                         "Only the room creator can delete the room" None)
             else
               Message_deleteByRoom i ;;
               Room_delete room ;;
               ret (success 200 "Room deleted successfully" None)
         end
     end)%M
    (λ _, ret (failure 500 "ROOM_DELETION_FAILED" "Failed to delete room" None)).

End RoomController.

(** ** [jwtUtils]: the Authorization header and the blacklist *)

(** [s.split(sep)] for a separator of one character. *)
Fixpoint split (sep : ascii) (s : string) : list string :=
  match s with
  | EmptyString => [EmptyString]
  | String c s' =>
      if Ascii.eqb c sep then EmptyString :: split sep s'
      else match split sep s' with
           | part :: parts => String c part :: parts
           | [] => [String c EmptyString]
           end
  end.

(** [jwtUtils.extractTokenFromHeader]; [None] is [null]. *)
Definition extractTokenFromHeader (authHeader : option string) : option string :=
  match JS.truthy authHeader with
  | None => None
  | Some h =>
      match split " " h with
      | [scheme; token] => if String.eqb scheme "Bearer" then Some token else None
      | _ => None
      end
  end.

(** [jwtUtils.blacklistToken], as the blacklist it leaves. *)
Definition blacklistToken (token : option string) (blacklistedTokens : gset string)
    : gset string :=
  match JS.truthy token with
  | Some t => {[t]} ∪ blacklistedTokens
  | None => blacklistedTokens
  end.

(** ** Start-up: [DatabaseManager] *)

Definition setConnected (f : bool → bool) (db : Database) : Database :=
  {| connected := f (connected db); users := users db;
     rooms := rooms db; messages := messages db |}.

(** [InMemoryDatabase.connect]. *)
Definition db_connect : M bool :=
  (modify (setDatabase (setConnected (λ _, true))) ;; ret true)%M.

Module DatabaseManager.

(** The rooms [runInitialSetup] creates. *)
Definition generalRoom : RoomRecord :=
  {| name := "General"; createdBy := "system"; participants := [];
     isActive := true |}.
Definition randomRoom : RoomRecord :=
  {| name := "Random"; createdBy := "system"; participants := [];
     isActive := true |}.
Definition defaultRooms : list RoomRecord := [generalRoom; randomRoom].

Section Setup.

Variable uuidText : nat → string.

(** [database.create('rooms', data)] for data without an id. *)
Definition createRoomRecord (data : RoomRecord) : M unit :=
  (requireConnected ;;
   i <- uuidv4 ;;
   modify (setDatabase (setRooms (<[uuidText i := data]>))))%M.

(** [DatabaseManager.runInitialSetup]. *)
Definition runInitialSetup : M unit :=
  (existingRooms <- (requireConnected ;;
                     gets (λ σ, map_to_list (rooms (database σ)))) ;;
   if (length existingRooms =? 0)%nat
   then mapM createRoomRecord defaultRooms ;; ret tt
   else ret tt)%M.

(** The loop of [DatabaseManager.initialize] with [retries] attempts to
    go. *)
Fixpoint initializeLoop (retries : nat) : M bool :=
  match retries with
  | O => ret false
  | S togo =>
      try_catch (db_connect ;; runInitialSetup ;; ret true)%M
        (λ error, match togo with
                  | O => throw error
                  | S _ => initializeLoop togo
                  end)
  end.

(** [DatabaseManager.initialize]: [connectionRetries] is 3. *)
Definition initialize : M bool := initializeLoop 3.

End Setup.

End DatabaseManager.

(** ** Runs *)

(** What can happen to the server: the events of authenticated sockets,
    and a change of the persisted data by another component (the REST
    controllers, start-up and shutdown). *)
Inductive Op :=
| OpConnect (socket : Socket)
| OpJoinRoom (socket : Socket) (roomId : option string)
| OpLeaveRoom (socket : Socket) (roomId : option string)
| OpSendMessage (socket : Socket) (roomId content : option string)
| OpGetRoomParticipants (socket : Socket) (roomId : option string)
| OpDisconnect (socket : Socket)
| OpStore (db : Database).

Definition run (op : Op) : M unit :=
  match op with
  | OpConnect s => (io_accept s ;; handleConnection s)%M
  | OpJoinRoom s r => handleJoinRoom s r
  | OpLeaveRoom s r => handleLeaveRoom s r
  | OpSendMessage s r c => handleSendMessage s r c
  | OpGetRoomParticipants s r => handleGetRoomParticipants s r
  | OpDisconnect s => (io_close s ;; handleDisconnect s)%M
  | OpStore db => modify (setDatabase (λ _, db))
  end.

(** One event, handled to completion before the next one is taken up. *)
Definition step (op : Op) (σ : Server) : Server := exec (run op) σ.

Definition steps (ops : list Op) (σ : Server) : Server :=
  foldl (λ σ op, step op σ) σ ops.

Definition initial (db : Database) : Server :=
  {| connectedUsers := ∅; roomParticipants := ∅; ioSockets := ∅; ioRooms := ∅;
     database := db; uuidCounter := 0; emitted := [] |}.

(** A socket id is connected once; events come from connected sockets. *)
Definition enabled (σ : Server) (op : Op) : Prop :=
  match op with
  | OpConnect s => ioSockets σ !! id s = None
  | OpJoinRoom s _ | OpLeaveRoom s _ | OpSendMessage s _ _
  | OpGetRoomParticipants s _ | OpDisconnect s => ioSockets σ !! id s = Some s
  | OpStore _ => True
  end.

(** The same, with no second connection of a user who has one. *)
Definition enabled1 (σ : Server) (op : Op) : Prop :=
  enabled σ op ∧
  match op with
  | OpConnect s => map_Forall (λ _ t, userId t ≠ userId s) (ioSockets σ)
  | _ => True
  end.

(** A script all of whose operations are enabled when their turn comes. *)
Fixpoint allEnabled (en : Server → Op → Prop) (ops : list Op) (σ : Server) : Prop :=
  match ops with
  | [] => True
  | op :: ops' => en σ op ∧ allEnabled en ops' (step op σ)
  end.

Inductive reachable_by (en : Server → Op → Prop) : Server → Prop :=
| reach_initial db : reachable_by en (initial db)
| reach_step σ op :
    reachable_by en σ → en σ op → reachable_by en (step op σ).

Definition reachable : Server → Prop := reachable_by enabled.
Definition reachable1 : Server → Prop := reachable_by enabled1.

(** ** Handlers that are suspended at their awaits *)

(** How far the call of an [async] function has come: it has settled, or
    it is suspended at an [await] and holds the statements it runs, up to
    its next [await], when it is resumed. *)
Inductive Progress (A : Type) :=
| Settled (c : Completion A)
| Suspended (resume : Server → Progress A * Server).
Arguments Settled {A} c.
Arguments Suspended {A} resume.

(** The call of an [async] function: it runs at once, up to its first
    [await]. *)
Definition Async (A : Type) : Type := Server → Progress A * Server.

(** Statements without an [await]. *)
Definition sync {A} (m : M A) : Async A :=
  λ σ, let (c, σ') := m σ in (Settled c, σ').

(** What the caller of [await p] does when it is resumed: it goes on with
    the result once [p] has settled; while [p] is itself suspended, the
    turn is [p]'s. *)
Fixpoint afterwards {A} (st : Progress A) : Async A :=
  match st with
  | Settled c => λ σ, (Settled c, σ)
  | Suspended resume =>
      λ σ, let (st', σ') := resume σ in (Suspended (afterwards st'), σ')
  end.

(** [await p]: the callee runs up to its first [await], the caller is
    suspended. *)
Definition await {A} (p : Async A) : Async A :=
  λ σ, let (st, σ') := p σ in (Suspended (afterwards st), σ').

Fixpoint andThen {A B} (st : Progress A) (k : A → Async B) : Async B :=
  match st with
  | Settled (Return a) => k a
  | Settled (Throw e) => λ σ, (Settled (Throw e), σ)
  | Suspended resume =>
      λ σ, (Suspended (λ σ1, let (st', σ2) := resume σ1 in andThen st' k σ2), σ)
  end.

Definition abind {A B} (p : Async A) (k : A → Async B) : Async B :=
  λ σ, let (st, σ') := p σ in andThen st k σ'.

Fixpoint orCatch {A} (st : Progress A) (h : Exn → Async A) : Async A :=
  match st with
  | Settled (Return a) => λ σ, (Settled (Return a), σ)
  | Settled (Throw e) => h e
  | Suspended resume =>
      λ σ, (Suspended (λ σ1, let (st', σ2) := resume σ1 in orCatch st' h σ2), σ)
  end.

(** [try { p } catch (e) { h e }] around statements with awaits. *)
Definition acatch {A} (p : Async A) (h : Exn → Async A) : Async A :=
  λ σ, let (st, σ') := p σ in orCatch st h σ'.

Declare Scope Async_scope.
Delimit Scope Async_scope with Async.
Notation "x <- p ;; k" := (abind p (λ x, k))
  (at level 100, p at next level, right associativity) : Async_scope.
Notation "p ;; k" := (abind p (λ _, k))
  (at level 100, right associativity) : Async_scope.



(** The models and the two handlers that change rooms, with every [await]
    of the source.  An [async] function of the store has no [await] of
    its own, so it reads and writes at the call.  These handlers never
    replace an entry of [connectedUsers] nor a stored array of
    participants, so the [userInfo] and the [room.participants] that a
    suspended handler holds are still those of the registry and of the
    store when it is resumed. *)
Module Awaiting.

(** [Room.findById]: [await database.findById(...)]. *)
Definition Room_findById (i : string) : Async (option Room) :=
  await (sync (Room_findById i)).

(** [room.save()]: [await database.updateById(...)]. *)
Definition Room_save (room : Room) (ps : list string) : Async unit :=
  await (sync (Room_save room ps)).

Definition Room_addParticipant (room : Room) (u : string) : Async unit :=
  if JS.isEmpty u then sync (throw (Error "Valid user ID is required"))
  else (ps <- sync (Room_participants room) ;;
        if bool_decide (u ∈ ps) then sync (ret tt)
        else await (Room_save room (ps ++ [u])))%Async.

Definition Room_removeParticipant (room : Room) (u : string) : Async unit :=
  if JS.isEmpty u then sync (throw (Error "Valid user ID is required"))
  else (ps <- sync (Room_participants room) ;;
        if bool_decide (u ∈ ps) then await (Room_save room (removeFirst u ps))
        else sync (ret tt))%Async.

(** [Message.create]: [await database.create(...)] once the data is valid. *)
Definition Message_create (d : MessageData) : Async Message :=
  match validate d with
  | _ :: _ => sync (Message_create d)
  | [] => await (sync (Message_create d))
  end.

(** The two notification helpers hand on the promise of [Message.create]. *)
Definition createUserJoinedNotification (r n : string) : Async Message :=
  Message_create {| dRoomId := r; dSenderId := "system";
                    dSenderUsername := "System";
                    dContent := n +:+ " joined the room";
                    dMessageType := Some TNotification |}.

Definition createUserLeftNotification (r n : string) : Async Message :=
  Message_create {| dRoomId := r; dSenderId := "system";
                    dSenderUsername := "System";
                    dContent := n +:+ " left the room";
                    dMessageType := Some TNotification |}.

(** [leaveRoom]. *)
Definition leaveRoom (socket : Socket) (roomId : option string) : Async unit :=
  match JS.truthy roomId with
  | None => sync (ret tt)
  | Some r =>
      (sync (socket_leave socket r) ;;
       sync (modify (setConnectedUsers (alter (clearRoom r) (userId socket)))) ;;
       sync (modify (setRoomParticipants (indexRemove (userId socket) r))) ;;
       room <- await (Room_findById r) ;;
       match room with
       | Some room =>
           await (Room_removeParticipant room (userId socket)) ;;
           leaveMessage <- await (createUserLeftNotification r (username socket)) ;;
           sync (socket_to_emit socket r
                   (user_left (userId socket) (username socket)
                      (toClient leaveMessage))) ;;
           ps <- await (sync (gets (λ σ, getRoomParticipantsList σ r))) ;;
           sync (socket_to_emit socket r (participants_update r ps))
       | None => sync (ret tt)
       end ;;
       sync (socket_emit socket (room_left r)))%Async
  end.

(** [handleLeaveRoom]. *)
Definition handleLeaveRoom (socket : Socket) (roomId : option string) : Async unit :=
  acatch (await (leaveRoom socket roomId))
    (λ _, sync (socket_emit socket (error_ev "Failed to leave room" None))).

Definition joinStatements (socket : Socket) (r : string) (room : Room)
    (userInfo : option UserInfo) : Async unit :=
  (sync (socket_join socket r) ;;
   sync (match userInfo with
         | Some _ => modify (setConnectedUsers (alter (setRoom r) (userId socket)))
         | None => ret tt
         end) ;;
   sync (modify (setRoomParticipants (indexAdd (userId socket) r))) ;;
   await (Room_addParticipant room (userId socket)) ;;
   joinMessage <- await (createUserJoinedNotification r (username socket)) ;;
   sync (socket_to_emit socket r
           (user_joined (userId socket) (username socket) (toClient joinMessage))) ;;
   ps <- await (sync (gets (λ σ, getRoomParticipantsList σ r))) ;;
   sync (io_to_emit r (participants_update r ps)) ;;
   sync (socket_emit socket (room_joined r (rName room) ps)))%Async.

(** [handleJoinRoom]. *)
Definition handleJoinRoom (socket : Socket) (roomId : option string) : Async unit :=
  acatch
    (match JS.truthy roomId with
     | None => sync (socket_emit socket (error_ev "Room ID is required" None))
     | Some r =>
         room <- await (Room_findById r) ;;
         match room with
         | None => sync (socket_emit socket (error_ev "Room not found" None))
         | Some room =>
             if negb (rIsActive room)
             then sync (socket_emit socket (error_ev "Room is not active" None))
             else
               userInfo <- sync (gets (λ σ, connectedUsers σ !! userId socket)) ;;
               match userInfo with
               | Some info =>
                   match JS.truthy (currentRoom info) with
                   | Some _ => await (leaveRoom socket (currentRoom info))
                   | None => sync (ret tt)
                   end
               | None => sync (ret tt)
               end ;;
               joinStatements socket r room userInfo
         end
     end)%Async
    (λ _, sync (socket_emit socket (error_ev "Failed to join room" None))).

End Awaiting.

(** The suspended handlers, the one that has waited longest first. *)
Definition Waiting : Type := list (Server → Progress unit * Server).

Definition enqueue (st : Progress unit) (q : Waiting) : Waiting :=
  match st with
  | Suspended resume => q ++ [resume]
  | Settled _ => q
  end.

(** Events that arrive together (packets read in one chunk): each handler
    is called and runs up to its first [await] before a suspended one is
    resumed. *)
Fixpoint dispatch (hs : list (Async unit)) (q : Waiting) (σ : Server)
    : Waiting * Server :=
  match hs with
  | [] => (q, σ)
  | h :: hs' => let (st, σ') := h σ in dispatch hs' (enqueue st q) σ'
  end.

(** One turn of the queue: the handler at its head is resumed and runs up
    to its next [await]; if it is suspended again, it waits behind the
    others.  A turn stands for the microtask ticks up to that resumption:
    how many they are is not counted, so the order of the turns is that of
    the event loop for handlers suspended at awaits of the same depth, as
    two handlers of the same event are up to the point where they part. *)
Definition turn (q : Waiting) (σ : Server) : Waiting * Server :=
  match q with
  | [] => ([], σ)
  | resume :: q' => let (st, σ') := resume σ in (enqueue st q', σ')
  end.

Fixpoint turns (n : nat) (q : Waiting) (σ : Server) : Waiting * Server :=
  match n with
  | O => (q, σ)
  | S n' => let (q', σ') := turn q σ in turns n' q' σ'
  end.

(** The state in which events that arrived together leave the server, when
    [n] turns are enough for all their handlers to settle. *)
Definition together (n : nat) (hs : list (Async unit)) (σ : Server)
    : option Server :=
  let (q, σ1) := dispatch hs [] σ in
  let (q', σ') := turns n q σ1 in
  match q' with [] => Some σ' | _ :: _ => None end.

(** ** Notions used in the statements *)

(** A connected socket. *)
Definition live (σ : Server) (s : Socket) : Prop := ioSockets σ !! id s = Some s.

(** The room of a connection.  The handler keeps no room per socket: the
    only record is [currentRoom] in the registry entry of the socket's
    user, and this is what every handler consults. *)
Definition inRoom (σ : Server) (s : Socket) (r : string) : Prop :=
  ∃ info, connectedUsers σ !! userId s = Some info ∧ currentRoom info = Some r.

(** The participant index agrees with the connections. *)
Definition indexMatchesConnections (σ : Server) : Prop :=
  ∀ u r, u ∈ roomParticipants σ !!! r ↔
         ∃ s, live σ s ∧ userId s = u ∧ inRoom σ s r.

(** What [User.validateUsername] and the id generation guarantee of the
    identity the middleware attaches to a socket. *)
Definition wellFormed (s : Socket) : Prop :=
  userId s ≠ "" ∧ (3 ≤ String.length (username s) ≤ 30)%nat.

(** How many events satisfying [P] the log delivers to socket [k]. *)
Definition received (k : string) (P : Event → bool)
    (log : list (string * Event)) : nat :=
  length (filter (λ e, e.1 = k ∧ P e.2) log).

Definition isUserLeft (ev : Event) : bool :=
  match ev with user_left _ _ _ => true | _ => false end.
Definition isParticipantsUpdate (ev : Event) : bool :=
  match ev with participants_update _ _ => true | _ => false end.
Definition isNewMessage (ev : Event) : bool :=
  match ev with new_message _ => true | _ => false end.
Definition isValidationError (ev : Event) : bool :=
  match ev with
  | error_ev "Message validation failed" (Some _) => true
  | _ => false
  end.

Definition isError (ev : Event) : bool :=
  match ev with error_ev _ _ => true | _ => false end.
Definition isRoomLeft (ev : Event) : bool :=
  match ev with room_left _ => true | _ => false end.

(** The ways a send-message request is turned down: a missing roomId or
    content, a sender who is not in the room, a store that cannot be
    reached, a missing or inactive room, a message that does not validate. *)
Inductive sendRejected (σ : Server) (s : Socket) (roomId content : option string)
    : Prop :=
| rejected_missing :
    JS.truthy roomId = None ∨ JS.truthy content = None →
    sendRejected σ s roomId content
| rejected_not_in_room r :
    JS.truthy roomId = Some r → ¬ inRoom σ s r →
    sendRejected σ s roomId content
| rejected_store_down :
    connected (database σ) = false →
    sendRejected σ s roomId content
| rejected_no_room r :
    JS.truthy roomId = Some r → rooms (database σ) !! r = None →
    sendRejected σ s roomId content
| rejected_inactive r rec :
    JS.truthy roomId = Some r → rooms (database σ) !! r = Some rec →
    isActive rec = false →
    sendRejected σ s roomId content
| rejected_invalid r c :
    JS.truthy roomId = Some r → JS.truthy content = Some c →
    validate (sendData s r c) ≠ [] →
    sendRejected σ s roomId content.

(** The live memory: registry, participant index and socket.io state. *)
Definition mem (σ : Server) :=
  (connectedUsers σ, roomParticipants σ, ioSockets σ, ioRooms σ).

(** The in-memory effect of [leaveRoom], of the join statements, of a
    connection and of a closing socket. *)
Definition leaveMem (s : Socket) (r : string) (σ : Server) : Server :=
  setRoomParticipants (indexRemove (userId s) r)
    (setConnectedUsers (alter (clearRoom r) (userId s))
       (setIoRooms (alter (λ members, members ∖ {[id s]}) r) σ)).

Definition joinMem (s : Socket) (r : string) (σ : Server) : Server :=
  setRoomParticipants (indexAdd (userId s) r)
    (setConnectedUsers (alter (setRoom r) (userId s))
       (setIoRooms (λ g, <[r := {[id s]} ∪ g !!! r]> g) σ)).

Definition leaveCurrent (s : Socket) (σ : Server) : Server :=
  match connectedUsers σ !! userId s with
  | Some info =>
      match JS.truthy (currentRoom info) with
      | Some a => leaveMem s a σ
      | None => σ
      end
  | None => σ
  end.

Definition connectMem (s : Socket) (σ : Server) : Server :=
  setConnectedUsers (<[userId s := {| socketId := id s;
                                      infoUsername := username s;
                                      currentRoom := None |}]>)
    (setIoSockets (<[id s := s]>) σ).

Definition closeMem (s : Socket) (σ : Server) : Server :=
  setIoSockets (delete (id s))
    (setIoRooms (fmap (λ members, members ∖ {[id s]})) σ).

(** The notification records and the events of a leave and of a join, as
    functions of the state the operation starts in. *)
Definition leftNotification (s : Socket) (r : string) (i : nat) : Message :=
  {| msgId := i; roomId := r; senderId := "system"; senderUsername := "System";
     content := JS.trim (username s +:+ " left the room");
     messageType := TNotification |}.

Definition joinedNotification (s : Socket) (r : string) (i : nat) : Message :=
  {| msgId := i; roomId := r; senderId := "system"; senderUsername := "System";
     content := JS.trim (username s +:+ " joined the room");
     messageType := TNotification |}.

Definition leaveEvents (s : Socket) (r : string) (σ : Server)
    : list (string * Event) :=
  match rooms (database σ) !! r with
  | Some _ =>
      let others := elements (ioRooms σ !!! r ∖ {[id s]}) in
      ((λ k, (k, user_left (userId s) (username s)
                   (toClient (leftNotification s r (uuidCounter σ))))) <$> others)
      ++ ((λ k, (k, participants_update r
                      (getRoomParticipantsList (leaveMem s r σ) r))) <$> others)
  | None => []
  end ++ [(id s, room_left r)].

Definition joinEvents (s : Socket) (r : string) (rec : RoomRecord) (σ : Server)
    : list (string * Event) :=
  let ps := getRoomParticipantsList (joinMem s r σ) r in
  ((λ k, (k, user_joined (userId s) (username s)
               (toClient (joinedNotification s r (uuidCounter σ)))))
     <$> elements (ioRooms σ !!! r ∖ {[id s]}))
  ++ ((λ k, (k, participants_update r ps))
        <$> elements ({[id s]} ∪ ioRooms σ !!! r))
  ++ [(id s, room_joined r (name rec) ps)].

(** The stored rooms of [σ'] are those of [σ] up to their participant
    lists. *)
Definition sameRooms (σ σ' : Server) : Prop :=
  ∀ i, match rooms (database σ) !! i, rooms (database σ') !! i with
       | Some rec, Some rec' =>
           name rec' = name rec ∧ createdBy rec' = createdBy rec ∧
           isActive rec' = isActive rec
       | None, None => True
       | _, _ => False
       end.

(** A stored room without, and with, the participant [u]. *)
Definition dropParticipant (u : string) (rec : RoomRecord) : RoomRecord :=
  {| name := name rec; createdBy := createdBy rec;
     participants := removeFirst u (participants rec);
     isActive := isActive rec |}.

Definition withParticipant (u : string) (rec : RoomRecord) : RoomRecord :=
  {| name := name rec; createdBy := createdBy rec;
     participants := if bool_decide (u ∈ participants rec)
                     then participants rec else participants rec ++ [u];
     isActive := isActive rec |}.

(** A [Room] instance that agrees with what is stored under its id. *)
Definition instanceOf (room : Room) (σ : Server) : Prop :=
  ∀ rec, rooms (database σ) !! rId room = Some rec →
         rName room = name rec ∧ rCreatedBy room = createdBy rec ∧
         rIsActive room = isActive rec.

(** [σ'] differs from [σ] in the participant lists of stored rooms only. *)
Record roomsOnly (σ σ' : Server) : Prop := {
  ro_mem : mem σ' = mem σ;
  ro_emitted : emitted σ' = emitted σ;
  ro_uuid : uuidCounter σ' = uuidCounter σ;
  ro_connected : connected (database σ') = connected (database σ);
  ro_users : users (database σ') = users (database σ);
  ro_messages : messages (database σ') = messages (database σ);
  ro_rooms : sameRooms σ σ'
}.

(** What a completed [leaveRoom socket r] made of [σ]. *)
Record hasLeft (s : Socket) (r : string) (σ σ' : Server) : Prop := {
  left_mem : mem σ' = mem (leaveMem s r σ);
  left_emitted : emitted σ' = emitted σ ++ leaveEvents s r σ;
  left_connected : connected (database σ') = connected (database σ);
  left_users : users (database σ') = users (database σ);
  left_rooms : sameRooms σ σ';
  left_stored :
    rooms (database σ') = alter (dropParticipant (userId s)) r (rooms (database σ));
  left_messages :
    messages (database σ') =
    messages (database σ) ++
    match rooms (database σ) !! r with
    | Some _ => [leftNotification s r (uuidCounter σ)]
    | None => []
    end;
  left_uuid :
    uuidCounter σ' =
    match rooms (database σ) !! r with
    | Some _ => S (uuidCounter σ)
    | None => uuidCounter σ
    end
}.

(** What a completed join of [r], whose record is [rec], made of the state
    [σ] in which the socket's user is in no room. *)
Record hasJoined (s : Socket) (r : string) (rec : RoomRecord) (σ σ' : Server)
    : Prop := {
  joined_mem : mem σ' = mem (joinMem s r σ);
  joined_emitted : emitted σ' = emitted σ ++ joinEvents s r rec σ;
  joined_connected : connected (database σ') = connected (database σ);
  joined_rooms : sameRooms σ σ';
  joined_messages :
    messages (database σ') =
    messages (database σ) ++ [joinedNotification s r (uuidCounter σ)];
  joined_stored :
    rooms (database σ') =
    alter (withParticipant (userId s)) r (rooms (database σ))
}.

(** The registry, the index and the transport tell the same story. *)
Record consistent (σ : Server) : Prop := {
  cons_key : ∀ k t, ioSockets σ !! k = Some t → id t = k;
  cons_one : ∀ k1 k2 t1 t2,
    ioSockets σ !! k1 = Some t1 → ioSockets σ !! k2 = Some t2 →
    userId t1 = userId t2 → k1 = k2;
  cons_registered : ∀ k t,
    ioSockets σ !! k = Some t → is_Some (connectedUsers σ !! userId t);
  cons_truthy : ∀ u info,
    connectedUsers σ !! u = Some info → currentRoom info ≠ Some "";
  cons_live : ∀ u info r,
    connectedUsers σ !! u = Some info → currentRoom info = Some r →
    ∃ k t, ioSockets σ !! k = Some t ∧ userId t = u;
  cons_index : ∀ u r,
    u ∈ roomParticipants σ !!! r ↔
    ∃ info, connectedUsers σ !! u = Some info ∧ currentRoom info = Some r;
  cons_rooms : ∀ k r,
    k ∈ ioRooms σ !!! r ↔
    ∃ t info, ioSockets σ !! k = Some t ∧
              connectedUsers σ !! userId t = Some info ∧
              currentRoom info = Some r
}.

(** A connection is in a room when one of the three records of the server
    says so: the current room of its registry entry, the participant index
    (by userId) or the transport group (by socket id). *)
Definition memberOf (σ : Server) (s : Socket) (r : string) : Prop :=
  inRoom σ s r ∨ userId s ∈ roomParticipants σ !!! r ∨ id s ∈ ioRooms σ !!! r.

(** No connection is in two rooms. *)
Definition oneRoomPerConnection (σ : Server) : Prop :=
  ∀ s r1 r2, live σ s → memberOf σ s r1 → memberOf σ s r2 → r1 = r2.

(** The index has no empty set and no empty key. *)
Definition indexTidy (σ : Server) : Prop :=
  ∀ r members, roomParticipants σ !! r = Some members → r ≠ "" ∧ members ≠ ∅.

(** ** Notions used in the statements about the rest of the server *)

Definition isUserJoined (ev : Event) : bool :=
  match ev with user_joined _ _ _ => true | _ => false end.
Definition isRoomJoined (ev : Event) : bool :=
  match ev with room_joined _ _ _ => true | _ => false end.

(** Why [handleJoinRoom] turns a request down, with the message it reports:
    no roomId, a store that cannot be reached, no such room, a room that
    was deactivated. *)
Inductive joinRefused (σ : Server) (roomId : option string) : string → Prop :=
| refused_no_id :
    JS.truthy roomId = None → joinRefused σ roomId "Room ID is required"
| refused_store_down r :
    JS.truthy roomId = Some r → connected (database σ) = false →
    joinRefused σ roomId "Failed to join room"
| refused_not_found r :
    JS.truthy roomId = Some r → connected (database σ) = true →
    rooms (database σ) !! r = None →
    joinRefused σ roomId "Room not found"
| refused_inactive r rec :
    JS.truthy roomId = Some r → connected (database σ) = true →
    rooms (database σ) !! r = Some rec → isActive rec = false →
    joinRefused σ roomId "Room is not active".


(** The data of a stored message, as an argument of [Message.validate]. *)
Definition dataOf (m : Message) : MessageData :=
  {| dRoomId := roomId m; dSenderId := senderId m;
     dSenderUsername := senderUsername m; dContent := content m;
     dMessageType := Some (messageType m) |}.

(** No two stored messages have the same id. *)
Definition uniqueIds (σ : Server) : Prop := NoDup (msgId <$> messages (database σ)).

(** No two stored rooms have the same name. *)
Definition namesUnique (σ : Server) : Prop :=
  ∀ i j reci recj,
    rooms (database σ) !! i = Some reci → rooms (database σ) !! j = Some recj →
    name reci = name recj → i = j.

(** A string without the character [sep]. *)
Definition without (sep : ascii) (s : string) : Prop :=
  every (λ c, negb (Ascii.eqb c sep)) s = true.

(** Runs in which the socket handlers alone write to the store: no other
    component touches it, and the sockets carry a well-formed identity. *)
Definition enabledHandlers (σ : Server) (op : Op) : Prop :=
  enabled σ op ∧
  match op with
  | OpStore _ => False
  | OpConnect s => wellFormed s
  | _ => True
  end.

Inductive runsFrom (en : Server → Op → Prop) (σ0 : Server) : Server → Prop :=
| runs_start : runsFrom en σ0 σ0
| runs_step σ op :
    runsFrom en σ0 σ → en σ op → runsFrom en σ0 (step op σ).

(** The participant list stored with every room holds, once each, the
    users of the room's set in the participant index. *)
Definition storedMatchesIndex (σ : Server) : Prop :=
  ∀ r rec, rooms (database σ) !! r = Some rec →
    NoDup (participants rec) ∧
    ∀ u, u ∈ participants rec ↔ u ∈ roomParticipants σ !!! r.

(** A connected store whose rooms list no participant, as
    [runInitialSetup] and [RoomController.createRoom] make them. *)
Definition freshStore (db : Database) : Prop :=
  connected db = true ∧
  ∀ r rec, rooms db !! r = Some rec → participants rec = [].

(** What holds of every state of such a run. *)
Record served (σ : Server) : Prop := {
  served_connected : connected (database σ) = true;
  served_wellFormed : ∀ k t, ioSockets σ !! k = Some t → wellFormed t;
  served_stored : storedMatchesIndex σ
}.

(** A stored room under another name. *)
Definition renamed (n : string) (rec : RoomRecord) : RoomRecord :=
  {| name := n; createdBy := createdBy rec; participants := participants rec;
     isActive := isActive rec |}.

(** The rooms of the store and whether it is connected. *)
Definition stored (σ : Server) := (connected (database σ), rooms (database σ)).

(** ** Reasoning about computations *)

(** [m] leaves the component [f] of the state as it found it. *)
Definition keeps {X A} (f : Server → X) (m : M A) : Prop :=
  ∀ σ, f (m σ).2 = f σ.

(** [m], started in [σ], completes in a way and a state that satisfy [Q]. *)
Definition wp {A} (m : M A) (σ : Server) (Q : Completion A → Server → Prop) : Prop :=
  Q (m σ).1 (m σ).2.

(** ** Scenarios *)

Module Scenario.

Definition general : RoomRecord :=
  {| name := "General"; createdBy := "system"; participants := [];
     isActive := true |}.

Definition closed : RoomRecord :=
  {| name := "General"; createdBy := "system"; participants := [];
     isActive := false |}.

Definition store : Database :=
  {| connected := true;
     users := {[ "u1" := {| uUsername := "alice" |};
                 "u2" := {| uUsername := "bob" |} ]};
     rooms := {[ "r1" := general; "r2" := general ]};
     messages := [] |}.

(** The store after room r1 was deactivated, and after it was deleted. *)
Definition storeInactive : Database :=
  {| connected := true; users := users store;
     rooms := {[ "r1" := closed; "r2" := general ]}; messages := [] |}.

Definition storeDeleted : Database :=
  {| connected := true; users := users store;
     rooms := {[ "r2" := general ]}; messages := [] |}.

(** Two sockets of alice and one of bob. *)
Definition alice1 : Socket := {| id := "s1"; userId := "u1"; username := "alice" |}.
Definition alice2 : Socket := {| id := "s2"; userId := "u1"; username := "alice" |}.
Definition bob1 : Socket := {| id := "s3"; userId := "u2"; username := "bob" |}.

(** alice and bob, one connection each, both in r1. *)
Definition bothInRoom : Server :=
  steps [OpConnect alice1; OpJoinRoom alice1 (Some "r1");
         OpConnect bob1; OpJoinRoom bob1 (Some "r1")] (initial store).

(** alice alone in r1. *)
Definition aliceInRoom : Server :=
  steps [OpConnect alice1; OpJoinRoom alice1 (Some "r1")] (initial store).

(** alice connects twice; the first socket joins r1; both disconnect, the
    second socket first. *)
Definition staleScript : list Op :=
  [OpConnect alice1; OpJoinRoom alice1 (Some "r1"); OpConnect alice2;
   OpDisconnect alice2; OpDisconnect alice1].

Definition staleIndex : Server := steps staleScript (initial store).

(** alice alone in r1, after r1 was deactivated. *)
Definition aliceInInactiveRoom : Server :=
  step (OpStore storeInactive) aliceInRoom.

(** alice on two sockets; the first one joined r1. *)
Definition twoTabs : Server :=
  steps [OpConnect alice1; OpConnect alice2; OpJoinRoom alice1 (Some "r1")]
    (initial store).

(** alice's first socket joined r1 before her second socket connected. *)
Definition secondTab : Server :=
  steps [OpConnect alice1; OpJoinRoom alice1 (Some "r1"); OpConnect alice2]
    (initial store).

(** alice and bob in r1, after r1 was deleted. *)
Definition bothInDeletedRoom : Server :=
  step (OpStore storeDeleted) bothInRoom.

End Scenario.

(** The store while it cannot be reached. *)
Module Outage.

Definition store : Database :=
  {| connected := false; users := users Scenario.store;
     rooms := rooms Scenario.store; messages := [] |}.

(** alice and bob in r1 when the store goes away. *)
Definition bothInRoom : Server := step (OpStore store) Scenario.bothInRoom.

End Outage.

(** * Proofs *)

(** ** Frame rules *)

Section Keeps.
Context {X : Type} (f : Server → X).

Lemma keeps_ret {A} (a : A) : keeps f (ret a).
Proof. done. Qed.

Lemma keeps_throw {A} e : keeps f (@throw A e).
Proof. done. Qed.

Lemma keeps_gets {A} (g : Server → A) : keeps f (gets g).
Proof. done. Qed.

Lemma keeps_modify g : (∀ σ, f (g σ) = f σ) → keeps f (modify g).
Proof. intros H σ. apply H. Qed.

Lemma keeps_bind {A B} (m : M A) (k : A → M B) :
  keeps f m → (∀ a, keeps f (k a)) → keeps f (bind m k).
Proof.
  intros Hm Hk σ. unfold bind. specialize (Hm σ).
  destruct (m σ) as [[a|e] σ1]; simpl in *; [|done].
  by rewrite Hk.
Qed.

Lemma keeps_try_catch {A} (m : M A) h :
  keeps f m → (∀ e, keeps f (h e)) → keeps f (try_catch m h).
Proof.
  intros Hm Hh σ. unfold try_catch. specialize (Hm σ).
  destruct (m σ) as [[a|e] σ1]; simpl in *; [done|].
  by rewrite Hh.
Qed.

Lemma keeps_exec {A} (m : M A) σ : keeps f m → f (exec m σ) = f σ.
Proof. intros H. apply H. Qed.

End Keeps.

Create HintDb keeps.

Ltac keeps_tac :=
  repeat match goal with
  | |- keeps _ (ret _) => apply keeps_ret
  | |- keeps _ (throw _) => apply keeps_throw
  | |- keeps _ (gets _) => apply keeps_gets
  | |- keeps _ (bind _ _) => apply keeps_bind; [|intros ?]
  | |- keeps _ (try_catch _ _) => apply keeps_try_catch; [|intros ?]
  | |- keeps _ (modify _) => apply keeps_modify; intros ?; reflexivity
  | |- keeps _ (match ?x with _ => _ end) => destruct x eqn:?
  | |- keeps _ _ => solve [auto with keeps]
  end.

(** The persistence layer and the emitting primitives leave the live memory
    alone. *)
Lemma keeps_mem_requireConnected : keeps mem requireConnected.
Proof. intros σ. unfold requireConnected. by case_match. Qed.

Lemma keeps_mem_uuidv4 : keeps mem uuidv4.
Proof. done. Qed.

Lemma keeps_mem_socket_emit s ev : keeps mem (socket_emit s ev).
Proof. done. Qed.

Lemma keeps_mem_socket_to_emit s r ev : keeps mem (socket_to_emit s r ev).
Proof. done. Qed.

Lemma keeps_mem_io_to_emit r ev : keeps mem (io_to_emit r ev).
Proof. done. Qed.

#[export] Hint Resolve keeps_mem_requireConnected keeps_mem_uuidv4
  keeps_mem_socket_emit keeps_mem_socket_to_emit keeps_mem_io_to_emit : keeps.

Lemma keeps_mem_Room_findById i : keeps mem (Room_findById i).
Proof. unfold Room_findById. keeps_tac. Qed.

Lemma keeps_mem_Room_save room ps : keeps mem (Room_save room ps).
Proof. unfold Room_save. keeps_tac. Qed.

#[export] Hint Resolve keeps_mem_Room_findById keeps_mem_Room_save : keeps.

Lemma keeps_mem_Room_addParticipant room u :
  keeps mem (Room_addParticipant room u).
Proof. unfold Room_addParticipant, Room_participants. keeps_tac. Qed.

Lemma keeps_mem_Room_removeParticipant room u :
  keeps mem (Room_removeParticipant room u).
Proof. unfold Room_removeParticipant, Room_participants. keeps_tac. Qed.

Lemma keeps_mem_Message_create d : keeps mem (Message_create d).
Proof. unfold Message_create. keeps_tac. Qed.

#[export] Hint Resolve keeps_mem_Room_addParticipant
  keeps_mem_Room_removeParticipant keeps_mem_Message_create : keeps.

Lemma keeps_mem_createUserLeftNotification r n :
  keeps mem (createUserLeftNotification r n).
Proof. unfold createUserLeftNotification, createNotification. keeps_tac. Qed.

Lemma keeps_mem_createUserJoinedNotification r n :
  keeps mem (createUserJoinedNotification r n).
Proof. unfold createUserJoinedNotification, createNotification. keeps_tac. Qed.

#[export] Hint Resolve keeps_mem_createUserLeftNotification
  keeps_mem_createUserJoinedNotification : keeps.

Lemma keeps_mem_handleSendMessage s r c : keeps mem (handleSendMessage s r c).
Proof. unfold handleSendMessage. keeps_tac. Qed.

Lemma keeps_mem_handleGetRoomParticipants s r :
  keeps mem (handleGetRoomParticipants s r).
Proof. unfold handleGetRoomParticipants. keeps_tac. Qed.

(** ** The in-memory effect of every operation *)

Lemma truthy_Some v r : JS.truthy v = Some r → v = Some r ∧ r ≠ "".
Proof. destruct v as [[|c s]|]; simpl; intros; simplify_eq; done. Qed.

Lemma truthy_Some_ne r : r ≠ "" → JS.truthy (Some r) = Some r.
Proof. by destruct r. Qed.

Lemma exec_bind_modify {A} g (k : M A) σ :
  exec (bind (modify g) (λ _, k)) σ = exec k (g σ).
Proof. done. Qed.

Lemma leaveRoom_mem s r σ :
  r ≠ "" → mem (exec (leaveRoom s (Some r)) σ) = mem (leaveMem s r σ).
Proof.
  intros Hr. unfold leaveRoom. rewrite truthy_Some_ne by done.
  unfold socket_leave. rewrite !exec_bind_modify.
  rewrite keeps_exec; [reflexivity|]. keeps_tac.
Qed.

Lemma leaveRoom_falsy_mem s v σ :
  JS.truthy v = None → mem (exec (leaveRoom s v) σ) = mem σ.
Proof. intros Hv. unfold leaveRoom. by rewrite Hv. Qed.

Lemma handleLeaveRoom_mem s v σ :
  mem (exec (handleLeaveRoom s v) σ) =
  match JS.truthy v with Some r => mem (leaveMem s r σ) | None => mem σ end.
Proof.
  unfold handleLeaveRoom, exec, try_catch.
  destruct (JS.truthy v) as [r|] eqn:Hv.
  - apply truthy_Some in Hv as [-> Hr].
    pose proof (leaveRoom_mem s r σ Hr) as H. unfold exec in H.
    destruct (leaveRoom s (Some r) σ) as [[[]|e] σ1]; simpl in *; done.
  - pose proof (leaveRoom_falsy_mem s v σ Hv) as H. unfold exec in H.
    destruct (leaveRoom s v σ) as [[[]|e] σ1]; simpl in *; done.
Qed.

Lemma exec_try_catch {X A} (f : Server → X) (m : M A) h σ :
  (∀ e, keeps f (h e)) → f (exec (try_catch m h) σ) = f (exec m σ).
Proof.
  intros Hh. unfold exec, try_catch.
  destruct (m σ) as [[a|e] σ1]; simpl; [done|]. apply Hh.
Qed.

Lemma exec_bind_cases {A B} (m : M A) (k : A → M B) σ :
  (∃ e σ1, m σ = (Throw e, σ1) ∧ exec (bind m k) σ = σ1) ∨
  (∃ a σ1, m σ = (Return a, σ1) ∧ exec (bind m k) σ = exec (k a) σ1).
Proof.
  unfold exec, bind. destruct (m σ) as [[a|e] σ1]; simpl; eauto.
Qed.

Lemma Room_findById_cases i σ :
  (∃ e, Room_findById i σ = (Throw e, σ)) ∨
  Room_findById i σ = (Return (newRoom i <$> rooms (database σ) !! i), σ).
Proof.
  unfold Room_findById, bind, requireConnected, gets.
  destruct (connected (database σ)); eauto.
Qed.

Lemma joinMem_mem s r σ1 σ2 :
  mem σ1 = mem σ2 → mem (joinMem s r σ1) = mem (joinMem s r σ2).
Proof. unfold mem, joinMem. simpl. intros [= -> -> -> ->]. done. Qed.

Lemma leaveCurrent_mem s σ (info : UserInfo) :
  connectedUsers σ !! userId s = Some info →
  mem (exec (match JS.truthy (currentRoom info) with
             | Some _ => leaveRoom s (currentRoom info)
             | None => ret tt
             end) σ) = mem (leaveCurrent s σ).
Proof.
  intros Hinfo. unfold leaveCurrent. rewrite Hinfo.
  destruct (JS.truthy (currentRoom info)) as [a|] eqn:Ha; [|done].
  apply truthy_Some in Ha as [Ha Hne]. rewrite Ha. by apply leaveRoom_mem.
Qed.

Lemma exec_bind_gets {A B} (g : Server → A) (k : A → M B) σ :
  exec (bind (gets g) k) σ = exec (k (g σ)) σ.
Proof. done. Qed.

Lemma exec_bind_ret {A B} (a : A) (k : A → M B) σ :
  exec (bind (ret a) k) σ = exec (k a) σ.
Proof. done. Qed.

Lemma handleJoinRoom_mem s v σ :
  mem (exec (handleJoinRoom s v) σ) = mem σ ∨
  ∃ r, JS.truthy v = Some r ∧
       (mem (exec (handleJoinRoom s v) σ) = mem (leaveCurrent s σ) ∨
        mem (exec (handleJoinRoom s v) σ) = mem (joinMem s r (leaveCurrent s σ))).
Proof.
  unfold handleJoinRoom.
  rewrite (exec_try_catch mem) by (intros; apply keeps_mem_socket_emit).
  destruct (JS.truthy v) as [r|] eqn:Hv; [|by left].
  match goal with |- context [exec (bind (Room_findById r) ?k) σ] =>
    destruct (exec_bind_cases (Room_findById r) k σ)
      as [(e & σ1 & Hrun & ->)|(room & σ1 & Hrun & ->)] end.
  - left. destruct (Room_findById_cases r σ) as [[e' H]|H]; congruence.
  - assert (σ1 = σ) as ->.
    { destruct (Room_findById_cases r σ) as [[e' H]|H]; congruence. }
    destruct room as [room|]; [|by left].
    destruct (rIsActive room); simpl; [|by left].
    right. exists r. split; [done|].
    rewrite exec_bind_gets.
    destruct (connectedUsers σ !! userId s) as [info|] eqn:Hinfo.
    + match goal with |- context [exec (bind ?m ?k) σ] =>
        destruct (exec_bind_cases m k σ)
          as [(e & σ1 & Hrun' & ->)|([] & σ1 & Hrun' & ->)] end.
      * left. rewrite <- (leaveCurrent_mem s σ info Hinfo).
        unfold exec. by rewrite Hrun'.
      * right. unfold joinStatements, socket_join. rewrite !exec_bind_modify.
        rewrite keeps_exec by keeps_tac.
        apply (joinMem_mem s r σ1).
        rewrite <- (leaveCurrent_mem s σ info Hinfo).
        unfold exec. by rewrite Hrun'.
    + right. rewrite exec_bind_ret.
      unfold joinStatements, socket_join.
      rewrite !exec_bind_modify, exec_bind_ret.
      rewrite !exec_bind_modify.
      rewrite keeps_exec by keeps_tac.
      unfold leaveCurrent. rewrite Hinfo.
      unfold mem, joinMem. simpl. f_equal. f_equal. f_equal.
      symmetry. apply alter_id. intros x Hx. congruence.
Qed.

Lemma step_connect_mem s σ : mem (step (OpConnect s) σ) = mem (connectMem s σ).
Proof. done. Qed.

Lemma step_disconnect_mem s σ :
  mem (step (OpDisconnect s) σ) = mem (leaveCurrent s (closeMem s σ)) ∨
  mem (step (OpDisconnect s) σ) =
    mem (setConnectedUsers (delete (userId s)) (leaveCurrent s (closeMem s σ))).
Proof.
  unfold step, run, io_close. rewrite exec_bind_modify.
  fold (closeMem s σ). set (σ0 := closeMem s σ).
  unfold handleDisconnect. rewrite exec_bind_gets.
  destruct (connectedUsers σ0 !! userId s) as [info|] eqn:Hinfo.
  - match goal with |- context [exec (bind ?m ?k) σ0] =>
      destruct (exec_bind_cases m k σ0)
        as [(e & σ1 & Hrun & ->)|([] & σ1 & Hrun & ->)] end.
    + left. rewrite <- (leaveCurrent_mem s σ0 info Hinfo).
      unfold exec. by rewrite Hrun.
    + right. pose proof (leaveCurrent_mem s σ0 info Hinfo) as H.
      unfold exec in H. rewrite Hrun in H. simpl in H.
      unfold exec, modify. simpl. unfold mem in *. simpl.
      by injection H as -> -> -> ->.
  - right. rewrite exec_bind_ret. unfold leaveCurrent. by rewrite Hinfo.
Qed.

(** ** Membership after the in-memory updates *)

Lemma elem_of_indexRemove u r (rp : gmap string (gset string)) u' r' :
  u' ∈ indexRemove u r rp !!! r' ↔ u' ∈ rp !!! r' ∧ ¬ (u' = u ∧ r' = r).
Proof.
  unfold indexRemove. rewrite !lookup_total_alt.
  destruct (rp !! r) as [members|] eqn:Hr.
  - case_bool_decide as Hsize.
    + apply size_empty_inv in Hsize. apply leibniz_equiv in Hsize.
      destruct (decide (r' = r)) as [->|Hne].
      * rewrite lookup_delete_eq, Hr. simpl. set_solver.
      * rewrite lookup_delete_ne by done. naive_solver.
    + destruct (decide (r' = r)) as [->|Hne].
      * rewrite lookup_insert_eq, Hr. simpl. set_solver.
      * rewrite lookup_insert_ne by done. naive_solver.
  - destruct (decide (r' = r)) as [->|Hne]; [|naive_solver].
    rewrite Hr. simpl. set_solver.
Qed.

Lemma elem_of_indexAdd u r (rp : gmap string (gset string)) u' r' :
  u' ∈ indexAdd u r rp !!! r' ↔ u' ∈ rp !!! r' ∨ (u' = u ∧ r' = r).
Proof.
  unfold indexAdd. rewrite !lookup_total_alt.
  destruct (decide (r' = r)) as [->|Hne].
  - rewrite lookup_insert_eq. simpl. set_solver.
  - rewrite lookup_insert_ne by done. naive_solver.
Qed.

Lemma elem_of_alter_difference k r (g : gmap string (gset string)) k' r' :
  k' ∈ alter (λ members, members ∖ {[k]}) r g !!! r' ↔
  k' ∈ g !!! r' ∧ ¬ (k' = k ∧ r' = r).
Proof.
  rewrite !lookup_total_alt.
  destruct (decide (r' = r)) as [->|Hne].
  - rewrite lookup_alter_eq. destruct (g !! r); simpl; set_solver.
  - rewrite lookup_alter_ne by done. naive_solver.
Qed.

Lemma elem_of_fmap_difference k (g : gmap string (gset string)) k' r' :
  k' ∈ ((λ members, members ∖ {[k]}) <$> g) !!! r' ↔ k' ∈ g !!! r' ∧ k' ≠ k.
Proof.
  rewrite !lookup_total_alt, lookup_fmap.
  destruct (g !! r'); simpl; set_solver.
Qed.

(** The room recorded for a user after the registry updates. *)
Lemma room_after_clearRoom u r (cu : gmap string UserInfo) u' r' :
  (∃ info, alter (clearRoom r) u cu !! u' = Some info ∧ currentRoom info = Some r') ↔
  (∃ info, cu !! u' = Some info ∧ currentRoom info = Some r') ∧ ¬ (u' = u ∧ r' = r).
Proof.
  destruct (decide (u' = u)) as [->|Hne].
  - rewrite lookup_alter_eq. unfold clearRoom. split.
    + intros (info & Hi & Hr).
      destruct (cu !! u) as [i|]; simpl in *; [|done]. simplify_eq.
      case_bool_decide; simpl in *; [done|]. naive_solver.
    + intros [(info & Hi & Hr) Hn]. rewrite Hi. simpl.
      case_bool_decide; [naive_solver|]. eauto.
  - rewrite lookup_alter_ne by done. naive_solver.
Qed.

Lemma room_after_setRoom u r (cu : gmap string UserInfo) u' r' :
  (∃ info, alter (setRoom r) u cu !! u' = Some info ∧ currentRoom info = Some r') ↔
  if decide (u' = u) then is_Some (cu !! u) ∧ r' = r
  else ∃ info, cu !! u' = Some info ∧ currentRoom info = Some r'.
Proof.
  case_decide as Hu.
  - subst. rewrite lookup_alter_eq. split.
    + intros (info & Hi & Hr).
      destruct (cu !! u) as [i|]; simpl in *; [|done]. simplify_eq.
      simpl in *. naive_solver.
    + intros [[i Hi] ->]. rewrite Hi. simpl. eauto.
  - by rewrite lookup_alter_ne.
Qed.

(** ** The consistency invariant, one connection per user *)

Lemma consistent_mem σ σ' : mem σ = mem σ' → consistent σ → consistent σ'.
Proof.
  unfold mem. intros [= H1 H2 H3 H4] [Hkey Hone Hreg Htruthy Hlive Hidx Hrooms].
  split; rewrite <- ?H1, <- ?H2, <- ?H3, <- ?H4; done.
Qed.

Lemma consistent_initial db : consistent (initial db).
Proof.
  split; simpl; try (intros; simplify_map_eq; done).
  - intros u r. rewrite lookup_total_empty. split; [set_solver|].
    intros (info & H & _). simplify_map_eq.
  - intros k r. rewrite lookup_total_empty. split; [set_solver|].
    intros (t & info & H & _). simplify_map_eq.
Qed.

Lemma consistent_leave s r σ :
  consistent σ → live σ s → consistent (leaveMem s r σ).
Proof.
  intros [Hkey Hone Hreg Htruthy Hlive Hidx Hrooms] Hs. unfold live in Hs.
  split; simpl.
  - done.
  - done.
  - intros k t Ht. destruct (Hreg k t Ht) as [info Hinfo].
    destruct (decide (userId t = userId s)) as [Heq|Hne].
    + rewrite Heq in *. rewrite lookup_alter_eq, Hinfo. eauto.
    + rewrite lookup_alter_ne by done. eauto.
  - intros u info. destruct (decide (u = userId s)) as [->|Hne].
    + rewrite lookup_alter_eq.
      destruct (connectedUsers σ !! userId s) as [i|] eqn:Hi; simpl; [|done].
      intros [= <-]. unfold clearRoom. case_bool_decide; simpl; eauto.
    + rewrite lookup_alter_ne by done. eauto.
  - intros u info r' Hi Hr.
    assert (∃ info, alter (clearRoom r) (userId s) (connectedUsers σ) !! u = Some info
                    ∧ currentRoom info = Some r') as H by eauto.
    apply room_after_clearRoom in H as [(i & Hi' & Hr') _]. eauto.
  - intros u r'. rewrite elem_of_indexRemove, room_after_clearRoom, Hidx. done.
  - intros k r'. rewrite elem_of_alter_difference, Hrooms. split.
    + intros [(t & info & Ht & Hi & Hr) Hn]. exists t.
      assert (∃ info, alter (clearRoom r) (userId s) (connectedUsers σ) !! userId t = Some info
                      ∧ currentRoom info = Some r') as (i & ? & ?); [|eauto].
      apply room_after_clearRoom. split; [eauto|].
      intros [Hu ->]. apply Hn. split; [|done].
      symmetry. by eapply Hone.
    + intros (t & info & Ht & Hi & Hr).
      assert (∃ info, alter (clearRoom r) (userId s) (connectedUsers σ) !! userId t = Some info
                      ∧ currentRoom info = Some r') as H by eauto.
      apply room_after_clearRoom in H as [(i & Hi' & Hr') Hn].
      split; [eauto|]. intros [-> ->]. apply Hn. split; [|done].
      rewrite Hs in Ht. by simplify_eq.
Qed.

Lemma consistent_join s r σ :
  consistent σ → live σ s → r ≠ "" →
  (∀ info, connectedUsers σ !! userId s = Some info → currentRoom info = None) →
  consistent (joinMem s r σ).
Proof.
  intros [Hkey Hone Hreg Htruthy Hlive Hidx Hrooms] Hs Hr Hnone.
  unfold live in Hs. split; simpl.
  - done.
  - done.
  - intros k t Ht. destruct (Hreg k t Ht) as [info Hinfo].
    destruct (decide (userId t = userId s)) as [Heq|Hne].
    + rewrite Heq in *. rewrite lookup_alter_eq, Hinfo. eauto.
    + rewrite lookup_alter_ne by done. eauto.
  - intros u info. destruct (decide (u = userId s)) as [->|Hne].
    + rewrite lookup_alter_eq.
      destruct (connectedUsers σ !! userId s) as [i|] eqn:Hi; simpl; [|done].
      intros [= <-]. simpl. congruence.
    + rewrite lookup_alter_ne by done. eauto.
  - intros u info r' Hi Hr'. destruct (decide (u = userId s)) as [->|Hne].
    + eauto.
    + rewrite lookup_alter_ne in Hi by done. eauto.
  - intros u r'. rewrite elem_of_indexAdd, room_after_setRoom, Hidx.
    case_decide as Hu; [|naive_solver]. subst u. split.
    + intros [(info & Hi & Hr')|[_ ->]].
      * apply Hnone in Hi. congruence.
      * split; [|done]. by eapply Hreg.
    + intros [_ ->]. by right.
  - intros k r'.
    change (k ∈ indexAdd (id s) r (ioRooms σ) !!! r' ↔
            ∃ t info, ioSockets σ !! k = Some t ∧
              alter (setRoom r) (userId s) (connectedUsers σ) !! userId t = Some info ∧
              currentRoom info = Some r').
    rewrite elem_of_indexAdd, Hrooms. split.
    + intros [(t & info & Ht & Hi & Hr')|[-> ->]].
      * exists t.
        assert (∃ info, alter (setRoom r) (userId s) (connectedUsers σ) !! userId t = Some info
                        ∧ currentRoom info = Some r') as (i & ? & ?); [|eauto].
        apply room_after_setRoom. case_decide as Hu; [|eauto].
        rewrite Hu in Hi. apply Hnone in Hi. congruence.
      * exists s.
        assert (∃ info, alter (setRoom r) (userId s) (connectedUsers σ) !! userId s = Some info
                        ∧ currentRoom info = Some r) as (i & ? & ?); [|eauto].
        apply room_after_setRoom. rewrite decide_True by done.
        split; [|done]. by eapply Hreg.
    + intros (t & info & Ht & Hi & Hr').
      assert (∃ info, alter (setRoom r) (userId s) (connectedUsers σ) !! userId t = Some info
                      ∧ currentRoom info = Some r') as H by eauto.
      apply room_after_setRoom in H. case_decide as Hu.
      * destruct H as [_ ->]. right. split; [|done].
        symmetry. by eapply Hone.
      * left. destruct H as (i & ? & ?). eauto.
Qed.

Lemma room_after_leaveCurrent s σ info :
  consistent σ →
  connectedUsers (leaveCurrent s σ) !! userId s = Some info →
  currentRoom info = None.
Proof.
  intros Hc. unfold leaveCurrent.
  destruct (connectedUsers σ !! userId s) as [i|] eqn:Hi; [|congruence].
  destruct (JS.truthy (currentRoom i)) as [a|] eqn:Ha.
  - apply truthy_Some in Ha as [Ha _]. simpl.
    rewrite lookup_alter_eq, Hi. simpl. intros [= <-].
    unfold clearRoom. by rewrite bool_decide_true.
  - rewrite Hi. intros [= <-].
    destruct (currentRoom i) as [[|c a]|] eqn:Hr; [|done|done].
    by destruct (cons_truthy σ Hc _ _ Hi).
Qed.

Lemma consistent_leaveCurrent s σ :
  consistent σ → live σ s → consistent (leaveCurrent s σ).
Proof.
  intros Hc Hs. unfold leaveCurrent.
  destruct (connectedUsers σ !! userId s) as [i|]; [|done].
  destruct (JS.truthy (currentRoom i)); [|done].
  by apply consistent_leave.
Qed.

Lemma live_leaveCurrent s σ : live σ s → live (leaveCurrent s σ) s.
Proof.
  unfold leaveCurrent.
  destruct (connectedUsers σ !! userId s) as [i|]; [|done].
  by destruct (JS.truthy (currentRoom i)).
Qed.

Lemma consistent_connect s σ :
  consistent σ → ioSockets σ !! id s = None →
  (∀ k t, ioSockets σ !! k = Some t → userId t ≠ userId s) →
  consistent (connectMem s σ).
Proof.
  intros [Hkey Hone Hreg Htruthy Hlive Hidx Hrooms] Hfresh Hnew.
  assert (∀ r info, connectedUsers σ !! userId s = Some info →
                    currentRoom info = Some r → False) as Hno.
  { intros r info Hi Hr. destruct (Hlive _ _ _ Hi Hr) as (k & t & Ht & Hu).
    by eapply Hnew. }
  split; simpl.
  - intros k t. destruct (decide (k = id s)) as [->|Hne].
    + rewrite lookup_insert_eq. by intros [= <-].
    + rewrite lookup_insert_ne by done. eauto.
  - intros k1 k2 t1 t2.
    destruct (decide (k1 = id s)) as [->|H1], (decide (k2 = id s)) as [->|H2];
      rewrite ?lookup_insert_eq, ?lookup_insert_ne by done; try done.
    + intros [= <-] Ht2 Hu. destruct (Hnew _ _ Ht2). done.
    + intros Ht1 [= <-] Hu. destruct (Hnew _ _ Ht1). done.
    + eauto.
  - intros k t. destruct (decide (userId t = userId s)) as [->|Hu].
    + rewrite lookup_insert_eq. eauto.
    + rewrite (lookup_insert_ne _ (userId s)) by done.
      destruct (decide (k = id s)) as [->|Hne].
      * rewrite lookup_insert_eq. intros [= <-]. done.
      * rewrite lookup_insert_ne by done. eauto.
  - intros u info. destruct (decide (u = userId s)) as [->|Hu].
    + rewrite lookup_insert_eq. by intros [= <-].
    + rewrite lookup_insert_ne by done. eauto.
  - intros u info r. destruct (decide (u = userId s)) as [->|Hu].
    + rewrite lookup_insert_eq. by intros [= <-].
    + rewrite lookup_insert_ne by done. intros Hi Hr.
      destruct (Hlive _ _ _ Hi Hr) as (k & t & Ht & Hut).
      exists k, t. split; [|done].
      rewrite lookup_insert_ne; [done|]. intros <-. congruence.
  - intros u r. rewrite Hidx. destruct (decide (u = userId s)) as [->|Hu].
    + rewrite lookup_insert_eq. split.
      * intros (info & Hi & Hr). destruct (Hno _ _ Hi Hr).
      * intros (info & [= <-] & Hr). done.
    + by rewrite lookup_insert_ne.
  - intros k r. rewrite Hrooms. split.
    + intros (t & info & Ht & Hi & Hr). exists t, info.
      rewrite !lookup_insert_ne; [done| |].
      * intros Hu. eapply Hnew; eauto.
      * intros <-. congruence.
    + intros (t & info & Ht & Hi & Hr).
      destruct (decide (k = id s)) as [->|Hne].
      * rewrite lookup_insert_eq in Ht. simplify_eq.
        rewrite lookup_insert_eq in Hi. by simplify_eq.
      * rewrite lookup_insert_ne in Ht by done.
        rewrite lookup_insert_ne in Hi; [eauto|].
        intros Hu. eapply Hnew; eauto.
Qed.

Lemma consistent_close s σ :
  consistent σ → live σ s →
  (∀ info, connectedUsers σ !! userId s = Some info → currentRoom info = None) →
  consistent (setConnectedUsers (delete (userId s)) (closeMem s σ)) ∧
  consistent (closeMem s σ).
Proof.
  intros [Hkey Hone Hreg Htruthy Hlive Hidx Hrooms] Hs Hnone.
  unfold live in Hs.
  assert (∀ k t, ioSockets σ !! k = Some t → k ≠ id s → userId t ≠ userId s) as Hother.
  { intros k t Ht Hk Hu. apply Hk. by eapply Hone. }
  assert (∀ k r, k ∈ ((λ members, members ∖ {[id s]}) <$> ioRooms σ) !!! r ↔
                 k ≠ id s ∧ k ∈ ioRooms σ !!! r) as Hmem.
  { intros k r. rewrite elem_of_fmap_difference. tauto. }
  split; split; simpl.
  - intros k t Ht. apply lookup_delete_Some in Ht as [_ Ht]. eauto.
  - intros k1 k2 t1 t2 H1 H2. apply lookup_delete_Some in H1 as [_ H1].
    apply lookup_delete_Some in H2 as [_ H2]. eauto.
  - intros k t Ht. apply lookup_delete_Some in Ht as [Hk Ht].
    rewrite lookup_delete_ne; [eauto|]. intros Hu. by eapply Hother.
  - intros u info Hi. apply lookup_delete_Some in Hi as [_ Hi]. eauto.
  - intros u info r Hi Hr. apply lookup_delete_Some in Hi as [Hu Hi].
    destruct (Hlive _ _ _ Hi Hr) as (k & t & Ht & Hut).
    exists k, t. split; [|done]. rewrite lookup_delete_ne; [done|].
    intros <-. rewrite Hs in Ht. by simplify_eq.
  - intros u r. rewrite Hidx. split.
    + intros (info & Hi & Hr). exists info. split; [|done].
      rewrite lookup_delete_ne; [done|]. intros <-.
      apply Hnone in Hi. congruence.
    + intros (info & Hi & Hr). apply lookup_delete_Some in Hi as [_ Hi]. eauto.
  - intros k r. rewrite Hmem, Hrooms. split.
    + intros [Hk (t & info & Ht & Hi & Hr)]. exists t, info.
      rewrite !lookup_delete_ne; [done| |done].
      intros Hu. by eapply Hother.
    + intros (t & info & Ht & Hi & Hr).
      apply lookup_delete_Some in Ht as [Hk Ht].
      apply lookup_delete_Some in Hi as [_ Hi]. split; [done|eauto].
  - intros k t Ht. apply lookup_delete_Some in Ht as [_ Ht]. eauto.
  - intros k1 k2 t1 t2 H1 H2. apply lookup_delete_Some in H1 as [_ H1].
    apply lookup_delete_Some in H2 as [_ H2]. eauto.
  - intros k t Ht. apply lookup_delete_Some in Ht as [Hk Ht]. eauto.
  - eauto.
  - intros u info r Hi Hr.
    destruct (Hlive _ _ _ Hi Hr) as (k & t & Ht & Hut).
    exists k, t. split; [|done]. rewrite lookup_delete_ne; [done|].
    intros <-. rewrite Hs in Ht. simplify_eq. apply Hnone in Hi. congruence.
  - done.
  - intros k r. rewrite Hmem, Hrooms. split.
    + intros [Hk (t & info & Ht & Hi & Hr)]. exists t, info.
      rewrite lookup_delete_ne; done.
    + intros (t & info & Ht & Hi & Hr).
      apply lookup_delete_Some in Ht as [Hk Ht]. split; [done|eauto].
Qed.

Lemma leaveCurrent_closeMem s σ :
  mem (leaveCurrent s (closeMem s σ)) = mem (closeMem s (leaveCurrent s σ)).
Proof.
  unfold leaveCurrent. simpl.
  destruct (connectedUsers σ !! userId s) as [i|]; [|done].
  destruct (JS.truthy (currentRoom i)) as [a|]; [|done].
  unfold mem, leaveMem, closeMem. simpl. f_equal.
  apply map_eq. intros r.
  rewrite lookup_fmap.
  destruct (decide (r = a)) as [->|Hne].
  - rewrite !lookup_alter_eq, lookup_fmap.
    by destruct (ioRooms σ !! a).
  - rewrite !lookup_alter_ne by done. by rewrite lookup_fmap.
Qed.

Lemma consistent_step σ op :
  consistent σ → enabled1 σ op → consistent (step op σ).
Proof.
  intros Hc [Hen H1]. destruct op as [s|s v|s v|s v c|s v|s|db]; simpl in Hen.
  - eapply consistent_mem; [symmetry; apply step_connect_mem|].
    by apply consistent_connect.
  - unfold step, run.
    destruct (handleJoinRoom_mem s v σ) as [H|(r & Hv & [H|H])].
    + by eapply consistent_mem.
    + eapply consistent_mem; [symmetry; apply H|].
      by apply consistent_leaveCurrent.
    + eapply consistent_mem; [symmetry; apply H|].
      apply truthy_Some in Hv as [_ Hr].
      apply consistent_join; [by apply consistent_leaveCurrent
                             |by apply live_leaveCurrent|done|].
      intros info. by apply room_after_leaveCurrent.
  - unfold step, run. pose proof (handleLeaveRoom_mem s v σ) as H.
    destruct (JS.truthy v) as [r|].
    + eapply consistent_mem; [symmetry; apply H|]. by apply consistent_leave.
    + by eapply consistent_mem.
  - eapply consistent_mem; [|done]. symmetry.
    apply (keeps_exec mem), keeps_mem_handleSendMessage.
  - eapply consistent_mem; [|done]. symmetry.
    apply (keeps_exec mem), keeps_mem_handleGetRoomParticipants.
  - assert (consistent (setConnectedUsers (delete (userId s))
                          (closeMem s (leaveCurrent s σ))) ∧
            consistent (closeMem s (leaveCurrent s σ))) as [Ha Hb].
    { apply consistent_close; [by apply consistent_leaveCurrent
                              |by apply live_leaveCurrent|].
      intros info. by apply room_after_leaveCurrent. }
    destruct (step_disconnect_mem s σ) as [H|H].
    + eapply consistent_mem; [symmetry; etrans; [apply H|]|exact Hb].
      apply leaveCurrent_closeMem.
    + eapply consistent_mem; [symmetry; etrans; [apply H|]|exact Ha].
      pose proof (leaveCurrent_closeMem s σ) as Hm.
      unfold mem in *. simpl. by injection Hm as -> -> -> ->.
  - eapply consistent_mem; [|exact Hc]. done.
Qed.

Lemma reachable1_consistent σ : reachable1 σ → consistent σ.
Proof.
  induction 1 as [db|σ op _ IH Hen].
  - apply consistent_initial.
  - by apply consistent_step.
Qed.

Lemma consistent_index σ : consistent σ → indexMatchesConnections σ.
Proof.
  intros Hc u r. rewrite (cons_index σ Hc). unfold live, inRoom. split.
  - intros (info & Hi & Hr).
    destruct (cons_live σ Hc _ _ _ Hi Hr) as (k & t & Ht & Hu).
    exists t. pose proof (cons_key σ Hc _ _ Ht) as <-.
    split; [done|]. split; [done|]. rewrite Hu. eauto.
  - intros (s & Hs & <- & Hin). done.
Qed.

(** Discharges the enabledness of a concrete script by evaluation. *)
Ltac script_enabled :=
  cbv beta iota delta [allEnabled enabled1 enabled];
  repeat match goal with
  | |- _ ∧ _ => split
  | |- True => exact I
  | |- map_Forall _ _ => apply (bool_decide_unpack _); vm_compute; exact I
  | |- _ = _ => vm_compute; reflexivity
  end.

Lemma reachable_by_steps en ops σ :
  reachable_by en σ → allEnabled en ops σ → reachable_by en (steps ops σ).
Proof.
  revert σ. induction ops as [|op ops IH]; intros σ Hσ Hen; [done|].
  destruct Hen as [Hop Hops]. apply IH; [|done]. by constructor.
Qed.

(** ** C1: the participant index and the connections *)

(** C1 (as amended).  In every state reached by connections, joins, leaves,
    room switches, sends and disconnects in which no user has two live
    connections at a time and every event is handled to completion before
    the next one is taken up, a userId is in RoomParticipants[roomId]
    exactly when some live connection of that user has that room as its
    current room. *)
Theorem index_matches_connections_one_per_user σ :
  reachable1 σ → indexMatchesConnections σ.
Proof. intros H. by apply consistent_index, reachable1_consistent. Qed.

Lemma index_matches_connections_one_per_user_witness :
  reachable1 Scenario.bothInRoom ∧ indexMatchesConnections Scenario.bothInRoom.
Proof.
  assert (reachable1 Scenario.bothInRoom) as H.
  { apply reachable_by_steps; [constructor|].
    script_enabled. }
  split; [exact H|]. exact (index_matches_connections_one_per_user _ H).
Defined.

(** C1 as stated fails once a user connects twice: the second connection
    overwrites the registry entry of the first, neither disconnect runs the
    leave steps, and the user stays in the index with no connection left. *)
Lemma index_stale_after_second_connection :
  reachable Scenario.staleIndex ∧ ¬ indexMatchesConnections Scenario.staleIndex.
Proof.
  split.
  - apply reachable_by_steps; [constructor|].
    unfold Scenario.staleScript. script_enabled.
  - intros H. destruct (H "u1" "r1") as [H1 _].
    destruct H1 as (s & Hlive & _); [vm_compute; reflexivity|].
    unfold live in Hlive.
    assert (ioSockets Scenario.staleIndex = ∅) as Hno by (vm_compute; reflexivity).
    rewrite Hno in Hlive. by rewrite lookup_empty in Hlive.
Qed.

(** ** Strings *)

Lemma length_append a b :
  String.length (a +:+ b) = String.length a + String.length b.
Proof. induction a as [|c a IH]; simpl; [done|]. by rewrite IH. Qed.

Lemma isEmpty_true s : JS.isEmpty s = true ↔ s = "".
Proof. by destruct s. Qed.

Lemma isEmpty_false s : JS.isEmpty s = false ↔ s ≠ "".
Proof. by destruct s. Qed.

Lemma length_zero s : String.length s = 0 ↔ s = "".
Proof. by destruct s. Qed.

Lemma isBlank_append a b : JS.isBlank (a +:+ b) = JS.isBlank a && JS.isBlank b.
Proof.
  induction a as [|c a IH]; simpl; [done|]. rewrite IH. by rewrite andb_assoc.
Qed.

Lemma trimStart_blank s : JS.trimStart s = "" ↔ JS.isBlank s = true.
Proof.
  induction s as [|c s IH]; simpl; [done|].
  destruct (JS.isWhiteSpace c); simpl; [done|]. split; discriminate.
Qed.

Lemma trimEnd_blank s : JS.trimEnd s = "" ↔ JS.isBlank s = true.
Proof.
  induction s as [|c s IH]; simpl; [done|].
  destruct (JS.trimEnd s) as [|c' t] eqn:Ht.
  - destruct (JS.isWhiteSpace c); simpl; [tauto|]. split; discriminate.
  - split; [discriminate|]. intros [_ H]%andb_true_iff.
    apply IH in H. discriminate.
Qed.

Lemma isBlank_trimStart s : JS.isBlank (JS.trimStart s) = JS.isBlank s.
Proof.
  induction s as [|c s IH]; simpl; [done|].
  destruct (JS.isWhiteSpace c) eqn:Hc; simpl; [done|]. by rewrite Hc.
Qed.

Lemma trim_blank s : JS.trim s = "" ↔ JS.isBlank s = true.
Proof. unfold JS.trim. by rewrite trimEnd_blank, isBlank_trimStart. Qed.

Lemma trimStart_head s c t :
  JS.trimStart s = String c t → JS.isWhiteSpace c = false.
Proof.
  induction s as [|c' s IH]; simpl; [done|].
  destruct (JS.isWhiteSpace c') eqn:Hc; [done|]. by intros [= <- _].
Qed.

Lemma trimEnd_head s c t : JS.trimEnd s = String c t → ∃ s', s = String c s'.
Proof.
  destruct s as [|c' s]; simpl; [done|].
  destruct (JS.trimEnd s); [destruct (JS.isWhiteSpace c')|];
    intros [= <- _]; eauto.
Qed.

Lemma trimEnd_trimEnd s : JS.trimEnd (JS.trimEnd s) = JS.trimEnd s.
Proof.
  induction s as [|c s IH]; simpl; [done|].
  destruct (JS.trimEnd s) as [|c' t] eqn:Ht.
  - destruct (JS.isWhiteSpace c) eqn:Hc; simpl; [done|]. by rewrite Hc.
  - simpl in *. by rewrite IH.
Qed.

Lemma trim_trim s : JS.trim (JS.trim s) = JS.trim s.
Proof.
  unfold JS.trim.
  destruct (JS.trimEnd (JS.trimStart s)) as [|c t] eqn:Ht; [done|].
  destruct (trimEnd_head _ _ _ Ht) as [s' Hs'].
  pose proof (trimStart_head _ _ _ Hs') as Hc.
  simpl. rewrite Hc. rewrite <- Ht. apply trimEnd_trimEnd.
Qed.

(** ** [Message.validate] *)

Lemma validateContent_nil c :
  validateContent c = [] ↔
  c ≠ "" ∧ JS.isBlank c = false ∧ String.length c ≤ 1000.
Proof.
  unfold validateContent. destruct c as [|a c]; simpl JS.isEmpty; cbv iota.
  - split; [done|]. by intros [? _].
  - assert (String a c ≠ "") as Hne by done.
    generalize dependent (String a c). clear a c. intros s Hne.
    destruct (String.length (JS.trim s) <? 1)%nat eqn:H1;
      destruct (1000 <? String.length s)%nat eqn:H2; simpl;
      apply Nat.ltb_lt in H1 || apply Nat.ltb_ge in H1;
      apply Nat.ltb_lt in H2 || apply Nat.ltb_ge in H2.
    + split; [done|]. intros (_ & _ & ?). lia.
    + split; [done|]. intros (_ & Hb & _).
      assert (JS.trim s = "") as Ht by (apply length_zero; lia).
      apply trim_blank in Ht. congruence.
    + split; [done|]. intros (_ & _ & ?). lia.
    + split; [|done]. intros _. split; [done|]. split; [|done].
      destruct (JS.isBlank s) eqn:Hb; [|done].
      apply trim_blank in Hb. rewrite Hb in H1. simpl in H1. lia.
Qed.

Lemma validateContent_trim c :
  validateContent (JS.trim c) = [] ↔ 1 ≤ String.length (JS.trim c) ≤ 1000.
Proof.
  rewrite validateContent_nil. split.
  - intros (Hne & _ & Hle). split; [|done].
    destruct (JS.trim c); simpl; [done|lia].
  - intros [H1 H2]. assert (JS.trim c ≠ "") as Hne.
    { intros Heq. rewrite Heq in H1. simpl in H1. lia. }
    split; [done|]. split; [|done].
    destruct (JS.isBlank (JS.trim c)) eqn:Hb; [|done].
    apply trim_blank in Hb. by rewrite trim_trim in Hb.
Qed.

Lemma validate_notification r n suffix :
  r ≠ "" → JS.isBlank suffix = false →
  String.length n + String.length suffix ≤ 1000 →
  validate {| dRoomId := r; dSenderId := "system"; dSenderUsername := "System";
              dContent := n +:+ suffix;
              dMessageType := Some TNotification |} = [].
Proof.
  intros Hr Hb Hlen. unfold validate. simpl.
  apply isEmpty_false in Hr. rewrite Hr. simpl.
  rewrite app_nil_r. apply validateContent_nil.
  split; [|split].
  - intros Heq. assert (JS.isBlank (n +:+ suffix) = true) as H by by rewrite Heq.
    rewrite isBlank_append, Hb, andb_false_r in H. done.
  - by rewrite isBlank_append, Hb, andb_false_r.
  - by rewrite length_append.
Qed.

(** ** Running computations *)

Lemma bind_Return {A B} (m : M A) (k : A → M B) σ a σ1 :
  m σ = (Return a, σ1) → bind m k σ = k a σ1.
Proof. unfold bind. by intros ->. Qed.

Lemma bind_Throw {A B} (m : M A) (k : A → M B) σ e σ1 :
  m σ = (Throw e, σ1) → bind m k σ = (Throw e, σ1).
Proof. unfold bind. by intros ->. Qed.

Lemma bind_bind {A B C} (m : M A) (k : A → M B) (k' : B → M C) σ :
  bind (bind m k) k' σ = bind m (λ a, bind (k a) k') σ.
Proof. unfold bind. by destruct (m σ) as [[a|e] σ1]. Qed.

Lemma bind_modify {B} g (k : unit → M B) σ : bind (modify g) k σ = k tt (g σ).
Proof. done. Qed.

Lemma bind_gets {A B} (g : Server → A) (k : A → M B) σ :
  bind (gets g) k σ = k (g σ) σ.
Proof. done. Qed.

Lemma bind_ret {A B} (a : A) (k : A → M B) σ : bind (ret a) k σ = k a σ.
Proof. done. Qed.

Lemma try_catch_Return {A} (m : M A) h σ a σ1 :
  m σ = (Return a, σ1) → try_catch m h σ = (Return a, σ1).
Proof. unfold try_catch. by intros ->. Qed.

Lemma try_catch_Throw {A} (m : M A) h σ e σ1 :
  m σ = (Throw e, σ1) → try_catch m h σ = h e σ1.
Proof. unfold try_catch. by intros ->. Qed.

Lemma requireConnected_up σ :
  connected (database σ) = true → requireConnected σ = (Return tt, σ).
Proof. unfold requireConnected. by intros ->. Qed.

Lemma requireConnected_down σ :
  connected (database σ) = false →
  requireConnected σ = (Throw (Error "Database not connected"), σ).
Proof. unfold requireConnected. by intros ->. Qed.

Lemma Room_findById_up i σ :
  connected (database σ) = true →
  Room_findById i σ = (Return (newRoom i <$> rooms (database σ) !! i), σ).
Proof.
  intros H. unfold Room_findById.
  by rewrite (bind_Return _ _ _ _ _ (requireConnected_up σ H)).
Qed.

Lemma Room_findById_down i σ :
  connected (database σ) = false →
  Room_findById i σ = (Throw (Error "Database not connected"), σ).
Proof.
  intros H. unfold Room_findById.
  by rewrite (bind_Throw _ _ _ _ _ (requireConnected_down σ H)).
Qed.

Lemma Message_create_up d σ :
  validate d = [] → connected (database σ) = true →
  Message_create d σ =
    (Return (messageRecord d (uuidCounter σ)),
     setDatabase (setMessages (λ ms, ms ++ [messageRecord d (uuidCounter σ)]))
       (setUuidCounter S σ)).
Proof.
  intros Hv Hc. unfold Message_create. rewrite Hv.
  unfold uuidv4, bind at 1. unfold requireConnected, bind at 1. simpl.
  by rewrite Hc.
Qed.

Lemma Message_create_invalid d σ :
  validate d ≠ [] →
  Message_create d σ = (Throw (VALIDATION_ERROR (validate d)), σ).
Proof.
  intros Hv. unfold Message_create.
  destruct (validate d); [by destruct Hv|reflexivity].
Qed.

Lemma roomsOnly_refl σ : roomsOnly σ σ.
Proof.
  split; try done. intros i. by destruct (rooms (database σ) !! i).
Qed.

Lemma Room_save_up room ps σ :
  connected (database σ) = true → instanceOf room σ →
  ∃ σ', Room_save room ps σ = (Return tt, σ') ∧ roomsOnly σ σ'.
Proof.
  intros Hc Hin. unfold Room_save.
  rewrite (bind_Return _ _ _ _ _ (requireConnected_up σ Hc)).
  eexists. split; [reflexivity|]. split; try done.
  intros i. simpl. destruct (decide (i = rId room)) as [->|Hne].
  - rewrite lookup_alter_eq.
    destruct (rooms (database σ) !! rId room) as [rec|] eqn:Hrec; simpl; [|done].
    destruct (Hin rec Hrec) as (-> & -> & ->). done.
  - rewrite lookup_alter_ne by done.
    by destruct (rooms (database σ) !! i).
Qed.

Lemma removeFirst_absent u ps : u ∉ ps → removeFirst u ps = ps.
Proof.
  induction ps as [|p ps IH]; simpl; [done|].
  intros [Hne Hnin]%not_elem_of_cons.
  rewrite bool_decide_false by done. by rewrite IH.
Qed.

Lemma Room_removeParticipant_up i rec u σ :
  u ≠ "" → connected (database σ) = true →
  rooms (database σ) !! i = Some rec →
  ∃ σ', Room_removeParticipant (newRoom i rec) u σ = (Return tt, σ') ∧
        roomsOnly σ σ' ∧
        rooms (database σ') = alter (dropParticipant u) i (rooms (database σ)).
Proof.
  intros Hu Hc Hrec. unfold Room_removeParticipant.
  apply isEmpty_false in Hu. rewrite Hu.
  unfold Room_participants. rewrite bind_gets. simpl. rewrite Hrec.
  case_bool_decide as Hin.
  - destruct (Room_save_up (newRoom i rec) (removeFirst u (participants rec)) σ Hc)
      as (σ' & Hrun & Hro).
    { intros rec' Hrec'. simpl in Hrec'. by simplify_eq. }
    exists σ'. split; [done|]. split; [done|].
    unfold Room_save in Hrun.
    rewrite (bind_Return _ _ _ _ _ (requireConnected_up σ Hc)) in Hrun.
    injection Hrun as <-. simpl.
    apply map_eq. intros j. destruct (decide (j = i)) as [->|Hne].
    + by rewrite !lookup_alter_eq, Hrec.
    + by rewrite !lookup_alter_ne.
  - exists σ. split; [done|]. split; [apply roomsOnly_refl|].
    symmetry. apply alter_id. intros rec' Hrec'.
    assert (rec' = rec) as -> by congruence.
    unfold dropParticipant. rewrite removeFirst_absent by done.
    by destruct rec.
Qed.

Lemma Room_addParticipant_up i rec u σ :
  u ≠ "" → connected (database σ) = true →
  rooms (database σ) !! i = Some rec →
  ∃ σ', Room_addParticipant (newRoom i rec) u σ = (Return tt, σ') ∧
        roomsOnly σ σ' ∧
        rooms (database σ') = alter (withParticipant u) i (rooms (database σ)).
Proof.
  intros Hu Hc Hrec. unfold Room_addParticipant.
  apply isEmpty_false in Hu. rewrite Hu.
  unfold Room_participants. rewrite bind_gets. simpl. rewrite Hrec.
  case_bool_decide as Hin.
  - exists σ. split; [done|]. split; [apply roomsOnly_refl|].
    symmetry. apply alter_id. intros rec' Hrec'.
    assert (rec' = rec) as -> by congruence.
    unfold withParticipant. rewrite bool_decide_true by done.
    by destruct rec.
  - destruct (Room_save_up (newRoom i rec) (participants rec ++ [u]) σ Hc)
      as (σ' & Hrun & Hro).
    { intros rec' Hrec'. simpl in Hrec'. by simplify_eq. }
    exists σ'. split; [done|]. split; [done|].
    unfold Room_save in Hrun.
    rewrite (bind_Return _ _ _ _ _ (requireConnected_up σ Hc)) in Hrun.
    injection Hrun as <-. simpl.
    apply map_eq. intros j. destruct (decide (j = i)) as [->|Hne].
    + rewrite !lookup_alter_eq, Hrec. simpl. f_equal.
      unfold withParticipant. by rewrite bool_decide_false.
    + by rewrite !lookup_alter_ne.
Qed.

Lemma getRoomParticipantsList_mem σ σ' r :
  mem σ = mem σ' → getRoomParticipantsList σ r = getRoomParticipantsList σ' r.
Proof.
  unfold mem, getRoomParticipantsList. by intros [= -> -> _ _].
Qed.

Lemma left_twice k r (g : gmap string (gset string)) :
  alter (λ members, members ∖ {[k]}) r g !!! r ∖ {[k]} = g !!! r ∖ {[k]}.
Proof.
  rewrite !lookup_total_alt, lookup_alter_eq.
  destruct (g !! r); simpl; set_solver.
Qed.

Lemma wellFormed_left s : wellFormed s →
  String.length (username s) + String.length " left the room" ≤ 1000.
Proof. intros [_ [_ H]]. simpl. lia. Qed.

Lemma wellFormed_joined s : wellFormed s →
  String.length (username s) + String.length " joined the room" ≤ 1000.
Proof. intros [_ [_ H]]. simpl. lia. Qed.

(** ** A completed [leaveRoom] *)

Lemma instanceOf_newRoom i rec σ σ' :
  rooms (database σ) !! i = Some rec → sameRooms σ σ' →
  instanceOf (newRoom i rec) σ'.
Proof.
  intros Hrec Hsame rec' Hrec'. simpl in Hrec'.
  specialize (Hsame i). rewrite Hrec, Hrec' in Hsame.
  destruct Hsame as (-> & -> & ->). done.
Qed.

Lemma sameRooms_refl σ : sameRooms σ σ.
Proof. intros i. by destruct (rooms (database σ) !! i). Qed.

Lemma sameRooms_trans σ1 σ2 σ3 :
  sameRooms σ1 σ2 → sameRooms σ2 σ3 → sameRooms σ1 σ3.
Proof.
  intros H12 H23 i. specialize (H12 i). specialize (H23 i).
  destruct (rooms (database σ1) !! i), (rooms (database σ2) !! i),
    (rooms (database σ3) !! i); try done.
  destruct H12 as (? & ? & ?), H23 as (? & ? & ?). repeat split; congruence.
Qed.

Lemma leaveRoom_completes s r σ :
  r ≠ "" → connected (database σ) = true → wellFormed s →
  ∃ σ', leaveRoom s (Some r) σ = (Return tt, σ') ∧ hasLeft s r σ σ'.
Proof.
  intros Hr Hc Hwf. unfold leaveRoom. rewrite truthy_Some_ne by done.
  unfold socket_leave. rewrite !bind_modify. fold (leaveMem s r σ).
  set (σ1 := leaveMem s r σ).
  rewrite (bind_Return _ _ _ _ _ (Room_findById_up r σ1 Hc)).
  change (rooms (database σ1)) with (rooms (database σ)).
  destruct (rooms (database σ) !! r) as [rec|] eqn:Hrec; simpl.
  - rewrite bind_bind.
    destruct (Room_removeParticipant_up r rec (userId s) σ1)
      as (σ2 & Hrun & Hro & Hstored); [apply Hwf|done|done|].
    rewrite (bind_Return _ _ _ _ _ Hrun).
    destruct Hro as [Hmem Hem Huuid Hconn Husers Hmsgs Hrooms].
    rewrite bind_bind. unfold createUserLeftNotification, createNotification.
    rewrite (bind_Return _ _ _ _ _ (Message_create_up _ σ2
      (validate_notification r (username s) " left the room" Hr eq_refl
         (wellFormed_left s Hwf))
      (eq_trans Hconn Hc))).
    unfold socket_to_emit. rewrite bind_bind, bind_modify.
    rewrite bind_bind, bind_gets, bind_modify.
    eexists. split; [reflexivity|].
    assert (ioRooms σ2 = ioRooms σ1) as Hio by (unfold mem in Hmem; congruence).
    split; simpl.
    + done.
    + rewrite Hem, Hio, Huuid. simpl. unfold leaveEvents. rewrite Hrec.
      rewrite left_twice. rewrite <- !app_assoc.
      erewrite (getRoomParticipantsList_mem _ (leaveMem s r σ)); [done|].
      unfold mem in *. simpl in *. congruence.
    + by rewrite Hconn.
    + done.
    + done.
    + done.
    + by rewrite Hmsgs, Huuid, Hrec.
    + by rewrite Huuid, Hrec.
  - rewrite bind_ret. eexists. split; [reflexivity|].
    split; simpl; rewrite ?Hrec, ?app_nil_r; try done.
    + unfold leaveEvents. by rewrite Hrec.
    + apply (sameRooms_refl σ).
    + symmetry. apply alter_id. intros rec' Hrec'. congruence.
Qed.

Lemma lookup_indexRemove_ne u r (rp : gmap string (gset string)) r' :
  r' ≠ r → indexRemove u r rp !! r' = rp !! r'.
Proof.
  intros Hne. unfold indexRemove. destruct (rp !! r); [|done].
  case_bool_decide; [by rewrite lookup_delete_ne|by rewrite lookup_insert_ne].
Qed.

Lemma exec_Return {A} (m : M A) σ a σ' : m σ = (Return a, σ') → exec m σ = σ'.
Proof. unfold exec. by intros ->. Qed.

(** ** C7: the index never keeps an empty set *)

Lemma indexTidy_remove σ σ' u r :
  roomParticipants σ' = indexRemove u r (roomParticipants σ) →
  indexTidy σ → indexTidy σ'.
Proof.
  intros Heq Ht r' members. rewrite Heq. unfold indexRemove.
  destruct (roomParticipants σ !! r) as [ms|] eqn:Hr; [|apply Ht].
  case_bool_decide as Hsize.
  - intros H. apply lookup_delete_Some in H as [_ H]. eauto.
  - destruct (decide (r' = r)) as [->|Hne].
    + rewrite lookup_insert_eq. intros [= <-].
      split; [by destruct (Ht _ _ Hr)|].
      intros Hempty. rewrite Hempty in Hsize. by rewrite size_empty in Hsize.
    + rewrite lookup_insert_ne by done. apply Ht.
Qed.

Lemma indexTidy_add σ σ' u r :
  r ≠ "" → roomParticipants σ' = indexAdd u r (roomParticipants σ) →
  indexTidy σ → indexTidy σ'.
Proof.
  intros Hr Heq Ht r' members. rewrite Heq. unfold indexAdd.
  destruct (decide (r' = r)) as [->|Hne].
  - rewrite lookup_insert_eq. intros [= <-]. split; [done|]. set_solver.
  - rewrite lookup_insert_ne by done. apply Ht.
Qed.

Lemma indexTidy_same σ σ' :
  roomParticipants σ' = roomParticipants σ → indexTidy σ → indexTidy σ'.
Proof. unfold indexTidy. by intros ->. Qed.

Lemma indexTidy_leaveCurrent s σ : indexTidy σ → indexTidy (leaveCurrent s σ).
Proof.
  intros Ht. unfold leaveCurrent.
  destruct (connectedUsers σ !! userId s) as [i|]; [|done].
  destruct (JS.truthy (currentRoom i)) as [a|]; [|done].
  by eapply indexTidy_remove.
Qed.

Lemma mem_roomParticipants σ σ' :
  mem σ' = mem σ → roomParticipants σ' = roomParticipants σ.
Proof. unfold mem. by intros [= _ -> _ _]. Qed.

Lemma indexTidy_step σ op : indexTidy σ → indexTidy (step op σ).
Proof.
  intros Ht. destruct op as [s|s v|s v|s v c|s v|s|db].
  - eapply indexTidy_same; [|done].
    by rewrite (mem_roomParticipants _ _ (step_connect_mem s σ)).
  - unfold step, run.
    destruct (handleJoinRoom_mem s v σ) as [H|(r & Hv & [H|H])];
      apply mem_roomParticipants in H.
    + by eapply indexTidy_same.
    + eapply indexTidy_same; [done|]. by apply indexTidy_leaveCurrent.
    + apply truthy_Some in Hv as [_ Hr].
      apply (indexTidy_add (leaveCurrent s σ) _ (userId s) r Hr H).
      by apply indexTidy_leaveCurrent.
  - unfold step, run. pose proof (handleLeaveRoom_mem s v σ) as H.
    destruct (JS.truthy v) as [r|]; apply mem_roomParticipants in H.
    + by apply (indexTidy_remove σ _ (userId s) r H).
    + by eapply indexTidy_same.
  - eapply indexTidy_same; [|done]. apply mem_roomParticipants.
    apply (keeps_exec mem), keeps_mem_handleSendMessage.
  - eapply indexTidy_same; [|done]. apply mem_roomParticipants.
    apply (keeps_exec mem), keeps_mem_handleGetRoomParticipants.
  - assert (indexTidy (leaveCurrent s (closeMem s σ))) as Ht'.
    { apply indexTidy_leaveCurrent. by eapply indexTidy_same. }
    destruct (step_disconnect_mem s σ) as [H|H]; apply mem_roomParticipants in H;
      by eapply indexTidy_same.
  - by eapply indexTidy_same.
Qed.

Lemma reachable_indexTidy σ : reachable σ → indexTidy σ.
Proof.
  induction 1 as [db|σ op _ IH _].
  - intros r members H. simpl in H. by rewrite lookup_empty in H.
  - by apply indexTidy_step.
Qed.

(** C7.  In a reachable state, when the connection's user is the last
    element of RoomParticipants[roomId], leaveRoom removes the roomId entry
    altogether, and the index it leaves holds no empty set. *)
Theorem leaveRoom_deletes_emptied_entry σ s r :
  reachable σ → roomParticipants σ !! r = Some {[userId s]} →
  let σ' := exec (leaveRoom s (Some r)) σ in
  roomParticipants σ' !! r = None ∧ indexTidy σ'.
Proof.
  intros Hreach Hlast σ'. pose proof (reachable_indexTidy σ Hreach) as Ht.
  destruct (Ht _ _ Hlast) as [Hr _].
  pose proof (mem_roomParticipants _ _ (leaveRoom_mem s r σ Hr)) as Hrp.
  simpl in Hrp. fold σ' in Hrp. split.
  - rewrite Hrp. unfold indexRemove. rewrite Hlast.
    rewrite bool_decide_true; [apply lookup_delete_eq|].
    apply size_empty_iff. set_solver.
  - by eapply indexTidy_remove.
Qed.

Lemma leaveRoom_deletes_emptied_entry_witness :
  let σ' := exec (leaveRoom Scenario.alice1 (Some "r1")) Scenario.aliceInRoom in
  roomParticipants σ' !! "r1" = None ∧ indexTidy σ'.
Proof.
  apply (leaveRoom_deletes_emptied_entry Scenario.aliceInRoom Scenario.alice1 "r1").
  - apply reachable_by_steps; [constructor|]. script_enabled.
  - vm_compute. reflexivity.
Defined.

(** ** C8: the participant list *)

Lemma NoDup_fmap_omap {A B C} `{EqDecision C} (f : A → option B) (g : B → C)
    (h : A → C) (l : list A) :
  (∀ x y, f x = Some y → g y = h x) →
  NoDup (h <$> l) → NoDup (g <$> omap f l).
Proof.
  intros Hfg. induction l as [|x l IH]; simpl; [done|].
  intros [Hx Hl]%NoDup_cons. destruct (f x) as [y|] eqn:Hy; simpl; [|auto].
  apply NoDup_cons. split; [|auto].
  rewrite (Hfg x y Hy). intros Hin. apply Hx.
  apply list_elem_of_fmap in Hin as (y' & Hy' & Hin).
  apply list_elem_of_omap in Hin as (x' & Hx' & Hfx').
  apply list_elem_of_fmap. exists x'. split; [|done].
  rewrite Hy'. by apply Hfg.
Qed.

(** C8.  getRoomParticipantsList(roomId) holds exactly the entries
    {userId, username, isOnline: true} of the userIds of
    RoomParticipants[roomId] that have a registry entry, the username being
    the entry's, one entry per userId; a userId without a registry entry is
    left out, and the request is answered with this list, never with an
    error. *)
Theorem getRoomParticipantsList_lists_registered σ r :
  (∀ p, p ∈ getRoomParticipantsList σ r ↔
        ∃ u info, u ∈ roomParticipants σ !!! r ∧
                  connectedUsers σ !! u = Some info ∧
                  p = {| pUserId := u; pUsername := infoUsername info;
                         isOnline := true |}) ∧
  NoDup (pUserId <$> getRoomParticipantsList σ r) ∧
  (∀ u, u ∈ roomParticipants σ !!! r → connectedUsers σ !! u = None →
        u ∉ pUserId <$> getRoomParticipantsList σ r) ∧
  (∀ s v, JS.truthy v = Some r →
          handleGetRoomParticipants s v σ =
            (Return tt,
             setEmitted (λ log, log ++
               [(id s, room_participants r (getRoomParticipantsList σ r))]) σ)).
Proof.
  assert (∀ p, p ∈ getRoomParticipantsList σ r ↔
        ∃ u info, u ∈ roomParticipants σ !!! r ∧
                  connectedUsers σ !! u = Some info ∧
                  p = {| pUserId := u; pUsername := infoUsername info;
                         isOnline := true |}) as Hin.
  { intros p. unfold getRoomParticipantsList. rewrite list_elem_of_omap. split.
    - intros (u & Hu & Hp). apply elem_of_elements in Hu.
      destruct (connectedUsers σ !! u) as [info|] eqn:Hi; simpl in Hp; [|done].
      exists u, info. by simplify_eq.
    - intros (u & info & Hu & Hi & ->). exists u.
      rewrite elem_of_elements, Hi. done. }
  split; [exact Hin|]. split; [|split].
  - unfold getRoomParticipantsList.
    apply (NoDup_fmap_omap _ _ (λ u, u)).
    + intros u p Hp.
      destruct (connectedUsers σ !! u); simpl in Hp; by simplify_eq.
    + rewrite list_fmap_id. apply NoDup_elements.
  - intros u Hu Hnone Hmem.
    apply list_elem_of_fmap in Hmem as (p & -> & Hp).
    apply Hin in Hp as (u' & info & _ & Hi & ->). simpl in Hnone. congruence.
  - intros s v Hv. unfold handleGetRoomParticipants. rewrite Hv.
    by apply try_catch_Return.
Qed.

(** ** [handleSendMessage], case by case *)

Lemma inRoom_check σ s r :
  bool_decide (currentRoom <$> connectedUsers σ !! userId s = Some (Some r)) = true
  ↔ inRoom σ s r.
Proof.
  rewrite bool_decide_eq_true. unfold inRoom. split.
  - destruct (connectedUsers σ !! userId s) as [info|]; simpl; [|done].
    intros [= H]. eauto.
  - intros (info & -> & Hr). simpl. by rewrite Hr.
Qed.

Lemma validate_sendData s r c :
  validate (sendData s r c) = [] ↔
  r ≠ "" ∧ userId s ≠ "" ∧ username s ≠ "" ∧
  1 ≤ String.length (JS.trim c) ≤ 1000.
Proof.
  unfold validate, sendData. simpl. rewrite app_nil_r.
  rewrite <- validateContent_trim. rewrite <- !isEmpty_false.
  destruct (JS.isEmpty r), (JS.isEmpty (userId s)), (JS.isEmpty (username s));
    simpl; split; try done; by intros (? & ? & ? & ?).
Qed.

Lemma handleSendMessage_accepts σ s r c rec :
  r ≠ "" → c ≠ "" → inRoom σ s r → connected (database σ) = true →
  rooms (database σ) !! r = Some rec → isActive rec = true →
  validate (sendData s r c) = [] →
  handleSendMessage s (Some r) (Some c) σ =
    (Return tt,
     setEmitted (λ log, log ++
         ((λ k, (k, new_message
                      (toClient (messageRecord (sendData s r c) (uuidCounter σ)))))
          <$> elements (ioRooms σ !!! r)))
       (setDatabase
          (setMessages (λ ms, ms ++ [messageRecord (sendData s r c) (uuidCounter σ)]))
          (setUuidCounter S σ))).
Proof.
  intros Hr Hc Hin Hconn Hrec Hact Hval. unfold handleSendMessage.
  rewrite !truthy_Some_ne by done. apply try_catch_Return.
  rewrite bind_gets. apply inRoom_check in Hin. rewrite Hin. simpl.
  rewrite (bind_Return _ _ _ _ _ (Room_findById_up r σ Hconn)).
  rewrite Hrec. simpl. rewrite Hact.
  rewrite (bind_Return _ _ _ _ _ (Message_create_up _ σ Hval Hconn)).
  reflexivity.
Qed.

Lemma handleSendMessage_rejects σ s roomId content :
  sendRejected σ s roomId content →
  ∃ message details,
    handleSendMessage s roomId content σ =
      (Return tt,
       setEmitted (λ log, log ++ [(id s, error_ev message details)]) σ).
Proof.
  intros Hrej. unfold handleSendMessage.
  destruct (JS.truthy roomId) as [r|] eqn:Hr;
    [|do 2 eexists; by apply try_catch_Return].
  destruct (JS.truthy content) as [c|] eqn:Hc;
    [|do 2 eexists; by apply try_catch_Return].
  unfold try_catch. rewrite bind_gets.
  destruct (bool_decide (currentRoom <$> connectedUsers σ !! userId s
                         = Some (Some r))) eqn:Hin; simpl;
    [|do 2 eexists; reflexivity].
  apply inRoom_check in Hin.
  destruct (connected (database σ)) eqn:Hconn.
  2:{ rewrite (bind_Throw _ _ _ _ _ (Room_findById_down r σ Hconn)).
      do 2 eexists; reflexivity. }
  rewrite (bind_Return _ _ _ _ _ (Room_findById_up r σ Hconn)).
  destruct (rooms (database σ) !! r) as [rec|] eqn:Hrec; simpl;
    [|do 2 eexists; reflexivity].
  destruct (isActive rec) eqn:Hact; [|do 2 eexists; reflexivity].
  assert (validate (sendData s r c) ≠ []) as Hval.
  { destruct Hrej as [[H|H]|r' H1 H2|H|r' H1 H2|r' rec' H1 H2 H3|r' c' H1 H2 H3];
      congruence. }
  rewrite (bind_Throw _ _ _ _ _ (Message_create_invalid _ σ Hval)).
  do 2 eexists; reflexivity.
Qed.

(** ** Counting deliveries *)

Lemma received_app k P l1 l2 :
  received k P (l1 ++ l2) = received k P l1 + received k P l2.
Proof. unfold received. by rewrite filter_app, length_app. Qed.

Lemma received_nil k P : received k P [] = 0.
Proof. done. Qed.

Lemma received_cons k P k' ev l :
  received k P ((k', ev) :: l) =
  (if decide (k' = k ∧ P ev) then 1 else 0) + received k P l.
Proof.
  unfold received. rewrite filter_cons. simpl.
  destruct (decide (k' = k ∧ P ev)); done.
Qed.

Lemma received_fanout_list k P ev (l : list string) :
  NoDup l →
  received k P ((λ k', (k', ev)) <$> l) =
  if decide (k ∈ l) then (if P ev then 1 else 0) else 0.
Proof.
  induction l as [|k' l IH]; [done|]. intros [Hk' Hl]%NoDup_cons.
  rewrite fmap_cons, received_cons, IH by done.
  destruct (decide (k' = k)) as [->|Hne].
  - rewrite (decide_True (P := (k ∈ k :: l))) by apply list_elem_of_here.
    rewrite (decide_False (P := (k ∈ l))) by done.
    destruct (P ev); simpl.
    + rewrite decide_True; done.
    + rewrite decide_False; [done|]. by intros [_ ?].
  - rewrite decide_False by (by intros [? _]).
    destruct (decide (k ∈ l)) as [Hin|Hnin].
    + rewrite decide_True; [done|]. by apply list_elem_of_further.
    + rewrite decide_False; [done|].
      intros [?|?]%elem_of_cons; done.
Qed.

Lemma received_fanout k P ev (X : gset string) :
  received k P ((λ k', (k', ev)) <$> elements X) =
  if decide (k ∈ X) then (if P ev then 1 else 0) else 0.
Proof.
  rewrite received_fanout_list by apply NoDup_elements.
  destruct (decide (k ∈ X)) as [Hin|Hnin].
  - rewrite decide_True; [done|]. by apply elem_of_elements.
  - rewrite decide_False; [done|]. by rewrite elem_of_elements.
Qed.

Lemma consistent_room_member σ t r :
  consistent σ → live σ t →
  id t ∈ ioRooms σ !!! r ↔ userId t ∈ roomParticipants σ !!! r.
Proof.
  intros Hc Ht. rewrite (cons_rooms σ Hc), (cons_index σ Hc).
  unfold live in Ht. split.
  - intros (t' & info & Ht' & Hi & Hr). rewrite Ht in Ht'. simplify_eq. eauto.
  - intros (info & Hi & Hr). eauto.
Qed.

(** ** C10: leaving a room the connection is not in *)

Lemma leaveRoom_down s r σ :
  r ≠ "" → connected (database σ) = false →
  leaveRoom s (Some r) σ =
    (Throw (Error "Database not connected"), leaveMem s r σ).
Proof.
  intros Hr Hdown. unfold leaveRoom. rewrite truthy_Some_ne by done.
  unfold socket_leave. rewrite !bind_modify. fold (leaveMem s r σ).
  apply bind_Throw. by apply Room_findById_down.
Qed.

(** C10 (as amended).  When a connection whose current room is A asks to
    leave another room, its current room stays A and RoomParticipants[A] is
    untouched, whatever the roomId and whether or not the store can be
    reached.  For a present (non-empty) roomId r and a reachable store, the
    connection still gets a room-left acknowledgment for r, as the last
    event emitted, and every other event of the request goes to other
    connections.  While the store cannot be reached, the connection gets
    the error "Failed to leave room" instead and no room-left; for an
    absent or empty roomId nothing happens at all. *)
Theorem leave_other_room_acknowledged σ s a roomId info :
  connectedUsers σ !! userId s = Some info → currentRoom info = Some a →
  roomId ≠ Some a →
  let σ' := step (OpLeaveRoom s roomId) σ in
  connectedUsers σ' !! userId s = Some info ∧
  inRoom σ' s a ∧
  roomParticipants σ' !! a = roomParticipants σ !! a ∧
  match JS.truthy roomId with
  | Some r =>
      if connected (database σ)
      then wellFormed s →
           ∃ others, emitted σ' = emitted σ ++ others ++ [(id s, room_left r)] ∧
                     ∀ k ev, (k, ev) ∈ others → k ≠ id s
      else emitted σ' =
             emitted σ ++ [(id s, error_ev "Failed to leave room" None)]
  | None => σ' = σ
  end.
Proof.
  intros Hinfo Ha Hne σ'.
  assert (mem σ' = match JS.truthy roomId with
                   | Some r => mem (leaveMem s r σ)
                   | None => mem σ
                   end) as Hmem by apply handleLeaveRoom_mem.
  destruct (JS.truthy roomId) as [r|] eqn:Hv.
  - apply truthy_Some in Hv as [-> Hr].
    assert (r ≠ a) as Hra by congruence.
    unfold mem in Hmem. simpl in Hmem. injection Hmem as Hcu Hrp _ _.
    assert (connectedUsers σ' !! userId s = Some info) as Hinfo'.
    { rewrite Hcu, lookup_alter_eq, Hinfo. simpl. f_equal.
      unfold clearRoom. rewrite bool_decide_false; [done|]. congruence. }
    split; [done|]. split; [by exists info|]. split.
    { rewrite Hrp. apply lookup_indexRemove_ne. congruence. }
    destruct (connected (database σ)) eqn:Hc.
    + intros Hwf.
      destruct (leaveRoom_completes s r σ Hr Hc Hwf) as (σ1 & Hrun & Hleft).
      assert (σ' = σ1) as ->.
      { unfold σ', step, run, handleLeaveRoom.
        apply (exec_Return _ _ tt). by apply try_catch_Return. }
      rewrite (left_emitted _ _ _ _ Hleft). unfold leaveEvents.
      eexists. split; [reflexivity|].
      intros k ev Hin. destruct (rooms (database σ) !! r); [|by inversion Hin].
      apply elem_of_app in Hin as [Hin|Hin];
        apply list_elem_of_fmap in Hin as (k' & [= -> ->] & Hk');
        apply elem_of_elements in Hk'; set_solver.
    + unfold σ', step, run, handleLeaveRoom, exec.
      by rewrite (try_catch_Throw _ _ _ _ _ (leaveRoom_down s r σ Hr Hc)).
  - split; [|split; [|split]].
    + unfold mem in Hmem. injection Hmem as Hcu _ _ _. by rewrite Hcu.
    + unfold mem in Hmem. injection Hmem as Hcu _ _ _. exists info. by rewrite Hcu.
    + unfold mem in Hmem. injection Hmem as _ Hrp _ _. by rewrite Hrp.
    + unfold σ', step, run, handleLeaveRoom, leaveRoom, exec. by rewrite Hv.
Qed.

Lemma leave_other_room_acknowledged_witness :
  let σ := Scenario.bothInRoom in
  let σ' := step (OpLeaveRoom Scenario.alice1 (Some "r2")) σ in
  connectedUsers σ' !! "u1" =
    Some {| socketId := "s1"; infoUsername := "alice"; currentRoom := Some "r1" |} ∧
  inRoom σ' Scenario.alice1 "r1" ∧
  roomParticipants σ' !! "r1" = roomParticipants σ !! "r1" ∧
  (wellFormed Scenario.alice1 →
   ∃ others, emitted σ' = emitted σ ++ others ++ [("s1", room_left "r2")] ∧
             ∀ k ev, (k, ev) ∈ others → k ≠ "s1").
Proof.
  apply (leave_other_room_acknowledged Scenario.bothInRoom Scenario.alice1
           "r1" (Some "r2")
           {| socketId := "s1"; infoUsername := "alice";
              currentRoom := Some "r1" |}).
  - vm_compute. reflexivity.
  - reflexivity.
  - discriminate.
Defined.

(** C10 as stated fails while the store cannot be reached: alice, in r1,
    asks to leave r2; [Room.findById] throws, the [catch] of
    [handleLeaveRoom] answers "Failed to leave room", and no room-left is
    emitted. *)
Lemma leave_other_room_fails_when_store_down :
  let σ := Outage.bothInRoom in
  let σ' := step (OpLeaveRoom Scenario.alice1 (Some "r2")) σ in
  reachable1 σ ∧ live σ Scenario.alice1 ∧ inRoom σ Scenario.alice1 "r1" ∧
  inRoom σ' Scenario.alice1 "r1" ∧
  emitted σ' = emitted σ ++ [("s1", error_ev "Failed to leave room" None)] ∧
  ∀ k, received k isRoomLeft (drop (length (emitted σ)) (emitted σ')) = 0.
Proof.
  split; [|split; [|split; [|split; [|split]]]].
  - apply (reach_step enabled1 Scenario.bothInRoom (OpStore Outage.store));
      [|split; exact I].
    apply reachable_by_steps; [constructor|]. script_enabled.
  - vm_compute. reflexivity.
  - eexists. split; vm_compute; reflexivity.
  - eexists. split; vm_compute; reflexivity.
  - vm_compute. reflexivity.
  - intros k.
    assert (drop (length (emitted Outage.bothInRoom))
              (emitted (step (OpLeaveRoom Scenario.alice1 (Some "r2"))
                          Outage.bothInRoom))
            = [("s1", error_ev "Failed to leave room" None)]) as ->
      by (vm_compute; reflexivity).
    rewrite received_cons, received_nil. rewrite decide_False; [done|].
    by intros [_ ?].
Qed.

(** ** C5: a rejected send-message request *)

(** C5.  A send-message request that is turned down (roomId or content
    missing, sender not in the room, store unreachable, room missing or
    inactive, message not valid) has one effect: an error event to the
    requesting connection.  Nothing is persisted, nothing is broadcast, the
    registry and the participant index are as before. *)
Theorem rejected_send_only_reports_error σ s roomId content :
  sendRejected σ s roomId content →
  let σ' := step (OpSendMessage s roomId content) σ in
  (∃ message details,
     σ' = setEmitted (λ log, log ++ [(id s, error_ev message details)]) σ) ∧
  messages (database σ') = messages (database σ) ∧
  connectedUsers σ' = connectedUsers σ ∧
  roomParticipants σ' = roomParticipants σ ∧
  (∀ k, received k isNewMessage (drop (length (emitted σ)) (emitted σ')) = 0).
Proof.
  intros Hrej σ'.
  destruct (handleSendMessage_rejects σ s roomId content Hrej)
    as (message & details & Hrun).
  assert (σ' = setEmitted (λ log, log ++ [(id s, error_ev message details)]) σ)
    as Heq by (by apply (exec_Return _ _ tt)).
  split; [eauto|]. rewrite Heq. simpl. repeat split.
  intros k. rewrite drop_app_length, received_cons.
  rewrite decide_False; [done|]. by intros [_ ?].
Qed.

Lemma rejected_send_only_reports_error_witness :
  let σ' := step (OpSendMessage Scenario.alice1 (Some "r1") (Some ""))
              Scenario.aliceInRoom in
  (∃ message details,
     σ' = setEmitted (λ log, log ++ [("s1", error_ev message details)])
            Scenario.aliceInRoom) ∧
  messages (database σ') = messages (database Scenario.aliceInRoom) ∧
  connectedUsers σ' = connectedUsers Scenario.aliceInRoom ∧
  roomParticipants σ' = roomParticipants Scenario.aliceInRoom ∧
  (∀ k, received k isNewMessage
          (drop (length (emitted Scenario.aliceInRoom)) (emitted σ')) = 0).
Proof.
  apply (rejected_send_only_reports_error Scenario.aliceInRoom Scenario.alice1
           (Some "r1") (Some "")).
  apply rejected_missing. right. reflexivity.
Defined.

(** ** C4: the length of the trimmed content *)

Lemma wellFormed_named s : wellFormed s → userId s ≠ "" ∧ username s ≠ "".
Proof.
  intros [Hu [Hn _]]. split; [done|]. intros Heq. rewrite Heq in Hn.
  simpl in Hn. lia.
Qed.

Lemma handleSendMessage_invalid σ s r c rec :
  r ≠ "" → c ≠ "" → inRoom σ s r → connected (database σ) = true →
  rooms (database σ) !! r = Some rec → isActive rec = true →
  validate (sendData s r c) ≠ [] →
  handleSendMessage s (Some r) (Some c) σ =
    (Return tt,
     setEmitted (λ log, log ++
       [(id s, error_ev "Message validation failed"
                 (Some (validate (sendData s r c))))]) σ).
Proof.
  intros Hr Hc Hin Hconn Hrec Hact Hval. unfold handleSendMessage.
  rewrite !truthy_Some_ne by done. unfold try_catch.
  rewrite bind_gets. apply inRoom_check in Hin. rewrite Hin. simpl.
  rewrite (bind_Return _ _ _ _ _ (Room_findById_up r σ Hconn)).
  rewrite Hrec. simpl. rewrite Hact.
  by rewrite (bind_Throw _ _ _ _ _ (Message_create_invalid _ σ Hval)).
Qed.

(** C4 (as amended).  For a send-message request that passes the presence,
    membership and room checks (roomId and content present, sender in the
    room, room found and active, store reachable), the content is trimmed
    and the request fails with the validation error if and only if the
    trimmed content has length 0 or more than 1000; otherwise the message
    is stored with the trimmed content and no error is emitted. *)
Theorem send_validation_after_room_check σ s r c rec :
  r ≠ "" → c ≠ "" → inRoom σ s r → connected (database σ) = true →
  rooms (database σ) !! r = Some rec → isActive rec = true → wellFormed s →
  let σ' := step (OpSendMessage s (Some r) (Some c)) σ in
  let n := String.length (JS.trim c) in
  ((∃ details, emitted σ' =
      emitted σ ++ [(id s, error_ev "Message validation failed" (Some details))])
   ↔ n = 0 ∨ 1000 < n) ∧
  (n = 0 ∨ 1000 < n → messages (database σ') = messages (database σ)) ∧
  (1 ≤ n ≤ 1000 →
   ∃ m, content m = JS.trim c ∧
        messages (database σ') = messages (database σ) ++ [m] ∧
        ∀ k ev, (k, ev) ∈ drop (length (emitted σ)) (emitted σ') →
                isError ev = false).
Proof.
  intros Hr Hc Hin Hconn Hrec Hact Hwf σ' n.
  destruct (wellFormed_named s Hwf) as [Hu Hn].
  destruct (decide (1 ≤ n ≤ 1000)) as [Hok|Hbad].
  - assert (validate (sendData s r c) = []) as Hval
      by (by apply validate_sendData).
    pose proof (handleSendMessage_accepts σ s r c rec Hr Hc Hin Hconn Hrec
                  Hact Hval) as Hrun.
    apply (exec_Return _ _ tt) in Hrun.
    change (σ' = setEmitted (λ log, log ++
         ((λ k, (k, new_message
                      (toClient (messageRecord (sendData s r c) (uuidCounter σ)))))
          <$> elements (ioRooms σ !!! r)))
       (setDatabase
          (setMessages (λ ms, ms ++ [messageRecord (sendData s r c) (uuidCounter σ)]))
          (setUuidCounter S σ))) in Hrun.
    rewrite Hrun. simpl. split; [|split].
    + split; [|lia]. intros (details & Heq). apply app_inv_head in Heq.
      destruct (elements (ioRooms σ !!! r)) as [|k l]; simpl in Heq; [done|].
      by injection Heq.
    + lia.
    + intros _. exists (messageRecord (sendData s r c) (uuidCounter σ)).
      split; [apply trim_trim|]. split; [done|]. intros k ev. rewrite drop_app_length.
      intros (k' & [= -> ->] & _)%list_elem_of_fmap. done.
  - assert (validate (sendData s r c) ≠ []) as Hval.
    { intros Hval. apply validate_sendData in Hval. tauto. }
    pose proof (handleSendMessage_invalid σ s r c rec Hr Hc Hin Hconn Hrec
                  Hact Hval) as Hrun.
    apply (exec_Return _ _ tt) in Hrun.
    change (σ' = setEmitted (λ log, log ++
       [(id s, error_ev "Message validation failed"
                 (Some (validate (sendData s r c))))]) σ) in Hrun.
    rewrite Hrun. simpl. split; [|split].
    + split; [lia|]. eauto.
    + done.
    + lia.
Qed.

Lemma send_validation_after_room_check_witness :
  let σ' := step (OpSendMessage Scenario.alice1 (Some "r1")
                    (Some (JS.repeat "a" 1000))) Scenario.aliceInRoom in
  let n := String.length (JS.trim (JS.repeat "a" 1000)) in
  ((∃ details, emitted σ' =
      emitted Scenario.aliceInRoom ++
      [("s1", error_ev "Message validation failed" (Some details))])
   ↔ n = 0 ∨ 1000 < n) ∧
  (n = 0 ∨ 1000 < n →
   messages (database σ') = messages (database Scenario.aliceInRoom)) ∧
  (1 ≤ n ≤ 1000 →
   ∃ m, content m = JS.trim (JS.repeat "a" 1000) ∧
        messages (database σ') =
          messages (database Scenario.aliceInRoom) ++ [m] ∧
        ∀ k ev, (k, ev) ∈ drop (length (emitted Scenario.aliceInRoom))
                            (emitted σ') →
                isError ev = false).
Proof.
  eapply (send_validation_after_room_check Scenario.aliceInRoom Scenario.alice1
            "r1" (JS.repeat "a" 1000)).
  - discriminate.
  - discriminate.
  - eexists. split; vm_compute; reflexivity.
  - vm_compute. reflexivity.
  - vm_compute. reflexivity.
  - reflexivity.
  - split; [discriminate|]. simpl. lia.
Defined.

(** Content of exactly 1000 characters is accepted: the message is stored
    and broadcast. *)
Example send_1000_characters_accepted :
  let σ' := step (OpSendMessage Scenario.alice1 (Some "r1")
                    (Some (JS.repeat "a" 1000))) Scenario.aliceInRoom in
  content <$> last (messages (database σ')) = Some (JS.repeat "a" 1000) ∧
  snd <$> last (emitted σ') =
    Some (new_message {| cId := 1; cSender := "alice";
                         cMessage := JS.repeat "a" 1000; cType := TMessage |}).
Proof. split; vm_compute; reflexivity. Qed.

(** Content of 1001 characters is refused with the validation error and
    nothing is stored. *)
Example send_1001_characters_refused :
  let σ' := step (OpSendMessage Scenario.alice1 (Some "r1")
                    (Some (JS.repeat "a" 1001))) Scenario.aliceInRoom in
  messages (database σ') = messages (database Scenario.aliceInRoom) ∧
  last (emitted σ') =
    Some ("s1", error_ev "Message validation failed"
                  (Some ["Message content must be no more than 1000 characters long"])).
Proof. split; vm_compute; reflexivity. Qed.

(** C4 as stated leaves out the room check that runs between the membership
    check and the validation: with alice in the deactivated room r1, the
    request with content of three spaces passes the presence and membership
    checks, its trimmed content has length 0, and the error is not the
    validation error. *)
Lemma validation_not_reached_when_room_inactive :
  let σ := Scenario.aliceInInactiveRoom in
  let σ' := step (OpSendMessage Scenario.alice1 (Some "r1") (Some "   ")) σ in
  reachable σ ∧
  JS.truthy (Some "r1") = Some "r1" ∧ JS.truthy (Some "   ") = Some "   " ∧
  inRoom σ Scenario.alice1 "r1" ∧
  String.length (JS.trim "   ") = 0 ∧
  emitted σ' = emitted σ ++ [("s1", error_ev "Room not found or inactive" None)] ∧
  ¬ ∃ details, emitted σ' =
      emitted σ ++ [("s1", error_ev "Message validation failed" (Some details))].
Proof.
  assert (emitted (step (OpSendMessage Scenario.alice1 (Some "r1") (Some "   "))
                     Scenario.aliceInInactiveRoom) =
          emitted Scenario.aliceInInactiveRoom ++
          [("s1", error_ev "Room not found or inactive" None)]) as Hem
    by (vm_compute; reflexivity).
  split; [|split; [|split; [|split; [|split; [|split]]]]].
  - apply (reach_step enabled Scenario.aliceInRoom (OpStore Scenario.storeInactive));
      [|exact I].
    apply reachable_by_steps; [constructor|]. script_enabled.
  - reflexivity.
  - reflexivity.
  - eexists. split; vm_compute; reflexivity.
  - reflexivity.
  - exact Hem.
  - intros (details & Heq). rewrite Hem in Heq.
    apply app_inv_head in Heq. discriminate.
Qed.

(** ** C3: a valid message is stored, then fanned out *)

(** C3 (as amended).  In any state, a valid send-message request (roomId
    and content present, sender in the room, room found and active, trimmed
    content of 1 to 1000 characters) stores one Message of type "message"
    with the trimmed content and the sender id and name of the
    authenticated connection, and then delivers exactly one new-message
    event to every connection in the room's transport group and none to
    any other; nothing else changes.  In a state reached with at most one
    live connection per user and every event handled to completion before
    the next, these connections are the connections of the room's
    participants: every participant has a live connection that receives
    exactly one new-message, the sender's connection included, and
    connections of other users receive none. *)
Theorem valid_send_stored_then_fanned_out σ s r c rec :
  wellFormed s →
  r ≠ "" → c ≠ "" → inRoom σ s r → connected (database σ) = true →
  rooms (database σ) !! r = Some rec → isActive rec = true →
  1 ≤ String.length (JS.trim c) ≤ 1000 →
  let σ' := step (OpSendMessage s (Some r) (Some c)) σ in
  ∃ m new,
    messages (database σ') = messages (database σ) ++ [m] ∧
    messageType m = TMessage ∧ content m = JS.trim c ∧
    senderId m = userId s ∧ senderUsername m = username s ∧ roomId m = r ∧
    emitted σ' = emitted σ ++ new ∧
    mem σ' = mem σ ∧ rooms (database σ') = rooms (database σ) ∧
    (∀ k ev, (k, ev) ∈ new → ev = new_message (toClient m)) ∧
    (∀ k, received k isNewMessage new =
          if decide (k ∈ ioRooms σ !!! r) then 1 else 0) ∧
    (reachable1 σ → live σ s →
     (∀ u, u ∈ roomParticipants σ !!! r →
           ∃ t, live σ t ∧ userId t = u ∧ received (id t) isNewMessage new = 1) ∧
     received (id s) isNewMessage new = 1 ∧
     (∀ t, live σ t → userId t ∉ roomParticipants σ !!! r →
           received (id t) isNewMessage new = 0)).
Proof.
  intros Hwf Hr Hc Hin Hconn Hrec Hact Hlen σ'.
  destruct (wellFormed_named s Hwf) as [Hu Hn].
  assert (validate (sendData s r c) = []) as Hval by (by apply validate_sendData).
  pose proof (handleSendMessage_accepts σ s r c rec Hr Hc Hin Hconn Hrec
                Hact Hval) as Hrun.
  apply (exec_Return _ _ tt) in Hrun.
  set (m := messageRecord (sendData s r c) (uuidCounter σ)) in *.
  set (new := (λ k, (k, new_message (toClient m))) <$> elements (ioRooms σ !!! r)).
  change (σ' = setEmitted (λ log, log ++ new)
                 (setDatabase (setMessages (λ ms, ms ++ [m]))
                    (setUuidCounter S σ))) in Hrun.
  assert (∀ k, received k isNewMessage new =
               if decide (k ∈ ioRooms σ !!! r) then 1 else 0) as Hcount.
  { intros k. unfold new. by rewrite received_fanout. }
  exists m, new. rewrite Hrun. simpl.
  split; [done|]. split; [done|]. split; [apply trim_trim|].
  split; [done|]. split; [done|]. split; [done|]. split; [done|].
  split; [done|]. split; [done|].
  split. { intros k ev (k' & [= -> ->] & _)%list_elem_of_fmap. done. }
  split; [done|].
  intros Hreach Hs.
  pose proof (reachable1_consistent σ Hreach) as Hcons.
  split; [|split].
  - intros u Hu'. apply (cons_index σ Hcons) in Hu' as (info & Hi & Hroom).
    destruct (cons_live σ Hcons _ _ _ Hi Hroom) as (k & t & Ht & Hut).
    pose proof (cons_key σ Hcons _ _ Ht) as Hk. subst k.
    exists t. split; [done|]. split; [done|].
    rewrite Hcount, decide_True; [done|].
    apply (consistent_room_member σ t r Hcons Ht).
    apply (cons_index σ Hcons). rewrite Hut. eauto.
  - rewrite Hcount, decide_True; [done|].
    apply (consistent_room_member σ s r Hcons Hs).
    by apply (cons_index σ Hcons).
  - intros t Ht Hnot. rewrite Hcount, decide_False; [done|].
    by rewrite (consistent_room_member σ t r Hcons Ht).
Qed.

Lemma valid_send_stored_then_fanned_out_witness :
  let σ := Scenario.bothInRoom in
  let σ' := step (OpSendMessage Scenario.bob1 (Some "r1") (Some " hello ")) σ in
  ∃ m new,
    messages (database σ') = messages (database σ) ++ [m] ∧
    messageType m = TMessage ∧ content m = JS.trim " hello " ∧
    senderId m = "u2" ∧ senderUsername m = "bob" ∧ roomId m = "r1" ∧
    emitted σ' = emitted σ ++ new ∧
    mem σ' = mem σ ∧ rooms (database σ') = rooms (database σ) ∧
    (∀ k ev, (k, ev) ∈ new → ev = new_message (toClient m)) ∧
    (∀ k, received k isNewMessage new =
          if decide (k ∈ ioRooms σ !!! "r1") then 1 else 0) ∧
    (reachable1 σ → live σ Scenario.bob1 →
     (∀ u, u ∈ roomParticipants σ !!! "r1" →
           ∃ t, live σ t ∧ userId t = u ∧ received (id t) isNewMessage new = 1) ∧
     received "s3" isNewMessage new = 1 ∧
     (∀ t, live σ t → userId t ∉ roomParticipants σ !!! "r1" →
           received (id t) isNewMessage new = 0)).
Proof.
  eapply (valid_send_stored_then_fanned_out Scenario.bothInRoom Scenario.bob1
            "r1" " hello ").
  - split; [discriminate|]. simpl. lia.
  - discriminate.
  - discriminate.
  - eexists. split; vm_compute; reflexivity.
  - vm_compute. reflexivity.
  - vm_compute. reflexivity.
  - reflexivity.
  - simpl. lia.
Defined.

(** C3 as stated fails when a user has two connections: alice's first
    socket joined r1, her second socket did not; the registry, keyed by
    userId, says alice is in r1, so the message of the second socket is
    accepted and stored, and the new-message event goes to the first socket
    only: the sending connection receives none. *)
Lemma sender_without_echo_on_second_connection :
  let σ := Scenario.twoTabs in
  let σ' := step (OpSendMessage Scenario.alice2 (Some "r1") (Some "hi")) σ in
  reachable σ ∧ live σ Scenario.alice2 ∧ inRoom σ Scenario.alice2 "r1" ∧
  connected (database σ) = true ∧
  (isActive <$> rooms (database σ) !! "r1") = Some true ∧
  (content <$> last (messages (database σ'))) = Some "hi" ∧
  length (messages (database σ')) = S (length (messages (database σ))) ∧
  received "s2" isNewMessage (drop (length (emitted σ)) (emitted σ')) = 0.
Proof.
  split; [|split; [|split; [|split; [|split; [|split; [|split]]]]]].
  - apply reachable_by_steps; [constructor|].
    unfold Scenario.twoTabs. script_enabled.
  - vm_compute. reflexivity.
  - eexists. split; vm_compute; reflexivity.
  - vm_compute. reflexivity.
  - vm_compute. reflexivity.
  - vm_compute. reflexivity.
  - vm_compute. reflexivity.
  - vm_compute. reflexivity.
Qed.

(** ** C6: disconnecting *)

Lemma closed_others k r (g : gmap string (gset string)) :
  ((λ members, members ∖ {[k]}) <$> g) !!! r ∖ {[k]} = g !!! r ∖ {[k]}.
Proof.
  rewrite !lookup_total_alt, lookup_fmap.
  destruct (g !! r); simpl; set_solver.
Qed.

Lemma leaveEvents_closed s r σ :
  leaveEvents s r (closeMem s σ) = leaveEvents s r σ.
Proof. unfold leaveEvents. simpl. by rewrite closed_others. Qed.

Lemma database_eq (db db' : Database) :
  connected db = connected db' → users db = users db' →
  rooms db = rooms db' → messages db = messages db' → db = db'.
Proof. destruct db, db'. simpl. by intros -> -> -> ->. Qed.

Lemma hasLeft_database s r σa σb σa' σb' :
  database σa = database σb → uuidCounter σa = uuidCounter σb →
  hasLeft s r σa σa' → hasLeft s r σb σb' → database σa' = database σb'.
Proof.
  intros Hdb Huuid [_ _ Hc Hu _ Hr Hm _] [_ _ Hc' Hu' _ Hr' Hm' _].
  apply database_eq; by rewrite ?Hc, ?Hc', ?Hu, ?Hu', ?Hr, ?Hr', ?Hm, ?Hm',
    ?Hdb, ?Huuid.
Qed.

Lemma step_disconnect_in_room σ s r info :
  connectedUsers σ !! userId s = Some info → currentRoom info = Some r →
  r ≠ "" → connected (database σ) = true → wellFormed s →
  ∃ σ1, hasLeft s r (closeMem s σ) σ1 ∧
        step (OpDisconnect s) σ = setConnectedUsers (delete (userId s)) σ1.
Proof.
  intros Hinfo Hroom Hr Hconn Hwf.
  destruct (leaveRoom_completes s r (closeMem s σ) Hr Hconn Hwf)
    as (σ1 & Hrun & Hleft).
  exists σ1. split; [done|].
  unfold step, run, io_close. apply (exec_Return _ _ tt).
  rewrite bind_modify. fold (closeMem s σ). unfold handleDisconnect.
  rewrite bind_gets.
  change (connectedUsers (closeMem s σ)) with (connectedUsers σ).
  rewrite Hinfo, Hroom, truthy_Some_ne by done.
  by rewrite (bind_Return _ _ _ _ _ Hrun).
Qed.

Lemma step_disconnect_no_room σ s info :
  connectedUsers σ !! userId s = Some info → currentRoom info = None →
  step (OpDisconnect s) σ =
    setConnectedUsers (delete (userId s)) (closeMem s σ).
Proof.
  intros Hinfo Hroom. unfold step, run, io_close. apply (exec_Return _ _ tt).
  rewrite bind_modify. fold (closeMem s σ). unfold handleDisconnect.
  rewrite bind_gets.
  change (connectedUsers (closeMem s σ)) with (connectedUsers σ).
  by rewrite Hinfo, Hroom.
Qed.

Lemma received_leaveEvents s r σ k :
  is_Some (rooms (database σ) !! r) → k ≠ id s →
  received k isUserLeft (leaveEvents s r σ) =
    (if decide (k ∈ ioRooms σ !!! r) then 1 else 0) ∧
  received k isParticipantsUpdate (leaveEvents s r σ) =
    (if decide (k ∈ ioRooms σ !!! r) then 1 else 0).
Proof.
  intros [rec Hrec] Hk. unfold leaveEvents. rewrite Hrec.
  rewrite !received_app, !received_fanout, !received_cons, !received_nil.
  simpl.
  rewrite !(decide_False (P := (id s = k ∧ _))) by (by intros [? _]).
  destruct (decide (k ∈ ioRooms σ !!! r)) as [Hin|Hnin].
  - rewrite !decide_True by set_solver. done.
  - rewrite !decide_False by set_solver. done.
Qed.

(** C6 (as amended).  With the store reachable, when a connection
    disconnects while its current room is R, the handler leaves the server
    as an explicit leave of R does (same participant index, with the user
    out of RoomParticipants[R]; same stored data; same events) and then
    removes the user's registry entry.  If the record of R is still in the
    room store, every other connection in R's transport group receives
    exactly one user-left and one participants-update event, and no
    connection outside it receives any; if the record is gone, no event
    goes to other connections.  In a state reached with at most one live
    connection per user and every event handled to completion before the
    next, the connections in R's transport group are those of R's
    participants, so that every remaining participant has a live
    connection that receives exactly one user-left and one
    participants-update.  If the current room is null, only the registry
    entry is removed. *)
Theorem disconnect_leaves_room_then_unregisters σ s info :
  connectedUsers σ !! userId s = Some info →
  connected (database σ) = true → wellFormed s →
  let σd := step (OpDisconnect s) σ in
  match currentRoom info with
  | Some r =>
      r ≠ "" →
      let σl := step (OpLeaveRoom s (Some r)) σ in
      let new := drop (length (emitted σ)) (emitted σd) in
      roomParticipants σd = roomParticipants σl ∧
      (userId s ∉ roomParticipants σd !!! r) ∧
      emitted σd = emitted σl ∧
      database σd = database σl ∧
      connectedUsers σd = delete (userId s) (connectedUsers σ) ∧
      (is_Some (rooms (database σ) !! r) →
       (∀ k, k ≠ id s →
          received k isUserLeft new =
            (if decide (k ∈ ioRooms σ !!! r) then 1 else 0) ∧
          received k isParticipantsUpdate new =
            (if decide (k ∈ ioRooms σ !!! r) then 1 else 0)) ∧
       (reachable1 σ → live σ s →
        ∀ u, u ∈ roomParticipants σd !!! r →
          ∃ t, live σd t ∧ userId t = u ∧
               received (id t) isUserLeft new = 1 ∧
               received (id t) isParticipantsUpdate new = 1)) ∧
      (rooms (database σ) !! r = None → new = [(id s, room_left r)])
  | None => σd = setConnectedUsers (delete (userId s)) (closeMem s σ)
  end.
Proof.
  intros Hinfo Hconn Hwf σd.
  destruct (currentRoom info) as [r|] eqn:Hroom;
    [|by apply (step_disconnect_no_room σ s info)].
  intros Hr σl new.
  destruct (step_disconnect_in_room σ s r info Hinfo Hroom Hr Hconn Hwf)
    as (σ1 & Hleft1 & Hd).
  destruct (leaveRoom_completes s r σ Hr Hconn Hwf) as (σ2 & Hrun2 & Hleft2).
  assert (σl = σ2) as Hl.
  { unfold σl, step, run, handleLeaveRoom.
    apply (exec_Return _ _ tt). by apply try_catch_Return. }
  change (σd = setConnectedUsers (delete (userId s)) σ1) in Hd.
  pose proof (left_mem _ _ _ _ Hleft1) as Hm1.
  pose proof (left_mem _ _ _ _ Hleft2) as Hm2.
  unfold mem in Hm1, Hm2. simpl in Hm1, Hm2.
  injection Hm1 as Hcu1 Hrp1 Hso1 Hio1. injection Hm2 as Hcu2 Hrp2 Hso2 Hio2.
  pose proof (left_emitted _ _ _ _ Hleft1) as He1.
  rewrite leaveEvents_closed in He1. simpl in He1.
  pose proof (left_emitted _ _ _ _ Hleft2) as He2.
  assert (new = leaveEvents s r σ) as Hnew.
  { unfold new. rewrite Hd. simpl. rewrite He1. by rewrite drop_app_length. }
  assert (roomParticipants σd = indexRemove (userId s) r (roomParticipants σ))
    as Hrpd by (by rewrite Hd).
  split; [by rewrite Hrpd, Hl, Hrp2|].
  split. { rewrite Hrpd, elem_of_indexRemove. tauto. }
  split. { rewrite Hd, Hl. simpl. by rewrite He1, He2. }
  split. { rewrite Hd, Hl. simpl. by apply (hasLeft_database s r (closeMem s σ) σ). }
  split. { rewrite Hd. simpl. rewrite Hcu1. apply delete_alter_eq. }
  split.
  - intros Hrec. split.
    + intros k Hk. rewrite Hnew. by apply received_leaveEvents.
    + intros Hreach Hs u Hu.
      pose proof (reachable1_consistent σ Hreach) as Hcons.
      rewrite Hrpd in Hu. apply elem_of_indexRemove in Hu as [Hu Hne].
      assert (u ≠ userId s) as Hus by tauto.
      pose proof Hu as Hu'.
      apply (cons_index σ Hcons) in Hu' as (info' & Hi' & Hroom').
      destruct (cons_live σ Hcons _ _ _ Hi' Hroom') as (k & t & Ht & Hut).
      pose proof (cons_key σ Hcons _ _ Ht) as Hk. subst k.
      assert (id t ≠ id s) as Hts.
      { intros Heq. unfold live in Hs. rewrite Heq, Hs in Ht. by simplify_eq. }
      exists t. split.
      { unfold live. rewrite Hd. simpl. rewrite Hso1. simpl.
        by rewrite lookup_delete_ne. }
      split; [done|]. rewrite Hnew.
      destruct (received_leaveEvents s r σ (id t) Hrec Hts) as [-> ->].
      rewrite decide_True; [done|].
      apply (consistent_room_member σ t r Hcons Ht). by rewrite Hut.
  - intros Hnone. rewrite Hnew. unfold leaveEvents. by rewrite Hnone.
Qed.

Lemma disconnect_leaves_room_then_unregisters_witness :
  let σd := step (OpDisconnect Scenario.alice1) Scenario.bothInRoom in
  let σl := step (OpLeaveRoom Scenario.alice1 (Some "r1")) Scenario.bothInRoom in
  let new := drop (length (emitted Scenario.bothInRoom)) (emitted σd) in
  roomParticipants σd = roomParticipants σl ∧
  ("u1" ∉ roomParticipants σd !!! "r1") ∧
  emitted σd = emitted σl ∧
  database σd = database σl ∧
  connectedUsers σd = delete "u1" (connectedUsers Scenario.bothInRoom) ∧
  (is_Some (rooms (database Scenario.bothInRoom) !! "r1") →
   (∀ k, k ≠ "s1" →
      received k isUserLeft new =
        (if decide (k ∈ ioRooms Scenario.bothInRoom !!! "r1") then 1 else 0) ∧
      received k isParticipantsUpdate new =
        (if decide (k ∈ ioRooms Scenario.bothInRoom !!! "r1") then 1 else 0)) ∧
   (reachable1 Scenario.bothInRoom → live Scenario.bothInRoom Scenario.alice1 →
    ∀ u, u ∈ roomParticipants σd !!! "r1" →
      ∃ t, live σd t ∧ userId t = u ∧
           received (id t) isUserLeft new = 1 ∧
           received (id t) isParticipantsUpdate new = 1)) ∧
  (rooms (database Scenario.bothInRoom) !! "r1" = None →
   new = [("s1", room_left "r1")]).
Proof.
  refine (disconnect_leaves_room_then_unregisters Scenario.bothInRoom
            Scenario.alice1
            {| socketId := "s1"; infoUsername := "alice";
               currentRoom := Some "r1" |} _ _ _ _).
  - vm_compute. reflexivity.
  - vm_compute. reflexivity.
  - split; [discriminate|]. simpl. lia.
  - discriminate.
Defined.

(** C6 as stated fails when the room's record was deleted while it still
    had participants: alice and bob are in r1, r1 is deleted through the
    REST interface, alice disconnects; bob stays a participant and his
    connection receives neither user-left nor participants-update. *)
Lemma disconnect_silent_when_room_deleted :
  let σ := Scenario.bothInDeletedRoom in
  let σd := step (OpDisconnect Scenario.alice1) σ in
  let new := drop (length (emitted σ)) (emitted σd) in
  reachable1 σ ∧ live σ Scenario.alice1 ∧ inRoom σ Scenario.alice1 "r1" ∧
  live σd Scenario.bob1 ∧ "u2" ∈ roomParticipants σd !!! "r1" ∧
  received "s3" isUserLeft new = 0 ∧
  received "s3" isParticipantsUpdate new = 0.
Proof.
  split; [|split; [|split; [|split; [|split; [|split]]]]].
  - apply (reach_step enabled1 Scenario.bothInRoom (OpStore Scenario.storeDeleted));
      [|split; exact I].
    apply reachable_by_steps; [constructor|]. script_enabled.
  - vm_compute. reflexivity.
  - eexists. split; vm_compute; reflexivity.
  - vm_compute. reflexivity.
  - vm_compute. reflexivity.
  - vm_compute. reflexivity.
  - vm_compute. reflexivity.
Qed.

(** ** C2: one room at a time *)

(** Two instances of a stored room that differ in the participants they
    were loaded with behave alike while the record exists. *)
Lemma Room_addParticipant_ext room room' u σ :
  rId room = rId room' → rName room = rName room' →
  rCreatedBy room = rCreatedBy room' → rIsActive room = rIsActive room' →
  is_Some (rooms (database σ) !! rId room) →
  Room_addParticipant room u σ = Room_addParticipant room' u σ.
Proof.
  intros Hid Hname Hby Hact [rec Hrec]. unfold Room_addParticipant.
  destruct (JS.isEmpty u); [done|].
  unfold Room_participants. rewrite !bind_gets. rewrite <- Hid, Hrec.
  case_bool_decide; [done|].
  unfold Room_save. by rewrite <- Hid, <- Hname, <- Hby, <- Hact.
Qed.

Lemma bind_congr {A B} (m m' : M A) (k k' : A → M B) σ :
  m σ = m' σ → (∀ a σ1, k a σ1 = k' a σ1) → bind m k σ = bind m' k' σ.
Proof.
  intros Hm Hk. unfold bind. rewrite Hm.
  by destruct (m' σ) as [[a|e] σ1].
Qed.

Lemma joinStatements_ext s r room room' (ui ui' : option UserInfo) σ :
  rId room = rId room' → rName room = rName room' →
  rCreatedBy room = rCreatedBy room' → rIsActive room = rIsActive room' →
  is_Some (rooms (database σ) !! rId room) →
  (is_Some ui ↔ is_Some ui') →
  joinStatements s r room ui σ = joinStatements s r room' ui' σ.
Proof.
  intros Hid Hname Hby Hact Hrec Hui. unfold joinStatements, socket_join.
  rewrite !bind_modify.
  assert (∀ (k : unit → M unit) σ0,
    bind (match ui with
          | Some _ => modify (setConnectedUsers (alter (setRoom r) (userId s)))
          | None => ret tt end) k σ0 =
    bind (match ui' with
          | Some _ => modify (setConnectedUsers (alter (setRoom r) (userId s)))
          | None => ret tt end) k σ0) as Hsame.
  { intros k σ0. destruct ui, ui'; try done.
    - destruct Hui as [Hui _]. by destruct Hui.
    - destruct Hui as [_ Hui]. by destruct Hui. }
  rewrite Hsame. clear Hsame.
  destruct ui' as [i'|].
  - rewrite !bind_modify. apply bind_congr.
    + by apply Room_addParticipant_ext.
    + intros [] σ1. by rewrite Hname.
  - rewrite !bind_ret, !bind_modify. apply bind_congr.
    + by apply Room_addParticipant_ext.
    + intros [] σ1. by rewrite Hname.
Qed.

Lemma joined_others k r (g : gmap string (gset string)) :
  <[r := {[k]} ∪ g !!! r]> g !!! r ∖ {[k]} = g !!! r ∖ {[k]}.
Proof. rewrite lookup_total_insert_eq. set_solver. Qed.

Lemma joinStatements_completes σ s r rec info :
  r ≠ "" → connected (database σ) = true →
  rooms (database σ) !! r = Some rec → wellFormed s →
  connectedUsers σ !! userId s = Some info →
  ∃ σ', joinStatements s r (newRoom r rec) (Some info) σ = (Return tt, σ') ∧
        hasJoined s r rec σ σ'.
Proof.
  intros Hr Hc Hrec Hwf Hinfo. unfold joinStatements, socket_join.
  rewrite !bind_modify. fold (joinMem s r σ). set (σ1 := joinMem s r σ).
  destruct (Room_addParticipant_up r rec (userId s) σ1)
    as (σ2 & Hrun & Hro & Hstored); [apply Hwf|done|done|].
  rewrite (bind_Return _ _ _ _ _ Hrun).
  destruct Hro as [Hmem Hem Huuid Hconn Husers Hmsgs Hrooms].
  unfold createUserJoinedNotification, createNotification.
  rewrite (bind_Return _ _ _ _ _ (Message_create_up _ σ2
    (validate_notification r (username s) " joined the room" Hr eq_refl
       (wellFormed_joined s Hwf))
    (eq_trans Hconn Hc))).
  unfold socket_to_emit, io_to_emit. rewrite bind_modify, bind_gets, bind_modify.
  eexists. split; [reflexivity|].
  assert (ioRooms σ2 = ioRooms σ1) as Hio by (unfold mem in Hmem; congruence).
  split; simpl.
  - done.
  - rewrite Hem, Hio, Huuid. simpl. unfold joinEvents.
    rewrite joined_others, lookup_total_insert_eq. rewrite <- !app_assoc.
    erewrite (getRoomParticipantsList_mem _ (joinMem s r σ)); [done|].
    unfold mem in *. simpl in *. congruence.
  - by rewrite Hconn.
  - done.
  - by rewrite Hmsgs, Huuid.
  - exact Hstored.
Qed.

Lemma handleJoinRoom_from_no_room σ s b rec info :
  b ≠ "" → connected (database σ) = true →
  rooms (database σ) !! b = Some rec → isActive rec = true → wellFormed s →
  connectedUsers σ !! userId s = Some info →
  JS.truthy (currentRoom info) = None →
  ∃ σ', handleJoinRoom s (Some b) σ = (Return tt, σ') ∧ hasJoined s b rec σ σ'.
Proof.
  intros Hb Hc Hrec Hact Hwf Hinfo Hnone.
  destruct (joinStatements_completes σ s b rec info Hb Hc Hrec Hwf Hinfo)
    as (σ' & Hrun & Hjoined).
  exists σ'. split; [|done].
  unfold handleJoinRoom. rewrite truthy_Some_ne by done.
  apply try_catch_Return.
  rewrite (bind_Return _ _ _ _ _ (Room_findById_up b σ Hc)), Hrec. simpl.
  rewrite Hact. simpl. rewrite bind_gets, Hinfo, Hnone, bind_ret. done.
Qed.

Lemma handleJoinRoom_switch σ s a b rec info :
  connectedUsers σ !! userId s = Some info → currentRoom info = Some a →
  a ≠ "" → b ≠ "" → connected (database σ) = true →
  rooms (database σ) !! b = Some rec → isActive rec = true → wellFormed s →
  ∃ σ1 σ' rec1,
    leaveRoom s (Some a) σ = (Return tt, σ1) ∧ hasLeft s a σ σ1 ∧
    rooms (database σ1) !! b = Some rec1 ∧ name rec1 = name rec ∧
    handleJoinRoom s (Some b) σ = (Return tt, σ') ∧
    handleJoinRoom s (Some b) σ1 = (Return tt, σ') ∧
    hasJoined s b rec1 σ1 σ'.
Proof.
  intros Hinfo Hroom Ha Hb Hc Hrec Hact Hwf.
  destruct (leaveRoom_completes s a σ Ha Hc Hwf) as (σ1 & Hleave & Hleft).
  pose proof (left_rooms _ _ _ _ Hleft b) as Hsame. rewrite Hrec in Hsame.
  destruct (rooms (database σ1) !! b) as [rec1|] eqn:Hrec1; [|done].
  destruct Hsame as (Hname & Hby & Hact1).
  pose proof (left_mem _ _ _ _ Hleft) as Hmem.
  unfold mem in Hmem. simpl in Hmem. injection Hmem as Hcu _ _ _.
  assert (connectedUsers σ1 !! userId s = Some (clearRoom a info)) as Hinfo1.
  { by rewrite Hcu, lookup_alter_eq, Hinfo. }
  assert (JS.truthy (currentRoom (clearRoom a info)) = None) as Hnone.
  { unfold clearRoom. by rewrite bool_decide_true. }
  assert (connected (database σ1) = true) as Hc1
    by (by rewrite (left_connected _ _ _ _ Hleft)).
  assert (isActive rec1 = true) as Hact1' by congruence.
  destruct (handleJoinRoom_from_no_room σ1 s b rec1 (clearRoom a info)
              Hb Hc1 Hrec1 Hact1' Hwf Hinfo1 Hnone) as (σ' & Hjoin1 & Hjoined).
  exists σ1, σ', rec1. split; [done|]. split; [done|]. split; [done|].
  split; [done|]. split; [|done].
  rewrite <- Hjoin1. unfold handleJoinRoom. rewrite truthy_Some_ne by done.
  unfold try_catch.
  rewrite (bind_Return _ _ _ _ _ (Room_findById_up b σ Hc)), Hrec.
  rewrite (bind_Return _ _ _ _ _ (Room_findById_up b σ1 Hc1)), Hrec1.
  simpl. rewrite Hact, Hact1'. simpl.
  rewrite !bind_gets, Hinfo, Hinfo1, Hnone, Hroom, bind_ret.
  rewrite truthy_Some_ne by done.
  rewrite (bind_Return _ _ _ _ _ Hleave).
  assert (is_Some (rooms (database σ1) !! rId (newRoom b rec))) as Hsome
    by (simpl; rewrite Hrec1; eauto).
  assert (is_Some (Some info) ↔ is_Some (Some (clearRoom a info))) as Hboth
    by (split; eauto).
  rewrite (joinStatements_ext s b (newRoom b rec) (newRoom b rec1)
             (Some info) (Some (clearRoom a info)) σ1 eq_refl
             (eq_sym Hname) (eq_sym Hby) (eq_sym Hact1) Hsome Hboth).
  reflexivity.
Qed.

Lemma leaveEvents_ack s r σ :
  ∃ before, leaveEvents s r σ = before ++ [(id s, room_left r)].
Proof. unfold leaveEvents. eauto. Qed.

Lemma joinEvents_reply s r rec σ :
  ∃ between ps,
    joinEvents s r rec σ = between ++ [(id s, room_joined r (name rec) ps)].
Proof. unfold joinEvents. eexists _, _. by rewrite app_assoc. Qed.

Lemma inRoom_functional σ s r1 r2 : inRoom σ s r1 → inRoom σ s r2 → r1 = r2.
Proof. intros (i1 & H1 & Hr1) (i2 & H2 & Hr2). congruence. Qed.

Lemma consistent_memberOf σ s r :
  consistent σ → live σ s → memberOf σ s r ↔ inRoom σ s r.
Proof.
  intros Hc Hs. unfold memberOf. split; [|by left].
  intros [H|[H|H]]; [done| |].
  - by apply (cons_index σ Hc) in H.
  - apply (cons_rooms σ Hc) in H as (t & info & Ht & Hi & Hr).
    unfold live in Hs. rewrite Hs in Ht. simplify_eq. by exists info.
Qed.

Lemma consistent_oneRoom σ : consistent σ → oneRoomPerConnection σ.
Proof.
  intros Hc s r1 r2 Hs H1 H2.
  apply (consistent_memberOf σ s r1 Hc Hs) in H1.
  apply (consistent_memberOf σ s r2 Hc Hs) in H2.
  by apply (inRoom_functional σ s).
Qed.

(** C2 (as amended).  In every state reached with at most one live
    connection per user and every event handled to completion before the
    next, a connection is in at most one room: the current room of its
    registry entry, the participant set that holds its user and the
    transport group that holds its socket are one and the same room.  When
    an accepted join-room request for B is handled in such a state for a
    connection whose current room is A, the full leaveRoom steps for A are
    applied first: the state is what an explicit leave of A makes of it
    (socket out of A's transport group, current room cleared, user out of
    RoomParticipants[A] and of A's stored participant list, the
    notification stored, user-left and participants-update sent to the
    others, room-left to the connection), followed by what a join of B from
    no room makes of that (user in B's set and stored list, current room B,
    the notification stored, the events sent).  The room-left
    acknowledgment for A precedes the room-joined reply for B, and the
    connection ends a member of B only. *)
Theorem join_leaves_current_room_first σ :
  reachable1 σ →
  oneRoomPerConnection σ ∧
  ∀ s a b rec info,
    live σ s → wellFormed s →
    connectedUsers σ !! userId s = Some info → currentRoom info = Some a →
    b ≠ "" → connected (database σ) = true →
    rooms (database σ) !! b = Some rec → isActive rec = true →
    let σ1 := step (OpLeaveRoom s (Some a)) σ in
    let σ' := step (OpJoinRoom s (Some b)) σ in
    hasLeft s a σ σ1 ∧
    σ' = step (OpJoinRoom s (Some b)) σ1 ∧
    (∃ rec1, rooms (database σ1) !! b = Some rec1 ∧ name rec1 = name rec ∧
             hasJoined s b rec1 σ1 σ') ∧
    (∃ before between ps,
       emitted σ' = emitted σ ++ before ++ (id s, room_left a) :: between
                    ++ [(id s, room_joined b (name rec) ps)]) ∧
    (∀ r, memberOf σ' s r ↔ r = b) ∧
    oneRoomPerConnection σ'.
Proof.
  intros Hreach. pose proof (reachable1_consistent σ Hreach) as Hcons.
  split; [by apply consistent_oneRoom|].
  intros s a b rec info Hs Hwf Hinfo Hroom Hb Hc Hrec Hact σ1 σ'.
  assert (a ≠ "") as Ha.
  { intros ->. by apply (cons_truthy σ Hcons _ _ Hinfo). }
  destruct (handleJoinRoom_switch σ s a b rec info Hinfo Hroom Ha Hb Hc Hrec
              Hact Hwf)
    as (τ1 & τ2 & rec1 & Hleave & Hleft & Hrec1 & Hname & Hjoin & Hjoin1
        & Hjoined).
  assert (σ1 = τ1) as Heq1.
  { unfold σ1, step, run, handleLeaveRoom.
    apply (exec_Return _ _ tt). by apply try_catch_Return. }
  assert (σ' = τ2) as Heq by (apply (exec_Return _ _ tt); exact Hjoin).
  clearbody σ1 σ'. subst σ1 σ'.
  assert (reachable1 τ2) as Hreach2.
  { rewrite <- (exec_Return _ _ _ _ Hjoin).
    apply (reach_step enabled1 σ (OpJoinRoom s (Some b)) Hreach). by split. }
  pose proof (reachable1_consistent τ2 Hreach2) as Hcons2.
  assert (live τ2 s) as Hs2.
  { unfold live. pose proof (joined_mem _ _ _ _ _ Hjoined) as Hm2.
    pose proof (left_mem _ _ _ _ Hleft) as Hm1.
    unfold mem in Hm1, Hm2. simpl in Hm1, Hm2.
    injection Hm1 as _ _ Hso1 _. injection Hm2 as _ _ Hso2 _.
    by rewrite Hso2, Hso1. }
  assert (∀ r, inRoom τ2 s r ↔ r = b) as Hin.
  { pose proof (joined_mem _ _ _ _ _ Hjoined) as Hm2.
    pose proof (left_mem _ _ _ _ Hleft) as Hm1.
    unfold mem in Hm1, Hm2. simpl in Hm1, Hm2.
    injection Hm1 as Hcu1 _ _ _. injection Hm2 as Hcu2 _ _ _.
    intros r. unfold inRoom.
    rewrite Hcu2, Hcu1, lookup_alter_eq, lookup_alter_eq, Hinfo.
    simpl. split; [intros (i & [= <-] & Hr); simpl in Hr; congruence|].
    intros ->. eauto. }
  split; [done|].
  split. { symmetry. apply (exec_Return _ _ tt). exact Hjoin1. }
  split.
  { by exists rec1. }
  split.
  { rewrite (joined_emitted _ _ _ _ _ Hjoined), (left_emitted _ _ _ _ Hleft).
    destruct (leaveEvents_ack s a σ) as [before ->].
    destruct (joinEvents_reply s b rec1 τ1) as (between & ps & ->).
    exists before, between, ps. rewrite Hname, <- !app_assoc. done. }
  split; [|by apply consistent_oneRoom].
  intros r. rewrite (consistent_memberOf τ2 s r Hcons2 Hs2). apply Hin.
Qed.

Lemma join_leaves_current_room_first_witness :
  let σ := Scenario.bothInRoom in
  let s := Scenario.alice1 in
  let σ1 := step (OpLeaveRoom s (Some "r1")) σ in
  let σ' := step (OpJoinRoom s (Some "r2")) σ in
  oneRoomPerConnection σ ∧
  hasLeft s "r1" σ σ1 ∧
  σ' = step (OpJoinRoom s (Some "r2")) σ1 ∧
  (∃ rec1, rooms (database σ1) !! "r2" = Some rec1 ∧ name rec1 = "General" ∧
           hasJoined s "r2" rec1 σ1 σ') ∧
  (∃ before between ps,
     emitted σ' = emitted σ ++ before ++ (id s, room_left "r1") :: between
                  ++ [(id s, room_joined "r2" "General" ps)]) ∧
  (∀ r, memberOf σ' s r ↔ r = "r2") ∧
  oneRoomPerConnection σ'.
Proof.
  assert (reachable1 Scenario.bothInRoom) as Hreach.
  { apply reachable_by_steps; [constructor|]. script_enabled. }
  destruct (join_leaves_current_room_first Scenario.bothInRoom Hreach)
    as [Hone Hswitch].
  split; [exact Hone|].
  refine (Hswitch Scenario.alice1 "r1" "r2" Scenario.general
            {| socketId := "s1"; infoUsername := "alice";
               currentRoom := Some "r1" |} _ _ _ _ _ _ _ _).
  - vm_compute. reflexivity.
  - split; [discriminate|]. simpl. lia.
  - vm_compute. reflexivity.
  - reflexivity.
  - discriminate.
  - vm_compute. reflexivity.
  - vm_compute. reflexivity.
  - reflexivity.
Defined.

(** C2 as stated fails when a user has two connections: alice's first
    socket joined r1; her second socket connects, which overwrites the
    registry entry of the user (current room null); the first socket then
    joins r2.  The handler finds no current room, applies no leave step
    (no room-left is emitted), and the first connection ends in the
    transport groups and participant sets of r1 and r2 at once. *)
Lemma connection_in_two_rooms_after_second_connection :
  let σ := Scenario.secondTab in
  let s := Scenario.alice1 in
  let σ' := step (OpJoinRoom s (Some "r2")) σ in
  reachable σ' ∧ live σ' s ∧
  id s ∈ ioRooms σ !!! "r1" ∧ userId s ∈ roomParticipants σ !!! "r1" ∧
  id s ∈ ioRooms σ' !!! "r1" ∧ id s ∈ ioRooms σ' !!! "r2" ∧
  userId s ∈ roomParticipants σ' !!! "r1" ∧
  userId s ∈ roomParticipants σ' !!! "r2" ∧
  (∀ k, received k isRoomLeft (drop (length (emitted σ)) (emitted σ')) = 0) ∧
  ¬ oneRoomPerConnection σ'.
Proof.
  assert (∀ (X : gset string) k, bool_decide (k ∈ X) = true → k ∈ X) as Hdec.
  { intros X k H. by apply bool_decide_eq_true in H. }
  assert (id Scenario.alice1 ∈
            ioRooms (step (OpJoinRoom Scenario.alice1 (Some "r2"))
                       Scenario.secondTab) !!! "r1") as H1
    by (apply Hdec; vm_compute; reflexivity).
  assert (id Scenario.alice1 ∈
            ioRooms (step (OpJoinRoom Scenario.alice1 (Some "r2"))
                       Scenario.secondTab) !!! "r2") as H2
    by (apply Hdec; vm_compute; reflexivity).
  assert (live (step (OpJoinRoom Scenario.alice1 (Some "r2"))
                  Scenario.secondTab) Scenario.alice1) as Hlive
    by (vm_compute; reflexivity).
  split; [|split; [|split; [|split; [|split; [|split; [|split; [|split; [|split]]]]]]]].
  - apply (reachable_by_steps enabled
             [OpConnect Scenario.alice1; OpJoinRoom Scenario.alice1 (Some "r1");
              OpConnect Scenario.alice2; OpJoinRoom Scenario.alice1 (Some "r2")]
             (initial Scenario.store) (reach_initial _ _)).
    script_enabled.
  - exact Hlive.
  - apply Hdec. vm_compute. reflexivity.
  - apply Hdec. vm_compute. reflexivity.
  - exact H1.
  - exact H2.
  - apply Hdec. vm_compute. reflexivity.
  - apply Hdec. vm_compute. reflexivity.
  - intros k.
    set (new := drop _ _).
    assert (∀ e, e ∈ new → isRoomLeft e.2 = false) as Hnone.
    { apply Forall_forall. apply (bool_decide_unpack _). vm_compute. exact I. }
    unfold received. apply length_zero_iff_nil.
    induction new as [|e new IH]; [done|].
    rewrite filter_cons. rewrite decide_False.
    + apply IH. intros e' He'. apply Hnone. by right.
    + intros [_ He]. rewrite (Hnone e) in He; [done|by left].
  - intros Hone.
    assert ("r1" = "r2") as Heq; [|discriminate].
    apply (Hone Scenario.alice1 "r1" "r2" Hlive); right; right; done.
Qed.

(** ** C9: authentication before registration *)

Section AuthenticationFirst.

Variable blacklistedTokens : gset string.
Variable jwt_verify : string → option string.

Lemma middleware_cases sid hs σ :
  (∃ u rec, authenticates blacklistedTokens jwt_verify σ hs u rec ∧
            middleware blacklistedTokens jwt_verify sid hs σ =
              (Return (next_ok {| id := sid; userId := u;
                                  username := uUsername rec |}), σ)) ∨
  ((¬ ∃ u rec, authenticates blacklistedTokens jwt_verify σ hs u rec) ∧
   ∃ message,
     message ∈ ["Authentication token required"; "User not found";
                "Authentication failed"] ∧
     middleware blacklistedTokens jwt_verify sid hs σ =
       (Return (next_error message), σ)).
Proof.
  unfold middleware, try_catch.
  destruct (JS.truthy (JS.or (authToken hs) (queryToken hs))) as [token|] eqn:Htok.
  2:{ right. split; [intros (u & rec & token & ? & _); congruence|].
      eexists. split; [|reflexivity]. set_solver. }
  assert (token ≠ "") as Hne by (by destruct (truthy_Some _ _ Htok)).
  unfold verifyToken. apply isEmpty_false in Hne. rewrite Hne.
  case_bool_decide as Hbl.
  { right. split.
    - intros (u & rec & token' & Ht & Hnbl & _). congruence.
    - eexists. split; [|reflexivity]. set_solver. }
  destruct (jwt_verify token) as [u|] eqn:Hver.
  2:{ right. split.
      - intros (u & rec & token' & Ht & _ & Hv & _). congruence.
      - eexists. split; [|reflexivity]. set_solver. }
  rewrite bind_ret. unfold User_findById.
  destruct (connected (database σ)) eqn:Hconn.
  2:{ right. split.
      - intros (u' & rec & token' & _ & _ & _ & Hc & _). congruence.
      - rewrite bind_bind.
        rewrite (bind_Throw _ _ _ _ _ (requireConnected_down σ Hconn)).
        eexists. split; [|reflexivity]. set_solver. }
  rewrite bind_bind.
  rewrite (bind_Return _ _ _ _ _ (requireConnected_up σ Hconn)).
  rewrite bind_gets.
  destruct (users (database σ) !! u) as [rec|] eqn:Hrec.
  - left. exists u, rec. split; [|reflexivity]. exists token. done.
  - right. split.
    + intros (u' & rec & token' & Ht & _ & Hv & _ & Hu). congruence.
    + eexists. split; [|reflexivity]. set_solver.
Qed.

(** C9.  A connection whose handshake has no token, or a token that does
    not verify, or names no stored user, is refused with an authentication
    error and leaves the server as it was: no registry entry, no socket, no
    event.  A connection that changes the registry passed the middleware,
    and its entry is the one of the authenticated user. *)
Theorem unauthenticated_connection_never_registered sid hs σ :
  ((¬ ∃ u rec, authenticates blacklistedTokens jwt_verify σ hs u rec) →
   ∃ message,
     message ∈ ["Authentication token required"; "User not found";
                "Authentication failed"] ∧
     connection blacklistedTokens jwt_verify sid hs σ = (Return (Some message), σ)) ∧
  (connectedUsers (exec (connection blacklistedTokens jwt_verify sid hs) σ)
     ≠ connectedUsers σ →
   ∃ u rec, authenticates blacklistedTokens jwt_verify σ hs u rec ∧
     connection blacklistedTokens jwt_verify sid hs σ =
       (Return None,
        exec (handleConnection {| id := sid; userId := u;
                                  username := uUsername rec |})
          (exec (io_accept {| id := sid; userId := u;
                              username := uUsername rec |}) σ))).
Proof.
  unfold connection, exec.
  destruct (middleware_cases sid hs σ)
    as [(u & rec & Hauth & Hrun)|(Hno & message & Hmsg & Hrun)];
    rewrite !(bind_Return _ _ _ _ _ Hrun).
  - split; [intros Hno; destruct Hno; eauto|]. intros _. eauto.
  - split; [eauto|]. intros Hchanged. destruct Hchanged. reflexivity.
Qed.

End AuthenticationFirst.

Lemma unauthenticated_connection_never_registered_witness :
  ∃ message,
    message ∈ ["Authentication token required"; "User not found";
               "Authentication failed"] ∧
    connection ∅ (λ _, None) "s9"
      {| authToken := Some "forged"; queryToken := None |}
      Scenario.aliceInRoom = (Return (Some message), Scenario.aliceInRoom).
Proof.
  apply (unauthenticated_connection_never_registered ∅ (λ _, None) "s9"
           {| authToken := Some "forged"; queryToken := None |}
           Scenario.aliceInRoom).
  intros (u & rec & token & _ & _ & Hv & _). discriminate.
Defined.

(** * The rest of the server *)

(** ** Requests to join that are turned down *)

(** X1.  A join-room request that is turned down (no roomId, the store out of
    reach, no such room, a deactivated room) leaves the registry, the
    index, the transport rooms and the store as they were: all it does is
    to send one error event, with the message of the cause, to the
    requesting socket. *)
Theorem refused_join_only_reports_error σ s roomId message :
  joinRefused σ roomId message →
  handleJoinRoom s roomId σ =
    (Return tt, setEmitted (λ log, log ++ [(id s, error_ev message None)]) σ).
Proof.
  intros Href. unfold handleJoinRoom.
  destruct Href as [Hv|r Hv Hdown|r Hv Hup Hnone|r rec Hv Hup Hrec Hact];
    rewrite Hv.
  - reflexivity.
  - erewrite try_catch_Throw; [reflexivity|].
    apply bind_Throw. by apply Room_findById_down.
  - apply try_catch_Return.
    rewrite (bind_Return _ _ _ _ _ (Room_findById_up r σ Hup)), Hnone.
    reflexivity.
  - apply try_catch_Return.
    rewrite (bind_Return _ _ _ _ _ (Room_findById_up r σ Hup)), Hrec.
    simpl. rewrite Hact. reflexivity.
Qed.

Lemma refused_join_only_reports_error_witness :
  joinRefused Scenario.aliceInInactiveRoom (Some "r1") "Room is not active" ∧
  handleJoinRoom Scenario.bob1 (Some "r1") Scenario.aliceInInactiveRoom =
    (Return tt,
     setEmitted (λ log, log ++ [("s3", error_ev "Room is not active" None)])
       Scenario.aliceInInactiveRoom).
Proof.
  assert (joinRefused Scenario.aliceInInactiveRoom (Some "r1")
            "Room is not active") as Href.
  { apply (refused_inactive _ _ "r1" Scenario.closed).
    - reflexivity.
    - vm_compute. reflexivity.
    - vm_compute. reflexivity.
    - reflexivity. }
  split; [exact Href|].
  exact (refused_join_only_reports_error _ Scenario.bob1 _ _ Href).
Defined.

(** ** A join from no room *)

Lemma elem_of_getRoomParticipantsList σ r p :
  p ∈ getRoomParticipantsList σ r ↔
  ∃ u info, u ∈ roomParticipants σ !!! r ∧ connectedUsers σ !! u = Some info ∧
            p = {| pUserId := u; pUsername := infoUsername info; isOnline := true |}.
Proof.
  unfold getRoomParticipantsList. rewrite list_elem_of_omap. split.
  - intros (u & Hu & Hp). apply elem_of_elements in Hu.
    destruct (connectedUsers σ !! u) as [info|] eqn:Hinfo; [|done].
    simpl in Hp. exists u, info. by simplify_eq.
  - intros (u & info & Hu & Hinfo & ->). exists u.
    split; [by apply elem_of_elements|]. by rewrite Hinfo.
Qed.

Lemma received_joinEvents s r rec σ k :
  received k isUserJoined (joinEvents s r rec σ) =
    (if decide (k ∈ ioRooms σ !!! r ∖ {[id s]}) then 1 else 0) ∧
  received k isParticipantsUpdate (joinEvents s r rec σ) =
    (if decide (k ∈ {[id s]} ∪ ioRooms σ !!! r) then 1 else 0) ∧
  received k isRoomJoined (joinEvents s r rec σ) =
    (if decide (k = id s) then 1 else 0).
Proof.
  unfold joinEvents.
  rewrite !received_app, !received_fanout, !received_cons, !received_nil.
  simpl. repeat split.
  - rewrite (decide_False (P := (id s = k ∧ _))) by (by intros [_ ?]).
    repeat case_decide; lia.
  - rewrite (decide_False (P := (id s = k ∧ _))) by (by intros [_ ?]).
    repeat case_decide; lia.
  - repeat case_decide; naive_solver.
Qed.

(** X2.  A join-room request for an active room from a connection that is in no
    room (store reachable) puts the user in the room's participant set and
    nowhere else, makes the room the connection's current room, stores one
    system notification "<username> joined the room", and sends: user-joined
    once to every other socket of the room and not to the joiner;
    participants-update once to every socket of the room, the joiner
    included; room-joined, last, once to the joiner only, with a participant
    list that holds the joiner. *)
Theorem join_from_no_room σ s r rec info :
  connectedUsers σ !! userId s = Some info →
  JS.truthy (currentRoom info) = None →
  r ≠ "" → connected (database σ) = true →
  rooms (database σ) !! r = Some rec → isActive rec = true → wellFormed s →
  let σ' := step (OpJoinRoom s (Some r)) σ in
  let new := drop (length (emitted σ)) (emitted σ') in
  inRoom σ' s r ∧ id s ∈ ioRooms σ' !!! r ∧
  (∀ u r', u ∈ roomParticipants σ' !!! r' ↔
           u ∈ roomParticipants σ !!! r' ∨ (u = userId s ∧ r' = r)) ∧
  (∃ m, messages (database σ') = messages (database σ) ++ [m] ∧
        messageType m = TNotification ∧ senderId m = "system" ∧
        senderUsername m = "System" ∧ roomId m = r ∧
        content m = JS.trim (username s +:+ " joined the room")) ∧
  (∀ k, received k isUserJoined new =
        if decide (k ∈ ioRooms σ !!! r ∖ {[id s]}) then 1 else 0) ∧
  (∀ k, received k isParticipantsUpdate new =
        if decide (k ∈ {[id s]} ∪ ioRooms σ !!! r) then 1 else 0) ∧
  (∀ k, received k isRoomJoined new = if decide (k = id s) then 1 else 0) ∧
  ∃ before ps,
    new = before ++ [(id s, room_joined r (name rec) ps)] ∧
    {| pUserId := userId s; pUsername := infoUsername info; isOnline := true |} ∈ ps.
Proof.
  intros Hinfo Hnone Hr Hc Hrec Hact Hwf σ' new.
  destruct (handleJoinRoom_from_no_room σ s r rec info Hr Hc Hrec Hact Hwf
              Hinfo Hnone) as (σ1 & Hrun & Hjoined).
  assert (σ' = σ1) as Heq by (apply (exec_Return _ _ tt); exact Hrun).
  clearbody σ'. subst σ'.
  pose proof (joined_mem _ _ _ _ _ Hjoined) as Hmem.
  unfold mem in Hmem. simpl in Hmem. injection Hmem as Hcu Hrp Hso Hio.
  pose proof (joined_emitted _ _ _ _ _ Hjoined) as Hem.
  assert (new = joinEvents s r rec σ) as Hnew.
  { unfold new. rewrite Hem. apply drop_app_length. }
  clearbody new. subst new.
  split. { exists (setRoom r info). by rewrite Hcu, lookup_alter_eq, Hinfo. }
  split. { rewrite Hio, lookup_total_insert_eq. set_solver. }
  split. { intros u r'. rewrite Hrp. apply elem_of_indexAdd. }
  split.
  { exists (joinedNotification s r (uuidCounter σ)).
    split; [apply (joined_messages _ _ _ _ _ Hjoined)|]. by repeat split. }
  split; [intros k; apply received_joinEvents|].
  split; [intros k; apply received_joinEvents|].
  split; [intros k; apply received_joinEvents|].
  unfold joinEvents. eexists _, _. split; [by rewrite app_assoc|].
  apply elem_of_getRoomParticipantsList. exists (userId s), (setRoom r info).
  split.
  { simpl. apply elem_of_indexAdd. by right. }
  split; [simpl; by rewrite lookup_alter_eq, Hinfo|done].
Qed.

Lemma join_from_no_room_witness :
  let σ := Scenario.aliceInRoom in
  let s := Scenario.bob1 in
  let σ0 := step (OpConnect s) σ in
  let σ' := step (OpJoinRoom s (Some "r1")) σ0 in
  let new := drop (length (emitted σ0)) (emitted σ') in
  inRoom σ' s "r1" ∧ id s ∈ ioRooms σ' !!! "r1" ∧
  (∀ u r', u ∈ roomParticipants σ' !!! r' ↔
           u ∈ roomParticipants σ0 !!! r' ∨ (u = userId s ∧ r' = "r1")) ∧
  (∃ m, messages (database σ') = messages (database σ0) ++ [m] ∧
        messageType m = TNotification ∧ senderId m = "system" ∧
        senderUsername m = "System" ∧ roomId m = "r1" ∧
        content m = JS.trim (username s +:+ " joined the room")) ∧
  (∀ k, received k isUserJoined new =
        if decide (k ∈ ioRooms σ0 !!! "r1" ∖ {[id s]}) then 1 else 0) ∧
  (∀ k, received k isParticipantsUpdate new =
        if decide (k ∈ {[id s]} ∪ ioRooms σ0 !!! "r1") then 1 else 0) ∧
  (∀ k, received k isRoomJoined new = if decide (k = id s) then 1 else 0) ∧
  ∃ before ps,
    new = before ++ [(id s, room_joined "r1" "General" ps)] ∧
    {| pUserId := "u2"; pUsername := "bob"; isOnline := true |} ∈ ps.
Proof.
  intros σ s σ0.
  refine (join_from_no_room σ0 s "r1"
            {| name := "General"; createdBy := "system";
               participants := ["u1"]; isActive := true |}
            {| socketId := "s3"; infoUsername := "bob"; currentRoom := None |}
            _ _ _ _ _ _ _).
  - vm_compute. reflexivity.
  - reflexivity.
  - discriminate.
  - vm_compute. reflexivity.
  - vm_compute. reflexivity.
  - reflexivity.
  - split; [discriminate|]. simpl. lia.
Defined.

(** ** Leaving and disconnecting while the store is out of reach *)

(** X3.  A leave-room request that fails because the store cannot be reached has
    already taken the user out of the room in memory: the socket has left
    the transport room, the user is out of the room's participant set, the
    current room is cleared if it was this room.  The requester gets the
    error "Failed to leave room" and no room-left; nobody else is told and
    nothing is stored. *)
Theorem failed_leave_has_left_in_memory σ s r :
  r ≠ "" → connected (database σ) = false →
  let σ' := step (OpLeaveRoom s (Some r)) σ in
  σ' = setEmitted (λ log, log ++ [(id s, error_ev "Failed to leave room" None)])
         (leaveMem s r σ) ∧
  (userId s ∉ roomParticipants σ' !!! r) ∧ (id s ∉ ioRooms σ' !!! r) ∧
  ¬ inRoom σ' s r ∧ database σ' = database σ.
Proof.
  intros Hr Hdown σ'.
  assert (σ' = setEmitted (λ log, log ++ [(id s, error_ev "Failed to leave room" None)])
                 (leaveMem s r σ)) as Heq.
  { unfold σ', step, run, handleLeaveRoom.
    apply (exec_Return _ _ tt).
    by rewrite (try_catch_Throw _ _ _ _ _ (leaveRoom_down s r σ Hr Hdown)). }
  clearbody σ'. subst σ'. split; [reflexivity|]. simpl.
  split. { rewrite elem_of_indexRemove. tauto. }
  split. { rewrite elem_of_alter_difference. tauto. }
  split; [|reflexivity].
  intros Hin. unfold inRoom in Hin. simpl in Hin.
  apply (proj1 (room_after_clearRoom _ _ _ _ _)) in Hin. tauto.
Qed.

Lemma failed_leave_has_left_in_memory_witness :
  let σ := Outage.bothInRoom in
  let s := Scenario.alice1 in
  let σ' := step (OpLeaveRoom s (Some "r1")) σ in
  σ' = setEmitted (λ log, log ++ [(id s, error_ev "Failed to leave room" None)])
         (leaveMem s "r1" σ) ∧
  (userId s ∉ roomParticipants σ' !!! "r1") ∧ (id s ∉ ioRooms σ' !!! "r1") ∧
  ¬ inRoom σ' s "r1" ∧ database σ' = database σ.
Proof.
  intros σ s.
  refine (failed_leave_has_left_in_memory σ s "r1" _ _).
  - discriminate.
  - reflexivity.
Defined.

(** X4.  When a socket disconnects while its user is in a room and the store
    cannot be reached, the handler stops in [leaveRoom]: the user is out of
    the room's participant set and the current room is cleared, but the
    user's entry stays in the registry, and no event is sent. *)
Theorem failed_disconnect_keeps_registry_entry σ s info r :
  connectedUsers σ !! userId s = Some info → currentRoom info = Some r →
  r ≠ "" → connected (database σ) = false →
  let σ' := step (OpDisconnect s) σ in
  run (OpDisconnect s) σ =
    (Throw (Error "Database not connected"), leaveMem s r (closeMem s σ)) ∧
  connectedUsers σ' !! userId s =
    Some {| socketId := socketId info; infoUsername := infoUsername info;
            currentRoom := None |} ∧
  ioSockets σ' !! id s = None ∧
  (userId s ∉ roomParticipants σ' !!! r) ∧
  emitted σ' = emitted σ ∧ database σ' = database σ.
Proof.
  intros Hinfo Hroom Hr Hdown σ'.
  assert (run (OpDisconnect s) σ =
            (Throw (Error "Database not connected"), leaveMem s r (closeMem s σ)))
    as Hrun.
  { unfold run, io_close. rewrite bind_modify. fold (closeMem s σ).
    unfold handleDisconnect. rewrite bind_gets.
    change (connectedUsers (closeMem s σ)) with (connectedUsers σ).
    rewrite Hinfo, Hroom. rewrite truthy_Some_ne by done.
    apply bind_Throw. by apply leaveRoom_down. }
  split; [exact Hrun|].
  assert (σ' = leaveMem s r (closeMem s σ)) as Heq.
  { unfold σ', step, exec. by rewrite Hrun. }
  clearbody σ'. subst σ'. simpl.
  split. { rewrite lookup_alter_eq, Hinfo. simpl. unfold clearRoom.
           by rewrite bool_decide_true. }
  split; [apply lookup_delete_eq|].
  split; [|done]. rewrite elem_of_indexRemove. tauto.
Qed.

Lemma failed_disconnect_keeps_registry_entry_witness :
  let σ := Outage.bothInRoom in
  let s := Scenario.alice1 in
  let σ' := step (OpDisconnect s) σ in
  run (OpDisconnect s) σ =
    (Throw (Error "Database not connected"), leaveMem s "r1" (closeMem s σ)) ∧
  connectedUsers σ' !! userId s =
    Some {| socketId := "s1"; infoUsername := "alice"; currentRoom := None |} ∧
  ioSockets σ' !! id s = None ∧
  (userId s ∉ roomParticipants σ' !!! "r1") ∧
  emitted σ' = emitted σ ∧ database σ' = database σ.
Proof.
  intros σ s.
  refine (failed_disconnect_keeps_registry_entry σ s
            {| socketId := "s1"; infoUsername := "alice";
               currentRoom := Some "r1" |} "r1" _ _ _ _).
  - vm_compute. reflexivity.
  - reflexivity.
  - discriminate.
  - reflexivity.
Defined.

(** ** A connection that authenticates *)

Section AuthenticatedConnection.

Variable blacklistedTokens : gset string.
Variable jwt_verify : string → option string.

Lemma authenticates_functional σ hs u rec u' rec' :
  authenticates blacklistedTokens jwt_verify σ hs u rec →
  authenticates blacklistedTokens jwt_verify σ hs u' rec' →
  u' = u ∧ rec' = rec.
Proof.
  intros (token & Htok & _ & Hjv & _ & Hrec) (token' & Htok' & _ & Hjv' & _ & Hrec').
  assert (token' = token) as -> by congruence.
  assert (u' = u) as -> by congruence.
  split; [done|congruence].
Qed.

(** X5.  A handshake that carries a token (the one of [auth] before the one of
    [query]) which is not blacklisted and verifies, for a user found in the
    store, is accepted: the socket is connected, the user's registry entry
    is set (or replaced) with this socket's id, the username stored for the
    user and no current room, and the socket alone receives 'connected'.
    Nothing else changes. *)
Theorem authenticated_connection_registered sid hs σ u rec :
  authenticates blacklistedTokens jwt_verify σ hs u rec →
  let s := {| id := sid; userId := u; username := uUsername rec |} in
  connection blacklistedTokens jwt_verify sid hs σ =
    (Return None,
     setEmitted (λ log, log ++ [(sid, connected_ev u (uUsername rec))])
       (connectMem s σ)) ∧
  connectedUsers (exec (connection blacklistedTokens jwt_verify sid hs) σ) !! u =
    Some {| socketId := sid; infoUsername := uUsername rec; currentRoom := None |}.
Proof.
  intros Hauth s.
  assert (connection blacklistedTokens jwt_verify sid hs σ =
    (Return None,
     setEmitted (λ log, log ++ [(sid, connected_ev u (uUsername rec))])
       (connectMem s σ))) as Hrun.
  { destruct (middleware_cases blacklistedTokens jwt_verify sid hs σ)
      as [(u' & rec' & Hauth' & Hrun)|[Hno _]].
    - destruct (authenticates_functional _ _ _ _ _ _ Hauth Hauth') as [-> ->].
      unfold connection. rewrite (bind_Return _ _ _ _ _ Hrun). reflexivity.
    - destruct Hno. by exists u, rec. }
  split; [exact Hrun|].
  unfold exec. rewrite Hrun. simpl. apply lookup_insert_eq.
Qed.

End AuthenticatedConnection.

Lemma authenticated_connection_registered_witness :
  let jwt_verify := λ token, if String.eqb token "token-of-bob" then Some "u2" else None in
  let hs := {| authToken := Some "token-of-bob"; queryToken := Some "forged" |} in
  let s := {| id := "s7"; userId := "u2"; username := "bob" |} in
  connection ∅ jwt_verify "s7" hs Scenario.aliceInRoom =
    (Return None,
     setEmitted (λ log, log ++ [("s7", connected_ev "u2" "bob")])
       (connectMem s Scenario.aliceInRoom)) ∧
  connectedUsers (exec (connection ∅ jwt_verify "s7" hs) Scenario.aliceInRoom) !! "u2" =
    Some {| socketId := "s7"; infoUsername := "bob"; currentRoom := None |}.
Proof.
  intros jwt_verify hs s.
  refine (authenticated_connection_registered ∅ jwt_verify "s7" hs
            Scenario.aliceInRoom "u2" {| uUsername := "bob" |} _).
  exists "token-of-bob". split; [reflexivity|]. split; [apply not_elem_of_empty|].
  split; [reflexivity|]. split; vm_compute; reflexivity.
Defined.

(** ** [getStats] *)

Lemma reachable1_reachable σ : reachable1 σ → reachable σ.
Proof.
  induction 1 as [db|σ op _ IH [Hen _]]; [apply reach_initial|].
  by apply reach_step.
Qed.

(** X6.  In every reachable state, the [activeRooms] figure of [getStats] is the
    number of rooms that have at least one participant in the index, and
    [totalConnections] is the same number as [connectedUsers]: the number of
    users with a registry entry, not of sockets. *)
Theorem getStats_counts_occupied_rooms σ (occupied : gset string) :
  reachable σ →
  (∀ r, r ∈ occupied ↔ ∃ u, u ∈ roomParticipants σ !!! r) →
  statActiveRooms (getStats σ) = size occupied ∧
  statTotalConnections (getStats σ) = statConnectedUsers (getStats σ) ∧
  statConnectedUsers (getStats σ) = size (dom (connectedUsers σ)).
Proof.
  intros Hreach Hocc. pose proof (reachable_indexTidy σ Hreach) as Htidy.
  split; [|split].
  - simpl. rewrite <- size_dom. f_equal. apply set_eq. intros r.
    rewrite Hocc, elem_of_dom. split.
    + intros [members Hm]. destruct (Htidy r members Hm) as [_ Hne].
      apply set_choose_L in Hne as [u Hu]. exists u.
      by rewrite lookup_total_alt, Hm.
    + intros [u Hu]. rewrite lookup_total_alt in Hu.
      destruct (roomParticipants σ !! r); [eauto|]. simpl in Hu. set_solver.
  - simpl. by rewrite length_fmap, length_map_to_list.
  - simpl. by rewrite size_dom.
Qed.

Lemma getStats_counts_occupied_rooms_witness :
  statActiveRooms (getStats Scenario.bothInRoom) = size ({[ "r1" ]} : gset string) ∧
  statTotalConnections (getStats Scenario.bothInRoom) =
    statConnectedUsers (getStats Scenario.bothInRoom) ∧
  statConnectedUsers (getStats Scenario.bothInRoom) =
    size (dom (connectedUsers Scenario.bothInRoom)).
Proof.
  refine (getStats_counts_occupied_rooms Scenario.bothInRoom {[ "r1" ]} _ _).
  - apply (reachable_by_steps enabled
             [OpConnect Scenario.alice1; OpJoinRoom Scenario.alice1 (Some "r1");
              OpConnect Scenario.bob1; OpJoinRoom Scenario.bob1 (Some "r1")]
             (initial Scenario.store) (reach_initial _ _)).
    script_enabled.
  - intros r. rewrite elem_of_singleton. split.
    + intros ->. exists "u1". vm_compute. reflexivity.
    + intros [u Hu]. destruct (decide (r = "r1")) as [|Hne]; [done|].
      exfalso. revert Hu.
      assert (roomParticipants Scenario.bothInRoom !!! r = ∅) as ->; [|set_solver].
      rewrite lookup_total_alt.
      assert (roomParticipants Scenario.bothInRoom = {[ "r1" := {[ "u1"; "u2" ]} ]})
        as -> by (vm_compute; reflexivity).
      by rewrite lookup_singleton_ne.
Defined.

(** X7.  With one connection per user, every connected socket has its own entry
    among the users [getStats] counts: the number of connected sockets never
    exceeds the [connectedUsers] figure. *)
Theorem getStats_counts_every_socket σ :
  reachable1 σ → size (ioSockets σ) ≤ statConnectedUsers (getStats σ).
Proof.
  intros Hreach. pose proof (reachable1_consistent σ Hreach) as Hc. simpl.
  set (l := map_to_list (ioSockets σ)).
  assert (NoDup ((λ kt, userId kt.2) <$> l)) as Hnd.
  { apply NoDup_fmap_2_strong; [|apply NoDup_map_to_list].
    intros [k1 t1] [k2 t2] H1 H2 Hu. simpl in Hu.
    apply elem_of_map_to_list in H1, H2.
    pose proof (cons_one σ Hc _ _ _ _ H1 H2 Hu) as ->.
    rewrite H1 in H2. by simplify_eq. }
  rewrite <- (length_map_to_list (ioSockets σ)). fold l.
  rewrite <- (length_fmap (λ kt, userId kt.2) l).
  rewrite <- (size_list_to_set (C := gset string)) by done.
  rewrite <- size_dom. apply subseteq_size. intros u Hu.
  apply elem_of_list_to_set, list_elem_of_fmap in Hu as ([k t] & -> & Hin).
  apply elem_of_map_to_list in Hin. apply elem_of_dom.
  exact (cons_registered σ Hc k t Hin).
Qed.

Lemma getStats_counts_every_socket_witness :
  size (ioSockets Scenario.bothInRoom) ≤ statConnectedUsers (getStats Scenario.bothInRoom).
Proof.
  apply getStats_counts_every_socket.
  apply (reachable_by_steps enabled1
           [OpConnect Scenario.alice1; OpJoinRoom Scenario.alice1 (Some "r1");
            OpConnect Scenario.bob1; OpJoinRoom Scenario.bob1 (Some "r1")]
           (initial Scenario.store) (reach_initial _ _)).
  script_enabled.
Defined.

(** ** [sendToUser] *)











(** ** [Message.create] *)

Lemma length_trimStart s : String.length (JS.trimStart s) ≤ String.length s.
Proof. induction s as [|c s IH]; simpl; [done|]. destruct (JS.isWhiteSpace c); simpl; lia. Qed.

Lemma length_trimEnd s : String.length (JS.trimEnd s) ≤ String.length s.
Proof.
  induction s as [|c s IH]; simpl; [done|].
  destruct (JS.trimEnd s); [destruct (JS.isWhiteSpace c)|]; simpl in *; lia.
Qed.

Lemma length_trim s : String.length (JS.trim s) ≤ String.length s.
Proof.
  unfold JS.trim. etrans; [apply length_trimEnd|apply length_trimStart].
Qed.

Lemma validate_nil d :
  validate d = [] ↔
  dRoomId d ≠ "" ∧ dSenderId d ≠ "" ∧ dSenderUsername d ≠ "" ∧
  validateContent (dContent d) = [].
Proof.
  unfold validate.
  assert (match dMessageType d with
          | Some t => validateMessageType t | None => []
          end = []) as -> by (by destruct (dMessageType d)).
  rewrite app_nil_r.
  destruct (JS.isEmpty (dRoomId d)) eqn:H1, (JS.isEmpty (dSenderId d)) eqn:H2,
    (JS.isEmpty (dSenderUsername d)) eqn:H3;
    rewrite ?isEmpty_true, ?isEmpty_false in *; simpl; naive_solver.
Qed.

(** X9.  [Message.create] stores a message only if its argument validates and
    the store is connected, and then stores exactly one record: the fields
    of the argument with the content trimmed and the type 'message' unless
    one is given.  What it stores is valid in its own right: room, sender
    id and sender name are not empty, the content is trimmed and has
    between 1 and 1000 characters.  When it throws, no message is stored:
    a validation error carries the list of [Message.validate] and leaves
    the state as it was. *)
Theorem Message_create_stores_only_valid d σ :
  match Message_create d σ with
  | (Return m, σ') =>
      validate d = [] ∧ connected (database σ) = true ∧
      messages (database σ') = messages (database σ) ++ [m] ∧
      rooms (database σ') = rooms (database σ) ∧
      roomId m = dRoomId d ∧ senderId m = dSenderId d ∧
      senderUsername m = dSenderUsername d ∧
      content m = JS.trim (dContent d) ∧
      messageType m = default TMessage (dMessageType d) ∧
      JS.trim (content m) = content m ∧
      1 ≤ String.length (content m) ≤ 1000 ∧
      validate (dataOf m) = []
  | (Throw e, σ') =>
      database σ' = database σ ∧
      ((e = VALIDATION_ERROR (validate d) ∧ validate d ≠ [] ∧ σ' = σ) ∨
       (e = Error "Database not connected" ∧ validate d = [] ∧
        connected (database σ) = false))
  end.
Proof.
  destruct (validate d) as [|err errs] eqn:Hv.
  - destruct (connected (database σ)) eqn:Hc.
    + rewrite (Message_create_up d σ Hv Hc).
      pose proof (proj1 (validate_nil d) Hv) as (Hr & Hs & Hn & Hcontent).
      pose proof (proj1 (validateContent_nil _) Hcontent) as (Hne & Hblank & Hlen).
      assert (1 ≤ String.length (JS.trim (dContent d)) ≤ 1000) as Hlen'.
      { split; [|etrans; [apply length_trim|done]].
        destruct (JS.trim (dContent d)) eqn:Ht; simpl; [|lia].
        apply trim_blank in Ht. congruence. }
      repeat split; try done; simpl; try apply trim_trim; try lia.
      apply validate_nil. simpl. repeat split; try done.
      by apply validateContent_trim.
    + unfold Message_create. rewrite Hv.
      rewrite (bind_Return uuidv4 _ σ (uuidCounter σ) (setUuidCounter S σ) eq_refl).
      rewrite (bind_Throw _ _ _ _ _ (requireConnected_down (setUuidCounter S σ) Hc)).
      split; [done|]. by right.
  - rewrite Message_create_invalid by (by rewrite Hv).
    split; [done|]. left. by rewrite Hv.
Qed.

(** ** [Room.addParticipant] and [Room.removeParticipant] *)

Lemma server_eq (σ σ' : Server) :
  mem σ = mem σ' → database σ = database σ' → uuidCounter σ = uuidCounter σ' →
  emitted σ = emitted σ' → σ = σ'.
Proof.
  destruct σ, σ'. unfold mem. simpl. intros [= -> -> -> ->] -> -> ->. done.
Qed.

Lemma roomsOnly_eq σ σ' :
  roomsOnly σ σ' → rooms (database σ') = rooms (database σ) → σ' = σ.
Proof.
  intros [Hmem Hem Huuid Hconn Husers Hmsgs _] Hrooms.
  apply server_eq; try done. by apply database_eq.
Qed.

Lemma elem_of_removeFirst u ps v :
  NoDup ps → v ∈ removeFirst u ps ↔ v ∈ ps ∧ v ≠ u.
Proof.
  induction 1 as [|p ps Hp Hnd IH]; simpl; [set_solver|].
  case_bool_decide as Hpu.
  - subst p. rewrite elem_of_cons. naive_solver.
  - rewrite !elem_of_cons, IH. naive_solver.
Qed.

Lemma NoDup_removeFirst u ps : NoDup ps → NoDup (removeFirst u ps).
Proof.
  induction 1 as [|p ps Hp Hnd IH]; simpl; [constructor|].
  case_bool_decide; [done|]. constructor; [|done].
  rewrite elem_of_removeFirst by done. tauto.
Qed.

Lemma removeFirst_snoc u ps : u ∉ ps → removeFirst u (ps ++ [u]) = ps.
Proof.
  induction ps as [|p ps IH]; simpl; intros Hu.
  - by rewrite bool_decide_true.
  - apply not_elem_of_cons in Hu as [Hne Hu].
    rewrite bool_decide_false by done. by rewrite IH.
Qed.

(** X10.  [room.addParticipant(userId)] for a user id that is not empty, on the
    instance of a stored room (store connected): afterwards the user is in
    the stored participant list, at the end if it was not there before; the
    users listed before are still listed, in the same order; a list without
    duplicates stays without duplicates; name, creator and activity of the
    room and all other rooms are as before.  Adding a participant who is
    already listed writes nothing, so adding twice is adding once. *)
Theorem addParticipant_lists_the_user_once i rec u σ :
  u ≠ "" → connected (database σ) = true →
  rooms (database σ) !! i = Some rec →
  ∃ σ' rec',
    Room_addParticipant (newRoom i rec) u σ = (Return tt, σ') ∧
    rooms (database σ') = <[i := rec']> (rooms (database σ)) ∧
    name rec' = name rec ∧ createdBy rec' = createdBy rec ∧
    isActive rec' = isActive rec ∧
    participants rec' =
      (if decide (u ∈ participants rec) then participants rec
       else participants rec ++ [u]) ∧
    (u ∈ participants rec') ∧
    (NoDup (participants rec) → NoDup (participants rec')) ∧
    (u ∈ participants rec → σ' = σ) ∧
    Room_addParticipant (newRoom i rec') u σ' = (Return tt, σ').
Proof.
  intros Hu Hc Hrec.
  destruct (Room_addParticipant_up i rec u σ Hu Hc Hrec) as (σ' & Hrun & Hro & Hst).
  exists σ', (withParticipant u rec).
  assert (rooms (database σ') = <[i := withParticipant u rec]> (rooms (database σ)))
    as Hst'.
  { rewrite Hst. apply map_eq. intros j. destruct (decide (j = i)) as [->|Hne].
    - by rewrite lookup_alter_eq, lookup_insert_eq, Hrec.
    - by rewrite lookup_alter_ne, lookup_insert_ne. }
  assert (u ∈ participants (withParticipant u rec)) as Hin.
  { simpl. case_bool_decide; [done|]. set_solver. }
  split; [done|]. split; [done|]. split; [done|]. split; [done|].
  split; [done|].
  split. { simpl. case_bool_decide; by case_decide. }
  split; [done|].
  split.
  { simpl. case_bool_decide; [done|]. intros Hnd.
    apply NoDup_app. split; [done|]. split; [set_solver|]. apply NoDup_singleton. }
  split.
  { intros Hmember. apply (roomsOnly_eq σ σ' Hro). rewrite Hst.
    apply alter_id. intros rec0 Hrec0. assert (rec0 = rec) as -> by congruence.
    unfold withParticipant. rewrite bool_decide_true by done. by destruct rec. }
  unfold Room_addParticipant.
  assert (JS.isEmpty u = false) as -> by (by apply isEmpty_false).
  unfold Room_participants. rewrite bind_gets. simpl.
  rewrite Hst', lookup_insert_eq. by rewrite bool_decide_true.
Qed.

Lemma addParticipant_lists_the_user_once_witness :
  ∃ σ' rec',
    Room_addParticipant (newRoom "r2" Scenario.general) "u1" Scenario.aliceInRoom =
      (Return tt, σ') ∧
    rooms (database σ') = <["r2" := rec']> (rooms (database Scenario.aliceInRoom)) ∧
    name rec' = "General" ∧ createdBy rec' = "system" ∧ isActive rec' = true ∧
    participants rec' =
      (if decide ("u1" ∈ participants Scenario.general)
       then participants Scenario.general
       else participants Scenario.general ++ ["u1"]) ∧
    ("u1" ∈ participants rec') ∧
    (NoDup (participants Scenario.general) → NoDup (participants rec')) ∧
    ("u1" ∈ participants Scenario.general → σ' = Scenario.aliceInRoom) ∧
    Room_addParticipant (newRoom "r2" rec') "u1" σ' = (Return tt, σ').
Proof.
  refine (addParticipant_lists_the_user_once "r2" Scenario.general "u1"
            Scenario.aliceInRoom _ _ _).
  - discriminate.
  - vm_compute. reflexivity.
  - vm_compute. reflexivity.
Defined.

(** X11.  [room.removeParticipant(userId)] undoes [room.addParticipant(userId)]:
    for a user who is not listed in the stored room, adding and then
    removing the user leaves the server exactly as it was. *)
Theorem removeParticipant_undoes_addParticipant i rec u σ :
  u ≠ "" → connected (database σ) = true →
  rooms (database σ) !! i = Some rec → u ∉ participants rec →
  ∃ σ1 rec1,
    Room_addParticipant (newRoom i rec) u σ = (Return tt, σ1) ∧
    rooms (database σ1) !! i = Some rec1 ∧
    participants rec1 = participants rec ++ [u] ∧
    Room_removeParticipant (newRoom i rec1) u σ1 = (Return tt, σ).
Proof.
  intros Hu Hc Hrec Hnot.
  destruct (Room_addParticipant_up i rec u σ Hu Hc Hrec) as (σ1 & Hrun & Hro & Hst).
  assert (rooms (database σ1) !! i = Some (withParticipant u rec)) as Hrec1.
  { by rewrite Hst, lookup_alter_eq, Hrec. }
  assert (connected (database σ1) = true) as Hc1
    by (by rewrite (ro_connected _ _ Hro)).
  destruct (Room_removeParticipant_up i (withParticipant u rec) u σ1 Hu Hc1 Hrec1)
    as (σ2 & Hrun2 & Hro2 & Hst2).
  exists σ1, (withParticipant u rec).
  split; [done|]. split; [done|].
  split. { simpl. by rewrite bool_decide_false. }
  rewrite Hrun2. f_equal.
  destruct Hro as [Hmem Hem Huuid Hconn Husers Hmsgs _].
  destruct Hro2 as [Hmem2 Hem2 Huuid2 Hconn2 Husers2 Hmsgs2 _].
  apply server_eq; [congruence|apply database_eq; try congruence|congruence|congruence].
  rewrite Hst2, Hst. apply map_eq. intros j.
  destruct (decide (j = i)) as [->|Hne].
  - rewrite !lookup_alter_eq, Hrec. simpl. f_equal.
    unfold dropParticipant, withParticipant. simpl.
    rewrite bool_decide_false by done. rewrite removeFirst_snoc by done.
    by destruct rec.
  - by rewrite !lookup_alter_ne.
Qed.

Lemma removeParticipant_undoes_addParticipant_witness :
  ∃ σ1 rec1,
    Room_addParticipant (newRoom "r2" Scenario.general) "u1" Scenario.aliceInRoom =
      (Return tt, σ1) ∧
    rooms (database σ1) !! "r2" = Some rec1 ∧
    participants rec1 = participants Scenario.general ++ ["u1"] ∧
    Room_removeParticipant (newRoom "r2" rec1) "u1" σ1 =
      (Return tt, Scenario.aliceInRoom).
Proof.
  refine (removeParticipant_undoes_addParticipant "r2" Scenario.general "u1"
            Scenario.aliceInRoom _ _ _ _).
  - discriminate.
  - vm_compute. reflexivity.
  - vm_compute. reflexivity.
  - apply not_elem_of_nil.
Defined.

(** ** The stored participant lists and the index *)

Lemma keeps_stored_requireConnected : keeps stored requireConnected.
Proof. intros σ. unfold requireConnected. by case_match. Qed.

Lemma keeps_stored_uuidv4 : keeps stored uuidv4.
Proof. done. Qed.

Lemma keeps_stored_socket_emit s ev : keeps stored (socket_emit s ev).
Proof. done. Qed.

Lemma keeps_stored_io_to_emit r ev : keeps stored (io_to_emit r ev).
Proof. done. Qed.

#[local] Hint Resolve keeps_stored_requireConnected keeps_stored_uuidv4
  keeps_stored_socket_emit keeps_stored_io_to_emit : keeps.

Lemma keeps_stored_Room_findById i : keeps stored (Room_findById i).
Proof. unfold Room_findById. keeps_tac. Qed.

Lemma keeps_stored_Message_create d : keeps stored (Message_create d).
Proof. unfold Message_create. keeps_tac. Qed.

#[local] Hint Resolve keeps_stored_Room_findById keeps_stored_Message_create : keeps.

Lemma keeps_stored_handleSendMessage s r c : keeps stored (handleSendMessage s r c).
Proof. unfold handleSendMessage. keeps_tac. Qed.

Lemma keeps_stored_handleGetRoomParticipants s r :
  keeps stored (handleGetRoomParticipants s r).
Proof. unfold handleGetRoomParticipants. keeps_tac. Qed.

Lemma served_same σ σ' :
  mem σ' = mem σ → stored σ' = stored σ → served σ → served σ'.
Proof.
  unfold mem, stored. intros [= Hcu Hrp Hso Hio] [= Hc Hrooms] [H1 H2 H3].
  split.
  - by rewrite Hc.
  - by rewrite Hso.
  - unfold storedMatchesIndex. by rewrite Hrooms, Hrp.
Qed.

Lemma storedMatchesIndex_leave u r σ σ' :
  roomParticipants σ' = indexRemove u r (roomParticipants σ) →
  rooms (database σ') = alter (dropParticipant u) r (rooms (database σ)) →
  storedMatchesIndex σ → storedMatchesIndex σ'.
Proof.
  intros Hrp Hst H r' rec' Hrec'. rewrite Hst in Hrec'. rewrite Hrp.
  destruct (decide (r' = r)) as [->|Hne].
  - rewrite lookup_alter_eq in Hrec'.
    destruct (rooms (database σ) !! r) as [rec|] eqn:Hrec; [|done].
    simpl in Hrec'. simplify_eq. destruct (H r rec Hrec) as [Hnd Hiff].
    split; [by apply NoDup_removeFirst|]. intros v. simpl.
    rewrite elem_of_removeFirst by done. rewrite elem_of_indexRemove, Hiff.
    naive_solver.
  - rewrite lookup_alter_ne in Hrec' by done.
    destruct (H r' rec' Hrec') as [Hnd Hiff]. split; [done|]. intros v.
    rewrite elem_of_indexRemove, Hiff. naive_solver.
Qed.

Lemma storedMatchesIndex_join u r σ σ' :
  roomParticipants σ' = indexAdd u r (roomParticipants σ) →
  rooms (database σ') = alter (withParticipant u) r (rooms (database σ)) →
  storedMatchesIndex σ → storedMatchesIndex σ'.
Proof.
  intros Hrp Hst H r' rec' Hrec'. rewrite Hst in Hrec'. rewrite Hrp.
  destruct (decide (r' = r)) as [->|Hne].
  - rewrite lookup_alter_eq in Hrec'.
    destruct (rooms (database σ) !! r) as [rec|] eqn:Hrec; [|done].
    simpl in Hrec'. simplify_eq. destruct (H r rec Hrec) as [Hnd Hiff].
    simpl. case_bool_decide as Hin.
    + split; [done|]. intros v. rewrite elem_of_indexAdd, <- Hiff. naive_solver.
    + split.
      { apply NoDup_app. split; [done|]. split; [set_solver|apply NoDup_singleton]. }
      intros v. rewrite elem_of_app, list_elem_of_singleton, elem_of_indexAdd, Hiff.
      naive_solver.
  - rewrite lookup_alter_ne in Hrec' by done.
    destruct (H r' rec' Hrec') as [Hnd Hiff]. split; [done|]. intros v.
    rewrite elem_of_indexAdd, Hiff. naive_solver.
Qed.

Lemma served_left s r σ σ' :
  hasLeft s r σ σ' → served σ → served σ'.
Proof.
  intros Hleft [H1 H2 H3].
  pose proof (left_mem _ _ _ _ Hleft) as Hmem.
  unfold mem in Hmem. simpl in Hmem. injection Hmem as Hcu Hrp Hso Hio.
  split.
  - by rewrite (left_connected _ _ _ _ Hleft).
  - by rewrite Hso.
  - apply (storedMatchesIndex_leave (userId s) r σ σ' Hrp); [|done].
    apply (left_stored _ _ _ _ Hleft).
Qed.

Lemma joinStatements_stored σ s r rec ui :
  r ≠ "" → connected (database σ) = true →
  rooms (database σ) !! r = Some rec → wellFormed s →
  ∃ σ', joinStatements s r (newRoom r rec) ui σ = (Return tt, σ') ∧
        roomParticipants σ' = indexAdd (userId s) r (roomParticipants σ) ∧
        rooms (database σ') =
          alter (withParticipant (userId s)) r (rooms (database σ)) ∧
        connected (database σ') = true ∧ ioSockets σ' = ioSockets σ ∧
        users (database σ') = users (database σ).
Proof.
  intros Hr Hc Hrec Hwf. unfold joinStatements, socket_join.
  rewrite bind_modify.
  set (σ0 := setIoRooms _ σ).
  set (m := match ui with
            | Some _ => modify (setConnectedUsers (alter (setRoom r) (userId s)))
            | None => ret tt
            end).
  assert (∃ σa, m σ0 = (Return tt, σa) ∧ database σa = database σ ∧
                roomParticipants σa = roomParticipants σ ∧
                ioSockets σa = ioSockets σ ∧ uuidCounter σa = uuidCounter σ)
    as (σa & Hm & Hdb & Hrpa & Hsoa & Huuida).
  { unfold m. destruct ui; eexists; (split; [reflexivity|done]). }
  rewrite (bind_Return _ _ _ _ _ Hm), bind_modify.
  set (σ1 := setRoomParticipants _ σa).
  destruct (Room_addParticipant_up r rec (userId s) σ1)
    as (σ2 & Hrun & Hro & Hstored);
    [apply Hwf|simpl; by rewrite Hdb|simpl; by rewrite Hdb|].
  rewrite (bind_Return _ _ _ _ _ Hrun).
  destruct Hro as [Hmem Hem Huuid Hconn Husers Hmsgs Hrooms].
  simpl in Hconn. rewrite Hdb in Hconn.
  unfold createUserJoinedNotification, createNotification.
  rewrite (bind_Return _ _ _ _ _ (Message_create_up _ σ2
    (validate_notification r (username s) " joined the room" Hr eq_refl
       (wellFormed_joined s Hwf))
    (eq_trans Hconn Hc))).
  unfold socket_to_emit, io_to_emit. rewrite bind_modify, bind_gets, bind_modify.
  eexists. split; [reflexivity|]. simpl.
  unfold mem in Hmem. simpl in Hmem. injection Hmem as _ Hrp2 Hso2 _.
  split; [by rewrite Hrp2, Hrpa|].
  split; [rewrite Hstored; simpl; by rewrite Hdb|].
  split; [by rewrite Hconn|]. split; [by rewrite Hso2|].
  simpl in Husers. by rewrite Husers, Hdb.
Qed.

Lemma served_joinStatements σ s r rec room ui :
  r ≠ "" → rooms (database σ) !! r = Some rec → wellFormed s →
  rId room = r → rName room = name rec → rCreatedBy room = createdBy rec →
  rIsActive room = isActive rec → served σ →
  ∃ σ', joinStatements s r room ui σ = (Return tt, σ') ∧ served σ' ∧
        ioSockets σ' = ioSockets σ.
Proof.
  intros Hr Hrec Hwf Hid Hname Hby Hact Hs.
  pose proof (served_connected σ Hs) as Hc.
  destruct (joinStatements_stored σ s r rec ui Hr Hc Hrec Hwf)
    as (σ' & Hrun & Hrp & Hst & Hc' & Hso & _).
  exists σ'. split.
  { rewrite <- Hrun.
    apply joinStatements_ext; try done.
    rewrite Hid. by eexists. }
  split; [|done]. split; [done| |].
  - rewrite Hso. apply (served_wellFormed σ Hs).
  - apply (storedMatchesIndex_join (userId s) r σ σ' Hrp Hst).
    apply (served_stored σ Hs).
Qed.

Lemma served_handleJoinRoom σ s v :
  served σ → wellFormed s →
  ∃ σ', handleJoinRoom s v σ = (Return tt, σ') ∧ served σ' ∧
        ioSockets σ' = ioSockets σ.
Proof.
  intros Hs Hwf. pose proof (served_connected σ Hs) as Hc.
  unfold handleJoinRoom.
  destruct (JS.truthy v) as [r|] eqn:Hv.
  2:{ eexists. split; [reflexivity|]. split; [|done].
      by apply (served_same σ). }
  apply truthy_Some in Hv as [_ Hr].
  destruct (rooms (database σ) !! r) as [rec|] eqn:Hrec.
  2:{ eexists. split.
      { apply try_catch_Return.
        rewrite (bind_Return _ _ _ _ _ (Room_findById_up r σ Hc)), Hrec.
        reflexivity. }
      split; [|done]. by apply (served_same σ). }
  destruct (isActive rec) eqn:Hact.
  2:{ eexists. split.
      { apply try_catch_Return.
        rewrite (bind_Return _ _ _ _ _ (Room_findById_up r σ Hc)), Hrec.
        simpl. rewrite Hact. reflexivity. }
      split; [|done]. by apply (served_same σ). }
  assert (∃ σ1, match connectedUsers σ !! userId s with
                | Some info =>
                    match JS.truthy (currentRoom info) with
                    | Some _ => leaveRoom s (currentRoom info)
                    | None => ret tt
                    end
                | None => ret tt
                end σ = (Return tt, σ1) ∧ served σ1 ∧
                ioSockets σ1 = ioSockets σ ∧
                ∃ rec1, rooms (database σ1) !! r = Some rec1 ∧
                        name rec1 = name rec ∧ createdBy rec1 = createdBy rec ∧
                        isActive rec1 = isActive rec)
    as (σ1 & Hleave & Hs1 & Hso1 & rec1 & Hrec1 & Hname & Hby & Hact1).
  { destruct (connectedUsers σ !! userId s) as [info|] eqn:Hinfo.
    2:{ exists σ. split; [done|]. split; [done|]. split; [done|]. by exists rec. }
    destruct (JS.truthy (currentRoom info)) as [a|] eqn:Ha.
    2:{ exists σ. split; [done|]. split; [done|]. split; [done|]. by exists rec. }
    apply truthy_Some in Ha as [Ha Hane]. rewrite Ha.
    destruct (leaveRoom_completes s a σ Hane Hc Hwf) as (σ1 & Hrun & Hleft).
    exists σ1. split; [done|]. split; [by apply (served_left s a σ)|].
    pose proof (left_mem _ _ _ _ Hleft) as Hmem.
    unfold mem in Hmem. simpl in Hmem. injection Hmem as _ _ Hso _.
    split; [done|].
    pose proof (left_rooms _ _ _ _ Hleft r) as Hsame. rewrite Hrec in Hsame.
    destruct (rooms (database σ1) !! r) as [rec1|]; [|done].
    by exists rec1. }
  destruct (served_joinStatements σ1 s r rec1 (newRoom r rec)
              (connectedUsers σ !! userId s) Hr Hrec1 Hwf eq_refl
              (eq_sym Hname) (eq_sym Hby) (eq_sym Hact1) Hs1)
    as (σ' & Hjoin & Hs' & Hso').
  exists σ'. split; [|split; [done|congruence]].
  apply try_catch_Return.
  rewrite (bind_Return _ _ _ _ _ (Room_findById_up r σ Hc)), Hrec.
  simpl. rewrite Hact. simpl. rewrite bind_gets.
  rewrite (bind_Return _ _ _ _ _ Hleave). exact Hjoin.
Qed.

Lemma served_step σ op : served σ → enabledHandlers σ op → served (step op σ).
Proof.
  intros Hs [Hen Hop]. pose proof (served_connected σ Hs) as Hc.
  destruct op as [s|s v|s v|s v c|s v|s|db]; simpl in Hen; [| | | | | |done].
  - destruct Hs as [H1 H2 H3]. split.
    + exact H1.
    + intros k t. unfold step, run, exec. simpl.
      destruct (decide (k = id s)) as [->|Hne].
      * rewrite lookup_insert_eq. by intros [= <-].
      * rewrite lookup_insert_ne by done. apply H2.
    + exact H3.
  - destruct (served_handleJoinRoom σ s v Hs (served_wellFormed σ Hs _ _ Hen))
      as (σ' & Hrun & Hs' & _).
    unfold step, run, exec. by rewrite Hrun.
  - pose proof (served_wellFormed σ Hs _ _ Hen) as Hwf.
    unfold step, run, handleLeaveRoom.
    destruct (JS.truthy v) as [r|] eqn:Hv.
    + apply truthy_Some in Hv as [-> Hr].
      destruct (leaveRoom_completes s r σ Hr Hc Hwf) as (σ' & Hrun & Hleft).
      rewrite (exec_Return _ _ tt σ' (try_catch_Return _ _ _ _ _ Hrun)).
      by apply (served_left s r σ).
    + unfold leaveRoom. rewrite Hv. exact Hs.
  - apply (served_same σ); [|apply (keeps_exec stored),
                              keeps_stored_handleSendMessage|exact Hs].
    apply (keeps_exec mem), keeps_mem_handleSendMessage.
  - apply (served_same σ); [|apply (keeps_exec stored),
                              keeps_stored_handleGetRoomParticipants|exact Hs].
    apply (keeps_exec mem), keeps_mem_handleGetRoomParticipants.
  - pose proof (served_wellFormed σ Hs _ _ Hen) as Hwf.
    assert (served (closeMem s σ)) as Hsc.
    { destruct Hs as [H1 H2 H3]. split; [done| |done].
      intros k t. simpl. intros Ht.
      apply lookup_delete_Some in Ht as [_ Ht]. by apply (H2 k). }
    assert (∀ τ, served τ → served (setConnectedUsers (delete (userId s)) τ))
      as Hdel by (by intros τ [? ? ?]).
    unfold step, run, io_close, exec. rewrite bind_modify.
    fold (closeMem s σ). unfold handleDisconnect. rewrite bind_gets.
    change (connectedUsers (closeMem s σ)) with (connectedUsers σ).
    destruct (connectedUsers σ !! userId s) as [info|]; [|by apply Hdel].
    destruct (JS.truthy (currentRoom info)) as [a|] eqn:Ha; [|by apply Hdel].
    apply truthy_Some in Ha as [-> Hane].
    destruct (leaveRoom_completes s a (closeMem s σ) Hane Hc Hwf)
      as (σ' & Hrun & Hleft).
    rewrite (bind_Return _ _ _ _ _ Hrun). simpl.
    apply Hdel. by apply (served_left s a (closeMem s σ)).
Qed.

Lemma runsFrom_served σ0 σ :
  freshStore (database σ0) → roomParticipants σ0 = ∅ → ioSockets σ0 = ∅ →
  runsFrom enabledHandlers σ0 σ → served σ.
Proof.
  intros [Hc Hfresh] Hrp Hso Hruns.
  induction Hruns as [|σ op _ IH Hen].
  - split; [done| |].
    + intros k t Ht. by rewrite Hso, lookup_empty in Ht.
    + intros r rec Hrec. rewrite (Hfresh r rec Hrec).
      split; [constructor|]. intros u.
      rewrite Hrp, lookup_total_empty. set_solver.
  - by apply served_step.
Qed.

(** X12.  When the socket handlers alone write to the store and every event
    is handled to completion before the next one is taken up, starting with
    no connection and no participant from a connected store whose rooms
    list no participant, then in every state the participant list stored
    with a room holds exactly the users of the room's set in the
    participant index, each once: what is persisted and what is in memory
    do not drift apart, whatever the connections ask for (also with several
    connections of one user). *)
Theorem stored_participants_match_index σ0 σ :
  freshStore (database σ0) → roomParticipants σ0 = ∅ → ioSockets σ0 = ∅ →
  runsFrom enabledHandlers σ0 σ →
  connected (database σ) = true ∧ storedMatchesIndex σ.
Proof.
  intros Hfresh Hrp Hso Hruns.
  destruct (runsFrom_served σ0 σ Hfresh Hrp Hso Hruns) as [Hc _ Hstored].
  split; [exact Hc|exact Hstored].
Qed.

Lemma runsFrom_steps en ops σ0 σ :
  runsFrom en σ0 σ → allEnabled en ops σ → runsFrom en σ0 (steps ops σ).
Proof.
  revert σ. induction ops as [|op ops IH]; intros σ Hr Hen; [done|].
  destruct Hen as [Hop Hrest]. apply IH; [|done]. by apply runs_step.
Qed.

Lemma stored_participants_match_index_witness :
  connected (database Scenario.bothInRoom) = true ∧
  storedMatchesIndex Scenario.bothInRoom.
Proof.
  refine (stored_participants_match_index (initial Scenario.store)
            Scenario.bothInRoom _ _ _ _).
  - split; [reflexivity|].
    change (map_Forall (λ _ rec, participants rec = []) (rooms Scenario.store)).
    apply (bool_decide_unpack _). vm_compute. exact I.
  - reflexivity.
  - reflexivity.
  - apply (runsFrom_steps enabledHandlers
             [OpConnect Scenario.alice1; OpJoinRoom Scenario.alice1 (Some "r1");
              OpConnect Scenario.bob1; OpJoinRoom Scenario.bob1 (Some "r1")]
             _ _ (runs_start _ _)).
    cbv beta iota delta [allEnabled enabledHandlers enabled wellFormed].
    repeat match goal with
    | |- _ ∧ _ => split
    | |- True => exact I
    | |- _ ≠ _ => discriminate
    | |- _ ≤ _ => vm_compute; lia
    | |- _ = _ => vm_compute; reflexivity
    end.
Defined.

(** ** Deleting the messages of a room *)

Lemma filter_ext_in {A} (P Q : A → Prop) `{∀ x, Decision (P x)}
    `{∀ x, Decision (Q x)} (l : list A) :
  (∀ x, x ∈ l → P x ↔ Q x) → filter P l = filter Q l.
Proof.
  induction l as [|x l IH]; intros Hiff; [done|].
  assert (filter P l = filter Q l) as Hl.
  { apply IH. intros y Hy. apply Hiff. by right. }
  destruct (decide (P x)) as [Hp|Hp].
  - rewrite !filter_cons_True; [by rewrite Hl|by apply (Hiff x); [left|]|done].
  - rewrite !filter_cons_False; [done| |done].
    intros Hq. apply Hp. apply (Hiff x); [left|done].
Qed.

Lemma filter_none {A} (P : A → Prop) `{∀ x, Decision (P x)} (l : list A) :
  (∀ x, x ∈ l → ¬ P x) → filter P l = [].
Proof.
  intros Hno. induction l as [|x l IH]; [done|].
  rewrite filter_cons_False by (apply Hno; left).
  apply IH. intros y Hy. apply Hno. by right.
Qed.

Lemma filter_all {A} (P : A → Prop) `{∀ x, Decision (P x)} (l : list A) :
  (∀ x, x ∈ l → P x) → filter P l = l.
Proof.
  intros Hall. induction l as [|x l IH]; [done|].
  rewrite filter_cons_True by (apply Hall; left). f_equal.
  apply IH. intros y Hy. apply Hall. by right.
Qed.

Lemma filter_unique_id (l : list Message) m :
  NoDup (msgId <$> l) → m ∈ l → filter (λ x, msgId x = msgId m) l = [m].
Proof.
  induction l as [|x l IH]; simpl; intros Hnd Hin; [by apply elem_of_nil in Hin|].
  apply NoDup_cons in Hnd as [Hx Hnd].
  apply elem_of_cons in Hin as [->|Hin].
  - rewrite filter_cons_True by done. f_equal.
    apply filter_none. intros y Hy Heq. apply Hx.
    rewrite <- Heq. apply list_elem_of_fmap. by exists y.
  - rewrite filter_cons_False; [by apply IH|].
    intros Heq. apply Hx. rewrite Heq. apply list_elem_of_fmap. by exists m.
Qed.

Lemma NoDup_fmap_filter {A B} (f : A → B) (P : A → Prop) `{∀ x, Decision (P x)}
    (l : list A) :
  NoDup (f <$> l) → NoDup (f <$> filter P l).
Proof.
  induction l as [|x l IH]; [done|]. simpl. intros Hnd.
  apply NoDup_cons in Hnd as [Hx Hnd].
  destruct (decide (P x)).
  - rewrite filter_cons_True by done. simpl. apply NoDup_cons. split; [|by apply IH].
    intros Hin. apply Hx. apply list_elem_of_fmap in Hin as (y & -> & Hy).
    apply list_elem_of_fmap. exists y. split; [done|].
    by apply list_elem_of_filter in Hy as [_ ?].
  - rewrite filter_cons_False by done. by apply IH.
Qed.

Lemma deleteMessageById_found σ m :
  connected (database σ) = true → uniqueIds σ → m ∈ messages (database σ) →
  deleteMessageById (msgId m) σ =
    (Return (Some m),
     setDatabase (setMessages (λ _,
       filter (λ x, msgId x ≠ msgId m) (messages (database σ)))) σ).
Proof.
  intros Hc Hnd Hin. unfold deleteMessageById.
  rewrite (bind_Return _ _ _ _ _ (requireConnected_up σ Hc)), bind_gets.
  by rewrite (filter_unique_id _ m Hnd Hin).
Qed.

Lemma setMessages_same σ :
  setDatabase (setMessages (λ _, messages (database σ))) σ = σ.
Proof. by destruct σ as [? ? ? ? [] ? ?]. Qed.

Lemma mapM_deleteMessageById ms σ :
  connected (database σ) = true → uniqueIds σ →
  NoDup (msgId <$> ms) → (∀ m, m ∈ ms → m ∈ messages (database σ)) →
  mapM (λ m, deleteMessageById (msgId m)) ms σ =
    (Return (Some <$> ms),
     setDatabase (setMessages (λ _,
       filter (λ x, msgId x ∉ msgId <$> ms) (messages (database σ)))) σ).
Proof.
  revert σ. induction ms as [|m ms IH]; intros σ Hc Hu Hnd Hin.
  - simpl. unfold ret. f_equal.
    rewrite filter_all by (intros; apply not_elem_of_nil).
    symmetry. apply setMessages_same.
  - apply NoDup_cons in Hnd as [Hm Hnd]. simpl.
    rewrite (bind_Return _ _ _ _ _
               (deleteMessageById_found σ m Hc Hu (Hin m (list_elem_of_here _ _)))).
    set (σ1 := setDatabase _ σ).
    assert (uniqueIds σ1) as Hu1 by (by apply NoDup_fmap_filter).
    assert (∀ x, x ∈ ms → x ∈ messages (database σ1)) as Hin1.
    { intros x Hx. simpl. apply list_elem_of_filter. split.
      - intros Heq. apply Hm. rewrite <- Heq. apply list_elem_of_fmap. by exists x.
      - apply Hin. by right. }
    rewrite (bind_Return _ _ _ _ _ (IH σ1 Hc Hu1 Hnd Hin1)).
    unfold ret. f_equal. unfold σ1, setDatabase, setMessages. simpl.
    do 2 f_equal. rewrite list_filter_filter.
    apply filter_ext_in. intros x _. rewrite not_elem_of_cons. tauto.
Qed.

Lemma Message_deleteByRoom_up r σ :
  connected (database σ) = true → uniqueIds σ →
  Message_deleteByRoom r σ =
    (Return (length (filter (λ m, roomId m = r) (messages (database σ)))),
     setDatabase (setMessages (λ _,
       filter (λ m, roomId m ≠ r) (messages (database σ)))) σ).
Proof.
  intros Hc Hu. unfold Message_deleteByRoom, findMessagesByRoom.
  rewrite bind_bind, (bind_Return _ _ _ _ _ (requireConnected_up σ Hc)), bind_gets.
  set (ms := filter (λ m, roomId m = r) (messages (database σ))).
  rewrite (bind_Return _ _ _ _ _ (mapM_deleteMessageById ms σ Hc Hu
             (NoDup_fmap_filter _ _ _ Hu)
             (λ m Hm, proj2 (proj1 (list_elem_of_filter _ _ _) Hm)))).
  assert (filter (λ x, msgId x ∉ msgId <$> ms) (messages (database σ)) =
          filter (λ m, roomId m ≠ r) (messages (database σ))) as ->.
  2:{ unfold ret. do 3 f_equal. rewrite filter_all, length_fmap; [done|].
      intros x Hx. by apply list_elem_of_fmap in Hx as (m & -> & _). }
  apply filter_ext_in. intros x Hx. split.
  - intros Hnot Hr. apply Hnot. apply list_elem_of_fmap. exists x.
      split; [done|]. by apply list_elem_of_filter.
  - intros Hr Hid. apply list_elem_of_fmap in Hid as (m & Heq & Hm).
    apply list_elem_of_filter in Hm as [Hmr Hm].
    assert (m = x) as ->; [|done].
    pose proof (filter_unique_id _ x Hu Hx) as Hone.
    assert (m ∈ filter (λ y, msgId y = msgId x) (messages (database σ))) as Hin
      by (by apply list_elem_of_filter).
    rewrite Hone in Hin. by apply list_elem_of_singleton in Hin.
Qed.

(** X13.  [Message.deleteByRoom(roomId)] on a connected store deletes exactly the
    messages of the room and returns how many they were, the number
    [Message.countByRoom] gave before; afterwards [Message.countByRoom]
    gives 0 for the room, and the messages of every other room are what
    they were, in the same order. *)
Theorem deleteByRoom_deletes_the_rooms_messages r σ :
  connected (database σ) = true → uniqueIds σ →
  ∃ n σ',
    Message_countByRoom r σ = (Return n, σ) ∧
    Message_deleteByRoom r σ = (Return n, σ') ∧
    Message_countByRoom r σ' = (Return 0, σ') ∧
    messages (database σ') = filter (λ m, roomId m ≠ r) (messages (database σ)) ∧
    (∀ r', r' ≠ r →
       findMessagesByRoom r' σ' =
         (Return (filter (λ m, roomId m = r') (messages (database σ))), σ')) ∧
    rooms (database σ') = rooms (database σ) ∧ mem σ' = mem σ ∧ uniqueIds σ'.
Proof.
  intros Hc Hu. eexists _, _.
  split.
  { unfold Message_countByRoom, findMessagesByRoom.
    rewrite bind_bind, (bind_Return _ _ _ _ _ (requireConnected_up σ Hc)), bind_gets.
    reflexivity. }
  split; [by apply Message_deleteByRoom_up|].
  set (σ' := setDatabase _ σ).
  assert (connected (database σ') = true) as Hc' by done.
  split.
  { unfold Message_countByRoom, findMessagesByRoom.
    rewrite bind_bind, (bind_Return _ _ _ _ _ (requireConnected_up σ' Hc')), bind_gets.
    simpl. rewrite list_filter_filter.
    rewrite filter_none; [done|]. tauto. }
  split; [done|].
  split.
  { intros r' Hne. unfold findMessagesByRoom.
    rewrite (bind_Return _ _ _ _ _ (requireConnected_up σ' Hc')).
    unfold gets. do 2 f_equal. simpl. rewrite list_filter_filter.
    apply filter_ext_in. intros x _. split; [tauto|]. intros Hx. split; [done|].
    congruence. }
  split; [done|]. split; [done|]. by apply NoDup_fmap_filter.
Qed.

Lemma deleteByRoom_deletes_the_rooms_messages_witness :
  ∃ n σ',
    Message_countByRoom "r1" Scenario.bothInRoom = (Return n, Scenario.bothInRoom) ∧
    Message_deleteByRoom "r1" Scenario.bothInRoom = (Return n, σ') ∧
    Message_countByRoom "r1" σ' = (Return 0, σ') ∧
    messages (database σ') =
      filter (λ m, roomId m ≠ "r1") (messages (database Scenario.bothInRoom)) ∧
    (∀ r', r' ≠ "r1" →
       findMessagesByRoom r' σ' =
         (Return (filter (λ m, roomId m = r')
                    (messages (database Scenario.bothInRoom))), σ')) ∧
    rooms (database σ') = rooms (database Scenario.bothInRoom) ∧
    mem σ' = mem Scenario.bothInRoom ∧ uniqueIds σ'.
Proof.
  refine (deleteByRoom_deletes_the_rooms_messages "r1" Scenario.bothInRoom _ _).
  - vm_compute. reflexivity.
  - apply (bool_decide_unpack _). vm_compute. exact I.
Defined.

(** ** [RoomController.deleteRoom] *)

(** X14.  Only its creator can delete a room: a DELETE request by anyone else,
    or for a room that does not exist, is answered with an error and
    changes nothing, neither the store nor the live state; for an existing
    room and a reachable store the answer is 403. *)
Theorem deleteRoom_refuses_all_but_the_creator id u σ :
  (∀ i rec, JS.truthy id = Some i → rooms (database σ) !! i = Some rec →
            createdBy rec ≠ u) →
  ∃ status code message,
    RoomController.deleteRoom id u σ = (Return (failure status code message None), σ) ∧
    (∀ i, JS.truthy id = Some i → connected (database σ) = true →
          is_Some (rooms (database σ) !! i) → status = 403).
Proof.
  intros Hnot. unfold RoomController.deleteRoom.
  destruct (JS.truthy id) as [i|] eqn:Hid.
  2:{ exists 400, "MISSING_ROOM_ID", "Room ID is required".
      split; [reflexivity|]. intros i [=]. }
  destruct (connected (database σ)) eqn:Hc.
  2:{ exists 500, "ROOM_DELETION_FAILED", "Failed to delete room".
      split; [|intros ? _ [=]].
      by rewrite (try_catch_Throw _ _ _ _ _
                    (bind_Throw _ _ _ _ _ (Room_findById_down i σ Hc))). }
  destruct (rooms (database σ) !! i) as [rec|] eqn:Hrec.
  2:{ exists 404, "ROOM_NOT_FOUND", "Room not found".
      split; [|intros ? [= <-] _ [? Hsome]; by rewrite Hrec in Hsome].
      apply try_catch_Return.
      rewrite (bind_Return _ _ _ _ _ (Room_findById_up i σ Hc)), Hrec.
      reflexivity. }
  eexists _, _, _. split; [|reflexivity].
  apply try_catch_Return.
  rewrite (bind_Return _ _ _ _ _ (Room_findById_up i σ Hc)), Hrec. simpl.
  rewrite bool_decide_false by (by apply (Hnot i rec)). reflexivity.
Qed.

Lemma deleteRoom_refuses_all_but_the_creator_witness :
  ∃ status code message,
    RoomController.deleteRoom (Some "r1") "u2" Scenario.bothInRoom =
      (Return (failure status code message None), Scenario.bothInRoom) ∧
    (∀ i, JS.truthy (Some "r1") = Some i →
          connected (database Scenario.bothInRoom) = true →
          is_Some (rooms (database Scenario.bothInRoom) !! i) → status = 403).
Proof.
  refine (deleteRoom_refuses_all_but_the_creator (Some "r1") "u2"
            Scenario.bothInRoom _).
  intros i rec [= <-] Hrec.
  assert (createdBy <$> rooms (database Scenario.bothInRoom) !! "r1" = Some "system")
    as Hby by (vm_compute; reflexivity).
  rewrite Hrec in Hby. simpl in Hby. injection Hby as ->. discriminate.
Defined.

(** X15.  A DELETE request by the creator of a room (store reachable) removes the
    room's record and all its messages and nothing else from the store.
    The live state is not touched and nobody is notified: the users who
    are in the room stay in its participant set with the room as their
    current room.  From then on every send-message request to the room is
    answered with an error event only. *)
Theorem deleteRoom_by_the_creator i rec u σ :
  i ≠ "" → connected (database σ) = true → uniqueIds σ →
  rooms (database σ) !! i = Some rec → createdBy rec = u →
  ∃ σ',
    RoomController.deleteRoom (Some i) u σ =
      (Return (success 200 "Room deleted successfully" None), σ') ∧
    rooms (database σ') = delete i (rooms (database σ)) ∧
    messages (database σ') = filter (λ m, roomId m ≠ i) (messages (database σ)) ∧
    users (database σ') = users (database σ) ∧
    mem σ' = mem σ ∧ emitted σ' = emitted σ ∧
    ∀ s content, ∃ message details,
      handleSendMessage s (Some i) content σ' =
        (Return tt, setEmitted (λ log, log ++ [(id s, error_ev message details)]) σ').
Proof.
  intros Hi Hc Hu Hrec Hby.
  eexists. split.
  { unfold RoomController.deleteRoom. rewrite truthy_Some_ne by done.
    apply try_catch_Return.
    rewrite (bind_Return _ _ _ _ _ (Room_findById_up i σ Hc)), Hrec. simpl.
    rewrite bool_decide_true by done. simpl.
    rewrite (bind_Return _ _ _ _ _ (Message_deleteByRoom_up i σ Hc Hu)).
    set (σ1 := setDatabase _ σ).
    assert (connected (database σ1) = true) as Hc1 by done.
    unfold Room_delete.
    rewrite bind_bind, (bind_Return _ _ _ _ _ (requireConnected_up σ1 Hc1)).
    rewrite bind_bind, bind_gets. simpl. rewrite Hrec.
    rewrite bind_bind, bind_modify, bind_ret. reflexivity. }
  simpl. repeat split.
  intros s content. apply handleSendMessage_rejects.
  apply (rejected_no_room _ _ _ _ i); [by apply truthy_Some_ne|].
  simpl. apply lookup_delete_eq.
Qed.

Lemma deleteRoom_by_the_creator_witness :
  ∃ σ',
    RoomController.deleteRoom (Some "r1") "system" Scenario.bothInRoom =
      (Return (success 200 "Room deleted successfully" None), σ') ∧
    rooms (database σ') = delete "r1" (rooms (database Scenario.bothInRoom)) ∧
    messages (database σ') =
      filter (λ m, roomId m ≠ "r1") (messages (database Scenario.bothInRoom)) ∧
    users (database σ') = users (database Scenario.bothInRoom) ∧
    mem σ' = mem Scenario.bothInRoom ∧ emitted σ' = emitted Scenario.bothInRoom ∧
    ∀ s content, ∃ message details,
      handleSendMessage s (Some "r1") content σ' =
        (Return tt, setEmitted (λ log, log ++ [(id s, error_ev message details)]) σ').
Proof.
  refine (deleteRoom_by_the_creator "r1"
            {| name := "General"; createdBy := "system";
               participants := ["u1"; "u2"]; isActive := true |}
            "system" Scenario.bothInRoom _ _ _ _ _).
  - discriminate.
  - vm_compute. reflexivity.
  - apply (bool_decide_unpack _). vm_compute. exact I.
  - vm_compute. reflexivity.
  - reflexivity.
Defined.

(** ** Creating a room *)

Lemma head_filter_None {A} (P : A → Prop) `{∀ x, Decision (P x)} (l : list A) :
  head (filter P l) = None → ∀ x, x ∈ l → ¬ P x.
Proof.
  intros Hhead x Hx HP.
  assert (x ∈ filter P l) as Hin by (by apply list_elem_of_filter).
  destruct (filter P l); [by apply elem_of_nil in Hin|done].
Qed.

Section CreatingRooms.

Variable uuidText : nat → string.

Lemma Room_findByName_up n σ :
  connected (database σ) = true →
  ∃ found, Room_findByName n σ = (Return found, σ) ∧
    match found with
    | Some room =>
        ∃ rec, rooms (database σ) !! rId room = Some rec ∧ name rec = JS.trim n
    | None => ∀ i rec, rooms (database σ) !! i = Some rec → name rec ≠ JS.trim n
    end.
Proof.
  intros Hc. unfold Room_findByName.
  rewrite (bind_Return _ _ _ _ _ (requireConnected_up σ Hc)).
  eexists. split; [reflexivity|].
  destruct (head _) as [[i rec]|] eqn:Hhead; simpl.
  - apply head_Some_elem_of, list_elem_of_filter in Hhead as [Hname Hin].
    apply elem_of_map_to_list in Hin. by exists rec.
  - intros i rec Hrec.
    apply (head_filter_None _ _ Hhead (i, rec)).
    by apply elem_of_map_to_list.
Qed.

(** X16.  POST /api/rooms either adds exactly one room to the store and answers
    201 with it, or answers an error and changes nothing.  The room it adds
    is named by the trimmed name of the request, a name no stored room had,
    and which passes [Room.validateName]; it was created by the requester,
    is active and lists no participant.  If no two stored rooms had the
    same name before, no two have afterwards. *)
Theorem createRoom_adds_one_room_or_nothing requested u σ :
  match RoomController.createRoom uuidText requested u σ with
  | (Return (success status message data), σ') =>
      status = 201 ∧
      ∃ n rec,
        JS.truthy requested = Some n ∧
        data = Some (newRoom (uuidText (uuidCounter σ)) rec) ∧
        rooms (database σ') =
          <[uuidText (uuidCounter σ) := rec]> (rooms (database σ)) ∧
        name rec = JS.trim n ∧ createdBy rec = u ∧
        participants rec = [] ∧ isActive rec = true ∧
        Room_validateName (name rec) = [] ∧
        (∀ j rec', rooms (database σ) !! j = Some rec' → name rec' ≠ name rec) ∧
        (namesUnique σ → namesUnique σ') ∧
        messages (database σ') = messages (database σ) ∧
        users (database σ') = users (database σ) ∧
        mem σ' = mem σ ∧ emitted σ' = emitted σ
  | (Return (failure status code message details), σ') =>
      σ' = σ ∧ status ∈ [400; 409; 500]
  | (Throw _, _) => False
  end.
Proof.
  unfold RoomController.createRoom. destruct (JS.truthy requested) as [n|] eqn:Hn.
  2:{ simpl. split; [done|]. set_solver. }
  set (d := {| dName := JS.trim n; dCreatedBy := u;
               dParticipants := None; dIsActive := None |}).
  unfold try_catch, bind at 1, Room_create.
  destruct (Room_validate d) as [|err errs] eqn:Hv.
  2:{ simpl. split; [done|]. set_solver. }
  destruct (connected (database σ)) eqn:Hc.
  2:{ unfold Room_findByName.
      rewrite bind_bind, (bind_Throw _ _ _ _ _ (requireConnected_down σ Hc)).
      simpl. split; [done|]. set_solver. }
  destruct (Room_findByName_up (JS.trim (dName d)) σ Hc) as (found & Hrun & Hfound).
  rewrite (bind_Return _ _ _ _ _ Hrun).
  destruct found as [room|].
  { simpl. split; [done|]. set_solver. }
  rewrite (bind_Return uuidv4 _ σ (uuidCounter σ) (setUuidCounter S σ) eq_refl).
  rewrite (bind_Return _ _ _ _ _ (requireConnected_up (setUuidCounter S σ) Hc)).
  rewrite bind_modify. unfold ret. simpl.
  assert (Room_validateName (JS.trim n) = []) as Hvn.
  { unfold Room_validate in Hv. simpl in Hv. by apply app_eq_nil in Hv as [? _]. }
  simpl in Hfound. rewrite !trim_trim in Hfound.
  assert (name (roomRecord d) = JS.trim n) as Hname by (simpl; apply trim_trim).
  split; [done|]. exists n, (roomRecord d).
  split; [done|]. split; [done|]. split; [done|].
  split; [done|]. split; [done|]. split; [done|]. split; [done|].
  split; [by rewrite Hname|].
  split; [by rewrite Hname|].
  split; [|done].
  intros Huniq i j reci recj Hi Hj Heq. simpl in Hi, Hj.
  destruct (decide (i = uuidText (uuidCounter σ))) as [->|Hni],
    (decide (j = uuidText (uuidCounter σ))) as [->|Hnj]; [done| | |].
  - rewrite lookup_insert_eq in Hi. rewrite lookup_insert_ne in Hj by done.
    injection Hi as <-. rewrite Hname in Heq.
    by destruct (Hfound j recj Hj).
  - rewrite lookup_insert_eq in Hj. rewrite lookup_insert_ne in Hi by done.
    injection Hj as <-. rewrite Hname in Heq.
    by destruct (Hfound i reci Hi).
  - rewrite lookup_insert_ne in Hi, Hj by done. by apply (Huniq i j reci recj).
Qed.

End CreatingRooms.

Example createRoom_creates :
  let σ := initial Scenario.store in
  let uuidText := λ n, "room-" +:+ JS.repeat "#" n in
  RoomController.createRoom uuidText (Some "  Tea room ") "u1" σ =
    (Return (success 201 "Room created successfully"
               (Some {| rId := "room-"; rName := "Tea room"; rCreatedBy := "u1";
                        rParticipants := []; rIsActive := true |})),
     setDatabase (setRooms (<["room-" :=
        {| name := "Tea room"; createdBy := "u1"; participants := [];
           isActive := true |}]>)) (setUuidCounter S σ)) ∧
  RoomController.createRoom uuidText (Some " General") "u1" σ =
    (Return (failure 409 "ROOM_NAME_EXISTS" "Room name already exists" None), σ) ∧
  RoomController.createRoom uuidText (Some "Tea/room") "u1" σ =
    (Return (failure 400 "VALIDATION_ERROR" "Room validation failed"
       (Some ["Room name can only contain letters, numbers, spaces, underscores, and hyphens"])),
     σ).
Proof. vm_compute. repeat split. Qed.

(** ** Valid usernames and the notifications that quote them *)

Lemma User_validateUsername_nil n :
  User_validateUsername n = [] ↔
  3 ≤ String.length n ≤ 30 ∧ every isWordChar n = true.
Proof.
  unfold User_validateUsername, matches.
  destruct n as [|c t]; [simpl; split; [done|lia]|].
  change (JS.isEmpty (String c t)) with false. cbv beta iota.
  change (negb false && every isWordChar (String c t))
    with (every isWordChar (String c t)).
  destruct (Nat.ltb_spec (String.length (String c t)) 3),
    (Nat.ltb_spec 30 (String.length (String c t))),
    (every isWordChar (String c t)); simpl; split;
    first [done | lia | intros [? ?]; simpl in *; first [done | lia]].
Qed.

Lemma isWordChar_not_space c : isWordChar c = true → JS.isWhiteSpace c = false.
Proof.
  destruct c as [[] [] [] [] [] [] [] []]; vm_compute; congruence.
Qed.

Lemma trimEnd_app a b : b ≠ "" → JS.trimEnd b = b → JS.trimEnd (a +:+ b) = a +:+ b.
Proof.
  intros Hb Hfix. induction a as [|c a IH]; simpl; [done|].
  rewrite IH. change (String c a +:+ b) with (String c (a +:+ b)).
  destruct (a +:+ b) eqn:Hab; [exfalso|done].
  destruct a; simpl in Hab; [by apply Hb|discriminate].
Qed.

Lemma trim_quoted n suffix :
  every isWordChar n = true → n ≠ "" → suffix ≠ "" → JS.trimEnd suffix = suffix →
  JS.trim (n +:+ suffix) = n +:+ suffix.
Proof.
  intros Hn Hne Hs Hfix. unfold JS.trim.
  destruct n as [|c t]; [done|]. simpl in Hn.
  apply andb_true_iff in Hn as [Hc _]. apply isWordChar_not_space in Hc.
  change (String c t +:+ suffix) with (String c (t +:+ suffix)).
  assert (JS.trimStart (String c (t +:+ suffix)) = String c (t +:+ suffix)) as ->
    by (simpl; by rewrite Hc).
  by apply (trimEnd_app (String c t) suffix).
Qed.

(** X17.  For a username that passes [User.validateUsername], the notifications
    of a join and of a leave are stored (store reachable, roomId present)
    and quote the username as it is: their content is exactly
    "<username> joined the room" and "<username> left the room", their
    sender is the system and their type is 'notification'. *)
Theorem valid_username_quoted_in_notifications n r σ :
  User_validateUsername n = [] → r ≠ "" → connected (database σ) = true →
  ∃ joined left,
    createUserJoinedNotification r n σ =
      (Return joined,
       setDatabase (setMessages (λ ms, ms ++ [joined])) (setUuidCounter S σ)) ∧
    createUserLeftNotification r n σ =
      (Return left,
       setDatabase (setMessages (λ ms, ms ++ [left])) (setUuidCounter S σ)) ∧
    content joined = n +:+ " joined the room" ∧
    content left = n +:+ " left the room" ∧
    (∀ m, m = joined ∨ m = left →
          roomId m = r ∧ senderId m = "system" ∧ senderUsername m = "System" ∧
          messageType m = TNotification ∧ msgId m = uuidCounter σ).
Proof.
  intros Hvalid Hr Hc.
  apply User_validateUsername_nil in Hvalid as [Hlen Hchars].
  assert (n ≠ "") as Hne by (intros ->; simpl in Hlen; lia).
  eexists _, _.
  split.
  { unfold createUserJoinedNotification, createNotification.
    apply Message_create_up; [|done].
    apply validate_notification; [done|done|simpl; lia]. }
  split.
  { unfold createUserLeftNotification, createNotification.
    apply Message_create_up; [|done].
    apply validate_notification; [done|done|simpl; lia]. }
  split; [simpl; by apply trim_quoted|].
  split; [simpl; by apply trim_quoted|].
  intros m [->| ->]; by repeat split.
Qed.

Lemma valid_username_quoted_in_notifications_witness :
  ∃ joined left,
    createUserJoinedNotification "r1" "alice" Scenario.aliceInRoom =
      (Return joined,
       setDatabase (setMessages (λ ms, ms ++ [joined]))
         (setUuidCounter S Scenario.aliceInRoom)) ∧
    createUserLeftNotification "r1" "alice" Scenario.aliceInRoom =
      (Return left,
       setDatabase (setMessages (λ ms, ms ++ [left]))
         (setUuidCounter S Scenario.aliceInRoom)) ∧
    content joined = "alice" +:+ " joined the room" ∧
    content left = "alice" +:+ " left the room" ∧
    (∀ m, m = joined ∨ m = left →
          roomId m = "r1" ∧ senderId m = "system" ∧ senderUsername m = "System" ∧
          messageType m = TNotification ∧ msgId m = uuidCounter Scenario.aliceInRoom).
Proof.
  refine (valid_username_quoted_in_notifications "alice" "r1" Scenario.aliceInRoom
            _ _ _).
  - reflexivity.
  - discriminate.
  - vm_compute. reflexivity.
Defined.

(** ** The Authorization header *)

Lemma split_without sep s : without sep s → split sep s = [s].
Proof.
  unfold without. induction s as [|c s IH]; simpl; [done|].
  intros [Hc Hs]%andb_true_iff. apply negb_true_iff in Hc. rewrite Hc.
  by rewrite IH.
Qed.

Lemma split_app sep p q :
  without sep p → split sep (p +:+ String sep q) = p :: split sep q.
Proof.
  unfold without. induction p as [|c p IH]; simpl.
  - intros _. by rewrite Ascii.eqb_refl.
  - intros [Hc Hp]%andb_true_iff. apply negb_true_iff in Hc.
    change (String c p +:+ String sep q) with (String c (p +:+ String sep q)).
    simpl. rewrite Hc. by rewrite IH.
Qed.

Lemma split_cons sep s p ps :
  split sep s = p :: ps →
  without sep p ∧
  match ps with
  | [] => s = p
  | _ :: _ => ∃ s', s = p +:+ String sep s' ∧ split sep s' = ps
  end.
Proof.
  unfold without. revert p ps. induction s as [|c s IH]; simpl; intros p ps.
  - by intros [= <- <-].
  - destruct (Ascii.eqb c sep) eqn:Hc.
    + apply Ascii.eqb_eq in Hc as ->. intros [= <- <-]. split; [done|].
      destruct (split sep s) as [|part parts] eqn:Hs.
      * by destruct s; simpl in Hs; repeat case_match.
      * by exists s.
    + destruct (split sep s) as [|part parts] eqn:Hs.
      * by destruct s; simpl in Hs; repeat case_match.
      * intros [= <- <-]. destruct (IH part parts eq_refl) as [Hpart Hrest].
        split; [simpl; by rewrite Hc|].
        destruct parts as [|part' parts'].
        -- by rewrite Hrest.
        -- destruct Hrest as (s' & -> & Hs'). by exists s'.
Qed.

Lemma split_two sep s p q :
  split sep s = [p; q] → s = p +:+ String sep q ∧ without sep p ∧ without sep q.
Proof.
  intros Hs. apply split_cons in Hs as (Hp & s' & -> & Hs').
  apply split_cons in Hs' as (Hq & ->). done.
Qed.

(** X18.  [extractTokenFromHeader] yields a token exactly for the headers that
    read "Bearer", one space, and a token without a space, and it yields
    that token; every other header, and no header, gives null. *)
Theorem extractTokenFromHeader_reads_bearer authHeader token :
  extractTokenFromHeader authHeader = Some token ↔
  authHeader = Some ("Bearer " +:+ token) ∧ without " " token.
Proof.
  unfold extractTokenFromHeader. split.
  - destruct (JS.truthy authHeader) as [h|] eqn:Hh; [|done].
    apply truthy_Some in Hh as [-> _].
    destruct (split " " h) as [|scheme [|tok [|]]] eqn:Hs; try done.
    destruct (String.eqb_spec scheme "Bearer") as [->|]; [|done].
    intros [= ->]. by apply split_two in Hs as (-> & _ & ?).
  - intros [-> Htoken].
    assert (JS.truthy (Some ("Bearer " +:+ token)) = Some ("Bearer " +:+ token))
      as -> by reflexivity.
    change ("Bearer " +:+ token) with ("Bearer" +:+ String " " token).
    rewrite (split_app " " "Bearer" token) by done.
    by rewrite split_without.
Qed.

(** ** Blacklisted tokens *)

Section Blacklist.

Variable blacklistedTokens : gset string.
Variable jwt_verify : string → option string.

(** X19.  Once a token is blacklisted (as logout does), no handshake that
    carries it is accepted: the connection is refused with "Authentication
    failed" and the server state does not change, whatever [jwt.verify]
    says of the token.  The blacklist only grows, and every other token is
    verified as before. *)
Theorem blacklisted_token_never_connects token sid hs σ :
  JS.truthy (JS.or (authToken hs) (queryToken hs)) = Some token →
  let blacklist := blacklistToken (Some token) blacklistedTokens in
  connection blacklist jwt_verify sid hs σ =
    (Return (Some "Authentication failed"), σ) ∧
  verifyToken blacklist jwt_verify token σ =
    (Throw (Error "Token has been invalidated"), σ) ∧
  blacklistedTokens ⊆ blacklist ∧
  ∀ other, other ≠ token →
    verifyToken blacklist jwt_verify other σ =
    verifyToken blacklistedTokens jwt_verify other σ.
Proof.
  intros Htoken blacklist.
  pose proof (truthy_Some _ _ Htoken) as [_ Hne].
  assert (blacklist = {[token]} ∪ blacklistedTokens) as Hbl.
  { unfold blacklist, blacklistToken. by rewrite truthy_Some_ne. }
  assert (verifyToken blacklist jwt_verify token σ =
            (Throw (Error "Token has been invalidated"), σ)) as Hverify.
  { unfold verifyToken.
    assert (JS.isEmpty token = false) as -> by (by apply isEmpty_false).
    rewrite bool_decide_true; [done|]. rewrite Hbl. set_solver. }
  split.
  { unfold connection, middleware. rewrite Htoken.
    rewrite (bind_Return _ _ σ (next_error "Authentication failed") σ); [done|].
    by rewrite (try_catch_Throw _ _ _ _ _ (bind_Throw _ _ _ _ _ Hverify)). }
  split; [done|]. split; [rewrite Hbl; set_solver|].
  intros other Hother. unfold verifyToken.
  destruct (JS.isEmpty other); [done|].
  rewrite Hbl. destruct (decide (other ∈ blacklistedTokens)).
  - by rewrite !bool_decide_true by set_solver.
  - by rewrite !bool_decide_false by set_solver.
Qed.

End Blacklist.

Lemma blacklisted_token_never_connects_witness :
  let hs := {| authToken := Some "token-of-bob"; queryToken := None |} in
  let jwt_verify := λ _ : string, Some "u2" in
  let blacklist := blacklistToken (Some "token-of-bob") ∅ in
  connection blacklist jwt_verify "s7" hs Scenario.aliceInRoom =
    (Return (Some "Authentication failed"), Scenario.aliceInRoom) ∧
  verifyToken blacklist jwt_verify "token-of-bob" Scenario.aliceInRoom =
    (Throw (Error "Token has been invalidated"), Scenario.aliceInRoom) ∧
  ∅ ⊆ blacklist ∧
  ∀ other, other ≠ "token-of-bob" →
    verifyToken blacklist jwt_verify other Scenario.aliceInRoom =
    verifyToken ∅ jwt_verify other Scenario.aliceInRoom.
Proof.
  intros hs jwt_verify.
  refine (blacklisted_token_never_connects ∅ jwt_verify "token-of-bob" "s7" hs
            Scenario.aliceInRoom _).
  reflexivity.
Defined.

(** ** Start-up *)

Section StartingUp.

Variable uuidText : nat → string.

Lemma runInitialSetup_up σ :
  connected (database σ) = true →
  DatabaseManager.runInitialSetup uuidText σ =
    (Return tt,
     if decide (rooms (database σ) = ∅)
     then setDatabase (setRooms (λ _,
            <[uuidText (S (uuidCounter σ)) := DatabaseManager.randomRoom]>
              {[ uuidText (uuidCounter σ) := DatabaseManager.generalRoom ]}))
            (setUuidCounter (λ n, S (S n)) σ)
     else σ).
Proof.
  intros Hc. unfold DatabaseManager.runInitialSetup.
  rewrite bind_bind, (bind_Return _ _ _ _ _ (requireConnected_up σ Hc)), bind_gets.
  destruct (decide (rooms (database σ) = ∅)) as [Hempty|Hne].
  - rewrite Hempty, map_to_list_empty. simpl.
    unfold DatabaseManager.createRoomRecord, bind, requireConnected, uuidv4,
      modify, ret. simpl.
    rewrite Hc. simpl. rewrite Hc. simpl.
    f_equal. unfold setDatabase, setRooms, setUuidCounter. simpl.
    by rewrite Hempty, insert_empty.
  - destruct (map_to_list (rooms (database σ))) eqn:Hl; [|done].
    by apply map_to_list_empty_iff in Hl.
Qed.

(** X20.  [DatabaseManager.initialize] connects the store and succeeds at
    the first attempt.  A
    store that holds rooms keeps them as they are; in a store without
    rooms it creates the two default rooms "General" and "Random", active
    and without participants.  Nothing else changes; if the rooms listed no
    participant before, the store is ready for the socket handlers, and a
    second [DatabaseManager.initialize] changes no room. *)
Theorem initialize_prepares_the_store σ :
  ∃ σ',
    DatabaseManager.initialize uuidText σ = (Return true, σ') ∧
    connected (database σ') = true ∧
    mem σ' = mem σ ∧ emitted σ' = emitted σ ∧
    messages (database σ') = messages (database σ) ∧
    users (database σ') = users (database σ) ∧
    (rooms (database σ) ≠ ∅ → rooms (database σ') = rooms (database σ)) ∧
    (rooms (database σ) = ∅ →
     rooms (database σ') =
       <[uuidText (S (uuidCounter σ)) := DatabaseManager.randomRoom]>
         {[ uuidText (uuidCounter σ) := DatabaseManager.generalRoom ]}) ∧
    rooms (database σ') ≠ ∅ ∧
    ((∀ r rec, rooms (database σ) !! r = Some rec → participants rec = []) →
     freshStore (database σ')) ∧
    rooms (database (exec (DatabaseManager.initialize uuidText) σ')) = rooms (database σ').
Proof.
  set (σ0 := setDatabase (setConnected (λ _, true)) σ).
  assert (connected (database σ0) = true) as Hc0 by done.
  assert (∀ τ, connected (database τ) = true →
            DatabaseManager.initialize uuidText τ =
              (Return true, (DatabaseManager.runInitialSetup uuidText τ).2)) as Hinit.
  { intros τ Hc. unfold DatabaseManager.initialize, DatabaseManager.initializeLoop.
    apply try_catch_Return.
    unfold db_connect. rewrite !bind_bind, bind_modify, !bind_ret.
    assert (setDatabase (setConnected (λ _, true)) τ = τ) as ->.
    { destruct τ as [? ? ? ? [] ? ?]. simpl in Hc. by subst. }
    rewrite (bind_Return _ _ _ _ _ (runInitialSetup_up τ Hc)).
    by rewrite (runInitialSetup_up τ Hc). }
  assert (DatabaseManager.initialize uuidText σ =
            (Return true, (DatabaseManager.runInitialSetup uuidText σ0).2)) as Hrun.
  { unfold DatabaseManager.initialize, DatabaseManager.initializeLoop.
    apply try_catch_Return.
    unfold db_connect. rewrite !bind_bind, bind_modify, !bind_ret. fold σ0.
    rewrite (bind_Return _ _ _ _ _ (runInitialSetup_up σ0 Hc0)).
    by rewrite (runInitialSetup_up σ0 Hc0). }
  rewrite (runInitialSetup_up σ0 Hc0) in Hrun. simpl in Hrun.
  eexists. split; [exact Hrun|].
  change (rooms (database σ0)) with (rooms (database σ)).
  change (uuidCounter σ0) with (uuidCounter σ).
  destruct (decide (rooms (database σ) = ∅)) as [Hempty|Hne]; simpl.
  - split; [done|]. split; [done|]. split; [done|]. split; [done|].
    split; [done|]. split; [done|]. split; [done|].
    assert (<[uuidText (S (uuidCounter σ)) := DatabaseManager.randomRoom]>
              ({[uuidText (uuidCounter σ) := DatabaseManager.generalRoom]}
                 : gmap string RoomRecord)
            ≠ ∅) as Hfull.
    { intros Heq. apply (f_equal (λ m, m !! uuidText (S (uuidCounter σ)))) in Heq.
      by rewrite lookup_insert_eq, lookup_empty in Heq. }
    split; [done|].
    split.
    { intros _. split; [done|]. simpl. intros r rec Hrec.
      apply lookup_insert_Some in Hrec as [[_ <-]|[_ Hrec]]; [done|].
      by apply lookup_singleton_Some in Hrec as [_ <-]. }
    set (σ' := setDatabase _ _).
    unfold exec. rewrite (Hinit σ' eq_refl), (runInitialSetup_up σ' eq_refl).
    simpl. by rewrite decide_False.
  - split; [done|]. split; [done|]. split; [done|]. split; [done|].
    split; [done|]. split; [done|]. split; [by intros ?|]. split; [done|].
    split. { intros Hfresh. by split. }
    unfold exec. rewrite (Hinit σ0 Hc0), (runInitialSetup_up σ0 Hc0).
    simpl. by rewrite decide_False.
Qed.

End StartingUp.

(** ** Listing the rooms *)

Lemma Room_findActive_up σ :
  connected (database σ) = true →
  Room_findActive σ =
    (Return ((λ p, newRoom p.1 p.2) <$>
               filter (λ p, isActive p.2 = true) (map_to_list (rooms (database σ)))),
     σ).
Proof.
  intros Hc. unfold Room_findActive.
  by rewrite (bind_Return _ _ _ _ _ (requireConnected_up σ Hc)).
Qed.

(** X21.  While the socket handlers alone write to the store and every event
    is handled to completion before the next one is taken up (starting with
    no connection from a connected store whose rooms list no participant),
    GET /api/rooms lists every active room once, with its name, and with a
    [participantCount] that is the number of users who are in the room
    right now according to the participant index; inactive rooms are not
    listed.  The request changes nothing. *)
Theorem getRooms_counts_the_users_present σ0 σ :
  freshStore (database σ0) → roomParticipants σ0 = ∅ → ioSockets σ0 = ∅ →
  runsFrom enabledHandlers σ0 σ →
  ∃ listed,
    RoomController.getRooms σ = (Return (rooms_listed listed (length listed)), σ) ∧
    NoDup (pubId <$> listed) ∧
    (∀ i rec, rooms (database σ) !! i = Some rec → isActive rec = true →
       {| pubId := i; pubName := name rec;
          participantCount := size (roomParticipants σ !!! i);
          pubIsActive := true |} ∈ listed) ∧
    (∀ p, p ∈ listed →
       ∃ rec, rooms (database σ) !! pubId p = Some rec ∧ isActive rec = true ∧
              pubName p = name rec ∧ pubIsActive p = true ∧
              participantCount p = size (roomParticipants σ !!! pubId p)).
Proof.
  intros Hfresh Hrp Hso Hruns.
  destruct (runsFrom_served σ0 σ Hfresh Hrp Hso Hruns) as [Hc _ Hstored].
  assert (∀ i rec, rooms (database σ) !! i = Some rec →
            length (participants rec) = size (roomParticipants σ !!! i)) as Hcount.
  { intros i rec Hrec. destruct (Hstored i rec Hrec) as [Hnd Hiff].
    rewrite <- (size_list_to_set (C := gset string)) by done.
    f_equal. apply set_eq. intros u. by rewrite elem_of_list_to_set. }
  set (active := filter (λ p, isActive p.2 = true) (map_to_list (rooms (database σ)))).
  exists (toPublic <$> ((λ p, newRoom p.1 p.2) <$> active)).
  split.
  { unfold RoomController.getRooms. apply try_catch_Return.
    by rewrite (bind_Return _ _ _ _ _ (Room_findActive_up σ Hc)). }
  split.
  { rewrite <- !list_fmap_compose.
    assert ((pubId ∘ toPublic ∘ (λ p : string * RoomRecord, newRoom p.1 p.2)) <$> active
            = active.*1) as -> by (by apply list_fmap_ext).
    assert (NoDup (map_to_list (rooms (database σ))).*1) as Hnd
      by apply NoDup_fst_map_to_list.
    unfold active. by apply NoDup_fmap_filter. }
  split.
  - intros i rec Hrec Hact.
    apply list_elem_of_fmap. exists (newRoom i rec). split.
    + unfold toPublic. simpl. rewrite Hact. f_equal. symmetry. by apply Hcount.
    + apply list_elem_of_fmap. exists (i, rec). split; [done|].
      apply list_elem_of_filter. split; [done|]. by apply elem_of_map_to_list.
  - intros p Hp.
    apply list_elem_of_fmap in Hp as (room & -> & Hroom).
    apply list_elem_of_fmap in Hroom as ([i rec] & -> & Hin).
    apply list_elem_of_filter in Hin as [Hact Hin]. simpl in Hact.
    apply elem_of_map_to_list in Hin. exists rec. simpl.
    split; [done|]. split; [done|]. split; [done|]. split; [done|].
    by apply Hcount.
Qed.

Lemma getRooms_counts_the_users_present_witness :
  let σ := Scenario.bothInRoom in
  ∃ listed,
    RoomController.getRooms σ = (Return (rooms_listed listed (length listed)), σ) ∧
    NoDup (pubId <$> listed) ∧
    (∀ i rec, rooms (database σ) !! i = Some rec → isActive rec = true →
       {| pubId := i; pubName := name rec;
          participantCount := size (roomParticipants σ !!! i);
          pubIsActive := true |} ∈ listed) ∧
    (∀ p, p ∈ listed →
       ∃ rec, rooms (database σ) !! pubId p = Some rec ∧ isActive rec = true ∧
              pubName p = name rec ∧ pubIsActive p = true ∧
              participantCount p = size (roomParticipants σ !!! pubId p)).
Proof.
  refine (getRooms_counts_the_users_present (initial Scenario.store)
            Scenario.bothInRoom _ _ _ _).
  - split; [reflexivity|].
    change (map_Forall (λ _ rec, participants rec = []) (rooms Scenario.store)).
    apply (bool_decide_unpack _). vm_compute. exact I.
  - reflexivity.
  - reflexivity.
  - apply (runsFrom_steps enabledHandlers
             [OpConnect Scenario.alice1; OpJoinRoom Scenario.alice1 (Some "r1");
              OpConnect Scenario.bob1; OpJoinRoom Scenario.bob1 (Some "r1")]
             _ _ (runs_start _ _)).
    cbv beta iota delta [allEnabled enabledHandlers enabled wellFormed].
    repeat match goal with
    | |- _ ∧ _ => split
    | |- True => exact I
    | |- _ ≠ _ => discriminate
    | |- _ ≤ _ => vm_compute; lia
    | |- _ = _ => vm_compute; reflexivity
    end.
Defined.

(** ** Joining without a current room, step by step *)

Lemma handleJoinRoom_no_leave σ s r rec σ' :
  r ≠ "" → connected (database σ) = true →
  rooms (database σ) !! r = Some rec → isActive rec = true →
  (∀ info, connectedUsers σ !! userId s = Some info →
           JS.truthy (currentRoom info) = None) →
  joinStatements s r (newRoom r rec) (connectedUsers σ !! userId s) σ =
    (Return tt, σ') →
  handleJoinRoom s (Some r) σ = (Return tt, σ').
Proof.
  intros Hr Hc Hrec Hact Hnone Hjoin.
  unfold handleJoinRoom. rewrite truthy_Some_ne by done.
  apply try_catch_Return.
  rewrite (bind_Return _ _ _ _ _ (Room_findById_up r σ Hc)), Hrec. simpl.
  rewrite Hact. simpl. rewrite bind_gets.
  destruct (connectedUsers σ !! userId s) as [info|] eqn:Hinfo.
  - rewrite (Hnone info eq_refl), bind_ret. exact Hjoin.
  - rewrite bind_ret. exact Hjoin.
Qed.

Lemma joinStatements_unregistered σ s r rec :
  r ≠ "" → connected (database σ) = true →
  rooms (database σ) !! r = Some rec → wellFormed s →
  connectedUsers σ !! userId s = None →
  ∃ σ', joinStatements s r (newRoom r rec) None σ = (Return tt, σ') ∧
        hasJoined s r rec σ σ'.
Proof.
  intros Hr Hc Hrec Hwf Hinfo. unfold joinStatements, socket_join.
  rewrite bind_modify, bind_ret, bind_modify.
  set (σ1 := setRoomParticipants _ _).
  assert (mem σ1 = mem (joinMem s r σ)) as Hm1.
  { unfold mem, σ1. simpl. f_equal. f_equal. f_equal.
    symmetry. apply alter_id. intros info Hi. congruence. }
  destruct (Room_addParticipant_up r rec (userId s) σ1)
    as (σ2 & Hrun & Hro & Hstored); [apply Hwf|done|done|].
  rewrite (bind_Return _ _ _ _ _ Hrun).
  destruct Hro as [Hmem Hem Huuid Hconn Husers Hmsgs Hrooms].
  unfold createUserJoinedNotification, createNotification.
  rewrite (bind_Return _ _ _ _ _ (Message_create_up _ σ2
    (validate_notification r (username s) " joined the room" Hr eq_refl
       (wellFormed_joined s Hwf))
    (eq_trans Hconn Hc))).
  unfold socket_to_emit, io_to_emit. rewrite bind_modify, bind_gets, bind_modify.
  eexists. split; [reflexivity|].
  assert (ioRooms σ2 = ioRooms σ1) as Hio by (unfold mem in Hmem; congruence).
  split; simpl.
  - change (mem σ2 = mem (joinMem s r σ)). congruence.
  - rewrite Hem, Hio, Huuid. simpl. unfold joinEvents.
    rewrite joined_others, lookup_total_insert_eq. rewrite <- !app_assoc.
    erewrite (getRoomParticipantsList_mem _ (joinMem s r σ)); [done|].
    unfold mem in *. simpl in *. congruence.
  - by rewrite Hconn.
  - done.
  - by rewrite Hmsgs, Huuid.
  - exact Hstored.
Qed.

Lemma leaveMem_mem s r σ1 σ2 :
  mem σ1 = mem σ2 → mem (leaveMem s r σ1) = mem (leaveMem s r σ2).
Proof. unfold mem, leaveMem. simpl. by intros [= -> -> -> ->]. Qed.

(** ** Leaving undoes joining *)

(** X22.  Take a connection in no room and an active room that does not hold
    it yet: its user is neither in the room's participant set nor in the
    room's stored participant list, and its socket is not in the room's
    transport group.  When the connection joins the room and then leaves it
    (store reachable, each request handled to completion), it is where it
    was: the registry, the connected sockets, the participant set and the
    transport group of every room, and the stored rooms with their
    participant lists are as before the join.  What remains are the two
    system notifications, one of the join and one of the leave, in the
    stored messages, and the events sent. *)
Theorem leave_undoes_join σ s r rec info :
  connectedUsers σ !! userId s = Some info → currentRoom info = None →
  r ≠ "" → connected (database σ) = true →
  rooms (database σ) !! r = Some rec → isActive rec = true → wellFormed s →
  (userId s ∉ roomParticipants σ !!! r) → (userId s ∉ participants rec) →
  (id s ∉ ioRooms σ !!! r) →
  let σ' := step (OpLeaveRoom s (Some r)) (step (OpJoinRoom s (Some r)) σ) in
  connectedUsers σ' = connectedUsers σ ∧ ioSockets σ' = ioSockets σ ∧
  (∀ r', roomParticipants σ' !!! r' = roomParticipants σ !!! r') ∧
  (∀ r', ioRooms σ' !!! r' = ioRooms σ !!! r') ∧
  rooms (database σ') = rooms (database σ) ∧
  users (database σ') = users (database σ) ∧
  ∃ joined left,
    messages (database σ') = messages (database σ) ++ [joined; left] ∧
    content joined = JS.trim (username s +:+ " joined the room") ∧
    content left = JS.trim (username s +:+ " left the room").
Proof.
  intros Hinfo Hroom Hr Hc Hrec Hact Hwf Hidx Hstored Hio σ'.
  assert (JS.truthy (currentRoom info) = None) as Hnone by (by rewrite Hroom).
  destruct (joinStatements_completes σ s r rec info Hr Hc Hrec Hwf Hinfo)
    as (σ1 & Hjoin & Hjoined).
  destruct (joinStatements_stored σ s r rec (Some info) Hr Hc Hrec Hwf)
    as (σ1' & Hjoin' & _ & Hrooms1 & Hc1 & _ & Husers1).
  assert (σ1' = σ1) as -> by congruence.
  assert (step (OpJoinRoom s (Some r)) σ = σ1) as Hstep1.
  { apply (exec_Return _ _ tt).
    apply (handleJoinRoom_no_leave σ s r rec σ1 Hr Hc Hrec Hact).
    - intros info' Hinfo'. congruence.
    - by rewrite Hinfo. }
  destruct (leaveRoom_completes s r σ1 Hr Hc1 Hwf) as (σ2 & Hleave & Hleft).
  assert (σ' = σ2) as Heq.
  { unfold σ'. rewrite Hstep1. unfold step, run, handleLeaveRoom.
    apply (exec_Return _ _ tt). by apply try_catch_Return. }
  clearbody σ'. subst σ'. clear Hstep1.
  pose proof (left_mem _ _ _ _ Hleft) as Hmem2.
  rewrite (leaveMem_mem s r σ1 (joinMem s r σ) (joined_mem _ _ _ _ _ Hjoined))
    in Hmem2.
  unfold mem in Hmem2. simpl in Hmem2. injection Hmem2 as Hcu Hrp Hso Hior.
  split.
  { rewrite Hcu. apply map_eq. intros u.
    destruct (decide (u = userId s)) as [->|Hne].
    - rewrite !lookup_alter_eq, Hinfo. simpl. f_equal.
      unfold clearRoom, setRoom. simpl. rewrite bool_decide_true by done.
      destruct info. simpl in *. by subst.
    - by rewrite !lookup_alter_ne. }
  split; [done|].
  split.
  { intros r'. rewrite Hrp. apply set_eq. intros u.
    rewrite elem_of_indexRemove, elem_of_indexAdd. split; [|naive_solver].
    intros [[?|[-> ->]] Hn]; [done|]. by destruct Hn. }
  split.
  { intros r'. rewrite Hior. apply set_eq. intros k.
    rewrite elem_of_alter_difference. split.
    - intros [Hk Hn]. destruct (decide (r' = r)) as [->|Hne].
      + rewrite lookup_total_insert_eq in Hk. set_solver.
      + by rewrite lookup_total_insert_ne in Hk.
    - intros Hk. destruct (decide (r' = r)) as [->|Hne].
      + rewrite lookup_total_insert_eq. split; [set_solver|].
        intros [-> _]. done.
      + rewrite lookup_total_insert_ne by done. split; [done|]. by intros [_ ?]. }
  split.
  { rewrite (left_stored _ _ _ _ Hleft), Hrooms1. apply map_eq. intros j.
    destruct (decide (j = r)) as [->|Hne].
    - rewrite !lookup_alter_eq, Hrec. simpl. f_equal.
      unfold dropParticipant, withParticipant. simpl.
      rewrite bool_decide_false by done. rewrite removeFirst_snoc by done.
      by destruct rec.
    - by rewrite !lookup_alter_ne. }
  split.
  { by rewrite (left_users _ _ _ _ Hleft). }
  exists (joinedNotification s r (uuidCounter σ)), (leftNotification s r (uuidCounter σ1)).
  split; [|done].
  rewrite (left_messages _ _ _ _ Hleft), (joined_messages _ _ _ _ _ Hjoined).
  assert (is_Some (rooms (database σ1) !! r)) as [rec1 ->].
  { rewrite Hrooms1, lookup_alter_eq, Hrec. by eexists. }
  by rewrite <- app_assoc.
Qed.

Lemma leave_undoes_join_witness :
  let σ := step (OpConnect Scenario.bob1) Scenario.aliceInRoom in
  let s := Scenario.bob1 in
  let σ' := step (OpLeaveRoom s (Some "r1")) (step (OpJoinRoom s (Some "r1")) σ) in
  connectedUsers σ' = connectedUsers σ ∧ ioSockets σ' = ioSockets σ ∧
  (∀ r', roomParticipants σ' !!! r' = roomParticipants σ !!! r') ∧
  (∀ r', ioRooms σ' !!! r' = ioRooms σ !!! r') ∧
  rooms (database σ') = rooms (database σ) ∧
  users (database σ') = users (database σ) ∧
  ∃ joined left,
    messages (database σ') = messages (database σ) ++ [joined; left] ∧
    content joined = JS.trim (username s +:+ " joined the room") ∧
    content left = JS.trim (username s +:+ " left the room").
Proof.
  intros σ s.
  refine (leave_undoes_join σ s "r1"
            {| name := "General"; createdBy := "system";
               participants := ["u1"]; isActive := true |}
            {| socketId := "s3"; infoUsername := "bob"; currentRoom := None |}
            _ _ _ _ _ _ _ _ _ _).
  - vm_compute. reflexivity.
  - reflexivity.
  - discriminate.
  - vm_compute. reflexivity.
  - vm_compute. reflexivity.
  - reflexivity.
  - split; [discriminate|]. simpl. lia.
  - apply (bool_decide_unpack _). vm_compute. exact I.
  - apply (bool_decide_unpack _). vm_compute. exact I.
  - apply (bool_decide_unpack _). vm_compute. exact I.
Defined.

(** ** Disconnecting undoes connecting *)

(** X23.  A new socket (its id is not connected and in no transport group) of
    a user who has no registry entry, that is no other connection, that
    connects and disconnects without joining a room leaves no trace but its
    'connected' event: registry, participant index, connected sockets,
    transport rooms and the store are as before, whether or not the store
    can be reached. *)
Theorem disconnect_undoes_connect σ s :
  ioSockets σ !! id s = None → connectedUsers σ !! userId s = None →
  (∀ r, id s ∉ ioRooms σ !!! r) →
  let σ' := step (OpDisconnect s) (step (OpConnect s) σ) in
  connectedUsers σ' = connectedUsers σ ∧
  roomParticipants σ' = roomParticipants σ ∧
  ioSockets σ' = ioSockets σ ∧
  (∀ r, ioRooms σ' !!! r = ioRooms σ !!! r) ∧
  database σ' = database σ ∧ uuidCounter σ' = uuidCounter σ ∧
  emitted σ' = emitted σ ++ [(id s, connected_ev (userId s) (username s))].
Proof.
  intros Hsock Huser Hrooms σ'.
  set (σ1 := step (OpConnect s) σ).
  assert (σ1 = setEmitted (λ log, log ++ [(id s, connected_ev (userId s) (username s))])
                 (connectMem s σ)) as H1 by reflexivity.
  assert (σ' = setConnectedUsers (delete (userId s)) (closeMem s σ1)) as Heq.
  { apply (step_disconnect_no_room σ1 s
             {| socketId := id s; infoUsername := username s; currentRoom := None |});
      [|done].
    rewrite H1. simpl. apply lookup_insert_eq. }
  clearbody σ'. subst σ'. rewrite H1. simpl.
  split; [by apply delete_insert_id|]. split; [done|].
  split; [by apply delete_insert_id|].
  split; [|done].
  intros r. apply set_eq. intros k. rewrite elem_of_fmap_difference.
  split; [tauto|]. intros Hk. split; [done|]. intros ->. by apply (Hrooms r).
Qed.

Lemma disconnect_undoes_connect_witness :
  let σ := Scenario.aliceInRoom in
  let s := Scenario.bob1 in
  let σ' := step (OpDisconnect s) (step (OpConnect s) σ) in
  connectedUsers σ' = connectedUsers σ ∧
  roomParticipants σ' = roomParticipants σ ∧
  ioSockets σ' = ioSockets σ ∧
  (∀ r, ioRooms σ' !!! r = ioRooms σ !!! r) ∧
  database σ' = database σ ∧ uuidCounter σ' = uuidCounter σ ∧
  emitted σ' = emitted σ ++ [(id s, connected_ev (userId s) (username s))].
Proof.
  intros σ s.
  refine (disconnect_undoes_connect σ s _ _ _).
  - vm_compute. reflexivity.
  - vm_compute. reflexivity.
  - intros r.
    assert (ioRooms σ = {[ "r1" := {[ "s1" ]} ]}) as -> by (vm_compute; reflexivity).
    destruct (decide (r = "r1")) as [->|Hne].
    + rewrite lookup_total_singleton. apply (bool_decide_unpack _). vm_compute. exact I.
    + rewrite lookup_total_singleton_ne by done. apply not_elem_of_empty.
Defined.

(** ** Joining without a registry entry *)

(** X24.  A connected socket whose user has no registry entry (the entry was
    removed when another connection of the user disconnected) can still
    join an active room: the user enters the room's participant set and
    the socket its transport room, and room-joined is sent.  But no current
    room is recorded, the participant list sent does not hold the joiner,
    and a send-message request of the socket to that room is refused with
    "You must be in the room to send messages". *)
Theorem join_without_registry_entry σ s r rec :
  connectedUsers σ !! userId s = None →
  r ≠ "" → connected (database σ) = true →
  rooms (database σ) !! r = Some rec → isActive rec = true → wellFormed s →
  let σ' := step (OpJoinRoom s (Some r)) σ in
  userId s ∈ roomParticipants σ' !!! r ∧ id s ∈ ioRooms σ' !!! r ∧
  connectedUsers σ' = connectedUsers σ ∧ ¬ inRoom σ' s r ∧
  (∃ before ps,
     emitted σ' = emitted σ ++ before ++ [(id s, room_joined r (name rec) ps)] ∧
     ∀ p, p ∈ ps → pUserId p ≠ userId s) ∧
  ∀ c, c ≠ "" →
    handleSendMessage s (Some r) (Some c) σ' =
      (Return tt,
       setEmitted (λ log, log ++
         [(id s, error_ev "You must be in the room to send messages" None)]) σ').
Proof.
  intros Hinfo Hr Hc Hrec Hact Hwf σ'.
  destruct (joinStatements_unregistered σ s r rec Hr Hc Hrec Hwf Hinfo)
    as (σ1 & Hjoin & Hjoined).
  assert (σ' = σ1) as Heq.
  { apply (exec_Return _ _ tt).
    apply (handleJoinRoom_no_leave σ s r rec σ1 Hr Hc Hrec Hact).
    - intros info' Hinfo'. congruence.
    - by rewrite Hinfo. }
  clearbody σ'. subst σ'.
  pose proof (joined_mem _ _ _ _ _ Hjoined) as Hmem.
  unfold mem in Hmem. simpl in Hmem. injection Hmem as Hcu Hrp Hso Hio.
  assert (connectedUsers σ1 = connectedUsers σ) as Hcu'.
  { rewrite Hcu. apply alter_id. intros info Hi. congruence. }
  split. { rewrite Hrp. apply elem_of_indexAdd. by right. }
  split. { rewrite Hio, lookup_total_insert_eq. set_solver. }
  split; [done|].
  split. { intros (info & Hi & _). congruence. }
  split.
  { rewrite (joined_emitted _ _ _ _ _ Hjoined). unfold joinEvents.
    eexists _, _. split; [by rewrite (app_assoc _ _ [_])|].
    intros p Hp Heq. apply elem_of_getRoomParticipantsList in Hp
      as (u & info & _ & Hi & ->). simpl in *. subst u.
    rewrite lookup_alter_eq, Hinfo in Hi. done. }
  intros c Hcne. unfold handleSendMessage.
  rewrite !truthy_Some_ne by done. apply try_catch_Return.
  rewrite bind_gets, Hcu', Hinfo. reflexivity.
Qed.

Lemma join_without_registry_entry_witness :
  let σ := steps [OpConnect Scenario.alice1; OpConnect Scenario.alice2;
                  OpDisconnect Scenario.alice2] (initial Scenario.store) in
  let s := Scenario.alice1 in
  let σ' := step (OpJoinRoom s (Some "r1")) σ in
  userId s ∈ roomParticipants σ' !!! "r1" ∧ id s ∈ ioRooms σ' !!! "r1" ∧
  connectedUsers σ' = connectedUsers σ ∧ ¬ inRoom σ' s "r1" ∧
  (∃ before ps,
     emitted σ' = emitted σ ++ before ++ [(id s, room_joined "r1" "General" ps)] ∧
     ∀ p, p ∈ ps → pUserId p ≠ userId s) ∧
  ∀ c, c ≠ "" →
    handleSendMessage s (Some "r1") (Some c) σ' =
      (Return tt,
       setEmitted (λ log, log ++
         [(id s, error_ev "You must be in the room to send messages" None)]) σ').
Proof.
  intros σ s.
  refine (join_without_registry_entry σ s "r1" Scenario.general _ _ _ _ _ _).
  - vm_compute. reflexivity.
  - discriminate.
  - vm_compute. reflexivity.
  - vm_compute. reflexivity.
  - reflexivity.
  - split; [discriminate|]. simpl. lia.
Defined.

(** ** One room per user *)

(** X25.  With one connection per user and every event handled to completion
    before the next one is taken up, no user is in the participant sets of
    two rooms at once, no socket is in the transport groups of two rooms at
    once, and the room whose set holds a user is the current room of the
    user's registry entry. *)
Theorem one_room_per_user_in_index σ u r1 r2 :
  reachable1 σ →
  u ∈ roomParticipants σ !!! r1 → u ∈ roomParticipants σ !!! r2 →
  r1 = r2 ∧
  (∃ info, connectedUsers σ !! u = Some info ∧ currentRoom info = Some r1) ∧
  ∀ k ra rb, k ∈ ioRooms σ !!! ra → k ∈ ioRooms σ !!! rb → ra = rb.
Proof.
  intros Hreach H1 H2. pose proof (reachable1_consistent σ Hreach) as Hc.
  apply (cons_index σ Hc) in H1 as (info1 & Hi1 & Hr1).
  apply (cons_index σ Hc) in H2 as (info2 & Hi2 & Hr2).
  split; [congruence|]. split; [by exists info1|].
  intros k ra rb Ha Hb.
  apply (cons_rooms σ Hc) in Ha as (ta & ia & Hta & Hia & Hra).
  apply (cons_rooms σ Hc) in Hb as (tb & ib & Htb & Hib & Hrb).
  congruence.
Qed.

Lemma one_room_per_user_in_index_witness :
  "r1" = "r1" ∧
  (∃ info, connectedUsers Scenario.bothInRoom !! "u2" = Some info ∧
           currentRoom info = Some "r1") ∧
  ∀ k ra rb, k ∈ ioRooms Scenario.bothInRoom !!! ra →
             k ∈ ioRooms Scenario.bothInRoom !!! rb → ra = rb.
Proof.
  refine (one_room_per_user_in_index Scenario.bothInRoom "u2" "r1" "r1" _ _ _).
  - apply (reachable_by_steps enabled1
             [OpConnect Scenario.alice1; OpJoinRoom Scenario.alice1 (Some "r1");
              OpConnect Scenario.bob1; OpJoinRoom Scenario.bob1 (Some "r1")]
             (initial Scenario.store) (reach_initial _ _)).
    script_enabled.
  - apply (bool_decide_unpack _). vm_compute. exact I.
  - apply (bool_decide_unpack _). vm_compute. exact I.
Defined.

(** ** Renaming a room *)

Lemma Room_findByName_found n σ :
  connected (database σ) = true →
  ∃ found, Room_findByName n σ = (Return found, σ) ∧
    match found with
    | Some room =>
        ∃ rec, rooms (database σ) !! rId room = Some rec ∧ name rec = JS.trim n
    | None => ∀ i rec, rooms (database σ) !! i = Some rec → name rec ≠ JS.trim n
    end.
Proof.
  intros Hc. unfold Room_findByName.
  rewrite (bind_Return _ _ _ _ _ (requireConnected_up σ Hc)).
  eexists. split; [reflexivity|].
  destruct (head _) as [[i rec]|] eqn:Hhead; simpl.
  - apply head_Some_elem_of, list_elem_of_filter in Hhead as [Hname Hin].
    apply elem_of_map_to_list in Hin. by exists rec.
  - intros i rec Hrec.
    apply (head_filter_None _ _ Hhead (i, rec)).
    by apply elem_of_map_to_list.
Qed.

(** X26.  PUT /api/rooms/:id either renames one room and answers 200, or
    answers an error and changes nothing.  It renames only for the creator
    of the room, to the trimmed requested name, which passes
    [Room.validateName]; creator, participants and activity of the room and
    every other room stay as they are.  If no two stored rooms had the same
    name before, no two have afterwards. *)
Theorem updateRoom_renames_for_the_creator_only id requested u σ :
  match RoomController.updateRoom id requested u σ with
  | (Return (success status message data), σ') =>
      status = 200 ∧
      ∃ i n rec,
        JS.truthy id = Some i ∧ JS.truthy requested = Some n ∧
        rooms (database σ) !! i = Some rec ∧ createdBy rec = u ∧
        Room_validateName (JS.trim n) = [] ∧
        rooms (database σ') = <[i := renamed (JS.trim n) rec]> (rooms (database σ)) ∧
        (namesUnique σ → namesUnique σ') ∧
        messages (database σ') = messages (database σ) ∧
        users (database σ') = users (database σ) ∧
        mem σ' = mem σ ∧ emitted σ' = emitted σ
  | (Return (failure status code message details), σ') =>
      σ' = σ ∧ status ∈ [400; 403; 404; 409; 500]
  | (Throw _, _) => False
  end.
Proof.
  unfold RoomController.updateRoom. destruct (JS.truthy id) as [i|] eqn:Hid.
  2:{ simpl. split; [done|]. set_solver. }
  destruct (JS.truthy requested) as [n|] eqn:Hn.
  2:{ simpl. split; [done|]. set_solver. }
  destruct (connected (database σ)) eqn:Hc.
  2:{ rewrite (try_catch_Throw _ _ _ _ _
                 (bind_Throw _ _ _ _ _ (Room_findById_down i σ Hc))).
      simpl. split; [done|]. set_solver. }
  unfold try_catch.
  rewrite (bind_Return _ _ _ _ _ (Room_findById_up i σ Hc)).
  destruct (rooms (database σ) !! i) as [rec|] eqn:Hrec.
  2:{ simpl. split; [done|]. set_solver. }
  simpl. case_bool_decide as Hby.
  2:{ simpl. split; [done|]. set_solver. }
  simpl. unfold bind at 1, Room_updateName.
  destruct (Room_validateName (JS.trim n)) as [|err errs] eqn:Hv.
  2:{ simpl. split; [done|]. set_solver. }
  destruct (Room_findByName_found (JS.trim (JS.trim n)) σ Hc)
    as (found & Hrun & Hfound).
  rewrite (bind_Return _ _ _ _ _ Hrun). rewrite !trim_trim in Hfound.
  set (taken := match found with
                | Some existing => negb (bool_decide (rId existing = rId (newRoom i rec)))
                | None => false
                end).
  destruct taken eqn:Htaken.
  { simpl. split; [done|]. set_solver. }
  unfold Room_participants, Room_save, bind, gets, requireConnected, modify, ret.
  simpl. rewrite Hrec, Hc. simpl.
  assert (alter (λ _, {| name := JS.trim (JS.trim n); createdBy := createdBy rec;
                         participants := participants rec;
                         isActive := isActive rec |}) i (rooms (database σ))
          = <[i := renamed (JS.trim n) rec]> (rooms (database σ))) as Halter.
  { apply map_eq. intros j. destruct (decide (j = i)) as [->|Hne].
    - rewrite lookup_alter_eq, lookup_insert_eq, Hrec. simpl.
      unfold renamed. by rewrite trim_trim.
    - by rewrite lookup_alter_ne, lookup_insert_ne. }
  rewrite Halter.
  split; [done|]. exists i, n, rec.
  split; [done|]. split; [done|]. split; [done|]. split; [done|].
  split; [done|]. split; [done|]. split; [|done].
  intros Huniq a b reca recb Ha Hb Heq. simpl in Ha, Hb.
  rewrite ?Halter in Ha, Hb.
  assert (∀ j recj, j ≠ i → rooms (database σ) !! j = Some recj →
            name recj ≠ JS.trim n) as Hfree.
  { intros j recj Hne Hj Hname. unfold taken in Htaken.
    destruct found as [existing|].
    - destruct Hfound as (rece & Hrece & Hnamee).
      apply negb_false_iff, bool_decide_eq_true in Htaken. simpl in Htaken.
      rewrite Htaken in Hrece.
      apply Hne. apply (Huniq j i recj rece Hj Hrece). congruence.
    - by apply (Hfound j recj Hj). }
  destruct (decide (a = i)) as [->|Hna], (decide (b = i)) as [->|Hnb]; [done| | |].
  - rewrite lookup_insert_eq in Ha. rewrite lookup_insert_ne in Hb by done.
    injection Ha as <-. simpl in Heq. by destruct (Hfree b recb Hnb Hb).
  - rewrite lookup_insert_eq in Hb. rewrite lookup_insert_ne in Ha by done.
    injection Hb as <-. simpl in Heq. by destruct (Hfree a reca Hna Ha).
  - rewrite lookup_insert_ne in Ha, Hb by done. by apply (Huniq a b reca recb).
Qed.

Example updateRoom_renames :
  let σ := initial Scenario.store in
  RoomController.updateRoom (Some "r1") (Some " Lobby ") "system" σ =
    (Return (success 200 "Room updated successfully"
               (Some {| rId := "r1"; rName := "Lobby"; rCreatedBy := "system";
                        rParticipants := []; rIsActive := true |})),
     setDatabase (setRooms (<["r1" := renamed "Lobby" Scenario.general]>)) σ) ∧
  RoomController.updateRoom (Some "r1") (Some "Lobby") "u1" σ =
    (Return (failure 403 "INSUFFICIENT_PERMISSIONS"
               "Only the room creator can update room details" None), σ) ∧
  RoomController.updateRoom (Some "r1") (Some "Lobby!") "system" σ =
    (Return (failure 400 "VALIDATION_ERROR" "Room validation failed"
       (Some ["Room name can only contain letters, numbers, spaces, underscores, and hyphens"])),
     σ).
Proof. vm_compute. repeat split. Qed.

(** ** Events that arrive together *)





















Lemma Room_save_run room ps σ :
  connected (database σ) = true →
  Room_save room ps σ =
    (Return tt,
     setDatabase (setRooms (alter (λ _,
       {| name := rName room; createdBy := rCreatedBy room;
          participants := ps; isActive := rIsActive room |}) (rId room))) σ).
Proof.
  intros Hc. unfold Room_save.
  by rewrite (bind_Return _ _ _ _ _ (requireConnected_up σ Hc)).
Qed.

Lemma dispatch_cons h hs q σ st σ1 out :
  h σ = (st, σ1) → dispatch hs (enqueue st q) σ1 = out →
  dispatch (h :: hs) q σ = out.
Proof. intros Hh Hrest. simpl. by rewrite Hh. Qed.

Lemma turns_step n q σ q1 σ1 out :
  turn q σ = (q1, σ1) → turns n q1 σ1 = out → turns (S n) q σ = out.
Proof. intros Ht Hrest. simpl. by rewrite Ht. Qed.

Lemma turns_nil n σ : turns n [] σ = ([], σ).
Proof. by induction n. Qed.

Lemma together_settled n hs σ q σ1 σ' :
  dispatch hs [] σ = (q, σ1) → turns n q σ1 = ([], σ') →
  together n hs σ = Some σ'.
Proof. intros Hd Ht. unfold together. by rewrite Hd, Ht. Qed.

(** Runs a handler symbolically up to its next [await]: the facts about
    the state are rewritten where the handler consults them. *)
Ltac resume_with Hinfo Hroom Hc Hreca Hacta Hrecb Hactb Hu Hvja Hvjb Hvla Hta Htb
                 Hcleared Hda Hdb Hba Hab :=
  repeat first
    [ progress unfold Awaiting.handleJoinRoom, Awaiting.joinStatements,
        Awaiting.leaveRoom, Awaiting.Room_addParticipant,
        Awaiting.Room_removeParticipant, Awaiting.Room_save,
        Awaiting.createUserJoinedNotification,
        Awaiting.createUserLeftNotification, Awaiting.Message_create,
        Awaiting.Room_findById, abind, acatch, await, sync
    | rewrite Hta | rewrite Htb | rewrite Hu | rewrite Hvja | rewrite Hvjb
    | rewrite Hvla | rewrite Hda | rewrite Hdb
    | rewrite Room_findById_up by exact Hc
    | rewrite Room_save_run by exact Hc
    | rewrite Message_create_up by (first [exact Hvja|exact Hvjb|exact Hvla|exact Hc])
    | rewrite lookup_alter_eq
    | rewrite lookup_alter_ne by (first [exact Hba|exact Hab])
    | rewrite Hinfo | rewrite Hreca | rewrite Hrecb | rewrite Hacta
    | rewrite Hactb | rewrite Hroom | rewrite Hcleared
    | progress simpl ].

(** X27.  Two join-room requests of one connection that arrive together do
    not run one after the other: their handlers interleave at the awaits.
    Take a connection whose current room is A (its user in A's stored
    participant list and not in B's; A and B active; store reachable) that
    asks to join B and, at once, to join A.  The first handler is suspended
    in [Room.findById]; the second is called and suspended there too.  The
    first resumes, finds the current room A and runs the first statements
    of [leaveRoom], which clear the current room, up to its
    [Room.findById].  The second resumes, finds no current room, applies no
    leave step and puts the user in A again; A's stored list still holds
    the user, so nothing is stored.  The first then takes the user out of
    A's stored list and goes on to join B.  When both handlers have
    settled, the current room is B, the user is in the participant sets of
    A and of B, the socket is in both transport groups, B's stored list has
    gained the user, and A's stored list is the former one without the
    user's entry, although A's set holds the user. *)
Theorem joins_together_end_in_two_rooms σ s a b reca recb info :
  connectedUsers σ !! userId s = Some info → currentRoom info = Some a →
  a ≠ "" → b ≠ "" → a ≠ b → connected (database σ) = true →
  rooms (database σ) !! a = Some reca → isActive reca = true →
  rooms (database σ) !! b = Some recb → isActive recb = true →
  wellFormed s →
  userId s ∈ participants reca → userId s ∉ participants recb →
  ∃ n σ',
    together n [Awaiting.handleJoinRoom s (Some b);
                Awaiting.handleJoinRoom s (Some a)] σ = Some σ' ∧
    inRoom σ' s b ∧
    userId s ∈ roomParticipants σ' !!! a ∧ userId s ∈ roomParticipants σ' !!! b ∧
    id s ∈ ioRooms σ' !!! a ∧ id s ∈ ioRooms σ' !!! b ∧
    (participants <$> rooms (database σ') !! a) =
      Some (removeFirst (userId s) (participants reca)) ∧
    (participants <$> rooms (database σ') !! b) =
      Some (participants recb ++ [userId s]).
Proof.
  intros Hinfo Hroom Ha Hb Hab Hc Hreca Hacta Hrecb Hactb Hwf Hina Hninb.
  assert (b ≠ a) as Hba by congruence.
  assert (JS.isEmpty (userId s) = false) as Hu by (apply isEmpty_false, Hwf).
  pose proof (validate_notification a (username s) " joined the room" Ha eq_refl
                (wellFormed_joined s Hwf)) as Hvja.
  pose proof (validate_notification b (username s) " joined the room" Hb eq_refl
                (wellFormed_joined s Hwf)) as Hvjb.
  pose proof (validate_notification a (username s) " left the room" Ha eq_refl
                (wellFormed_left s Hwf)) as Hvla.
  pose proof (truthy_Some_ne a Ha) as Hta.
  pose proof (truthy_Some_ne b Hb) as Htb.
  assert (JS.truthy (currentRoom (clearRoom a info)) = None) as Hcleared.
  { unfold clearRoom. by rewrite bool_decide_true. }
  assert (bool_decide (userId s ∈ participants reca) = true) as Hda
    by (by apply bool_decide_eq_true).
  assert (bool_decide (userId s ∈ participants recb) = false) as Hdb
    by (by apply bool_decide_eq_false).
  exists 40. eexists. split.
  { eapply together_settled.
    - eapply dispatch_cons.
      { resume_with Hinfo Hroom Hc Hreca Hacta Hrecb Hactb Hu Hvja Hvjb Hvla Hta Htb
             Hcleared Hda Hdb Hba Hab. reflexivity. }
      eapply dispatch_cons.
      { resume_with Hinfo Hroom Hc Hreca Hacta Hrecb Hactb Hu Hvja Hvjb Hvla Hta Htb
             Hcleared Hda Hdb Hba Hab. reflexivity. }
      reflexivity.
    - cbn [enqueue app].
      repeat (eapply turns_step;
        [ cbn [turn];
          resume_with Hinfo Hroom Hc Hreca Hacta Hrecb Hactb Hu Hvja Hvjb Hvla Hta Htb
               Hcleared Hda Hdb Hba Hab; reflexivity
        | cbn [enqueue app] ]).

      reflexivity. }
  unfold inRoom.
  cbn [connectedUsers roomParticipants ioRooms database rooms setEmitted
       setDatabase setRooms setMessages setUuidCounter setRoomParticipants
       setConnectedUsers setIoRooms].
  split.
  { eexists. split; [by rewrite !lookup_alter_eq, Hinfo|done]. }
  split. { rewrite !elem_of_indexAdd. left. by right. }
  split. { rewrite !elem_of_indexAdd. by right. }
  split. { rewrite lookup_total_insert_ne by done.
           rewrite lookup_total_insert_eq. set_solver. }
  split. { rewrite lookup_total_insert_eq. set_solver. }
  split.
  - rewrite lookup_alter_ne by done. by rewrite lookup_alter_eq, Hreca.
  - rewrite lookup_alter_eq, lookup_alter_ne by done. by rewrite Hrecb.
Qed.

Lemma joins_together_end_in_two_rooms_witness :
  let σ := Scenario.aliceInRoom in
  let s := Scenario.alice1 in
  ∃ n σ',
    together n [Awaiting.handleJoinRoom s (Some "r2");
                Awaiting.handleJoinRoom s (Some "r1")] σ = Some σ' ∧
    inRoom σ' s "r2" ∧
    "u1" ∈ roomParticipants σ' !!! "r1" ∧ "u1" ∈ roomParticipants σ' !!! "r2" ∧
    "s1" ∈ ioRooms σ' !!! "r1" ∧ "s1" ∈ ioRooms σ' !!! "r2" ∧
    (participants <$> rooms (database σ') !! "r1") = Some [] ∧
    (participants <$> rooms (database σ') !! "r2") = Some ["u1"].
Proof.
  refine (joins_together_end_in_two_rooms Scenario.aliceInRoom Scenario.alice1
            "r1" "r2"
            {| name := "General"; createdBy := "system";
               participants := ["u1"]; isActive := true |}
            Scenario.general
            {| socketId := "s1"; infoUsername := "alice";
               currentRoom := Some "r1" |} _ _ _ _ _ _ _ _ _ _ _ _ _).
  - vm_compute. reflexivity.
  - reflexivity.
  - discriminate.
  - discriminate.
  - discriminate.
  - vm_compute. reflexivity.
  - vm_compute. reflexivity.
  - reflexivity.
  - vm_compute. reflexivity.
  - reflexivity.
  - split; [discriminate|]. simpl. lia.
  - apply (bool_decide_unpack _). vm_compute. exact I.
  - apply (bool_decide_unpack _). vm_compute. exact I.
Defined.

